(** * Seoye calligraphy canvas: brush physics, stroke engine, history, particles

    A shallow embedding of the drawing core of the Seoye application:

    - the brush physics of [utils/brushPhysics]
      ([src/unnamed/part_000], lines 692-774): [getDistance], [getAngle],
      [calculateBrushPhysics];
    - the canvas component [CalligraphyCanvas]
      ([src/services/geminiService.ts], from line 98): [saveHistory]
      (line 183), [performUndo] (206), [performRedo] (221), [downloadSvg]
      (270), [drawAndRecordEllipse] (322), the initial history setup
      (420), [drawStroke] (509), and of [renderGenerativeText] (709) the
      particle shuffle (815) and [animateText] (834);
    - the types ([src/services/geminiService.ts], lines 47-97) and
      [FACTORY_DEFAULTS] ([src/App.tsx], line 23).

    JavaScript numbers are kept behind the interface [Number].  Two
    instances are given: [binary64], the IEEE 754 doubles the program
    really runs on (Rocq's primitive floats, so the embedding evaluates),
    and [exact], the same code read over the real numbers.  A statement
    that holds for every implementation of the interface is made once, for
    both; one about NaN, infinities or a concrete run is made on
    [binary64]; one about the algebra of a formula, which rounding would
    blur, on [exact].

    A canvas layer is modelled by what the program asks of it: its raster
    is the list of the ellipses filled on it, each with the state of the
    context it was filled under, and its vector log the list of the
    [<ellipse>] elements pushed. *)

From Stdlib Require Import ZArith QArith List Bool String Lia.
From Stdlib Require Import Floats Uint63.
From Stdlib Require Import Reals Lra.
From Stdlib Require Import Permutation.
Import ListNotations.

Set Implicit Arguments.
Set Warnings "-inexact-float".

(** ** JavaScript numbers *)

Declare Scope js_scope.
Delimit Scope js_scope with js.

(** The operations the program applies to values of type [number].
    [lit q] is the numeric literal whose decimal text denotes [q];
    [ltb], [leb], [eqb] are [<], [<=] and [===] ([a > b] is [ltb b a]);
    [tripCount n] is the number of times the body of
    [for (let i = 0; i < n; i++)] runs, [None] when the loop never ends. *)
Class Number (num : Type) : Type := {
  lit : Q -> num;
  add : num -> num -> num;
  sub : num -> num -> num;
  mul : num -> num -> num;
  div : num -> num -> num;
  ltb : num -> num -> bool;
  leb : num -> num -> bool;
  eqb : num -> num -> bool;
  Math_sqrt : num -> num;
  Math_ceil : num -> num;
  Math_min : num -> num -> num;
  Math_max : num -> num -> num;
  Math_PI : num;
  isFinite : num -> bool;
  of_nat : nat -> num;
  tripCount : num -> option nat
}.

(** [Math.atan2], [Math.cos] and [Math.sin]: ECMAScript leaves their
    results implementation-approximated, so they stay a parameter. *)
Class MathLib (num : Type) : Type := {
  Math_atan2 : num -> num -> num;
  Math_cos : num -> num;
  Math_sin : num -> num
}.

Infix "+" := add : js_scope.
Infix "-" := sub : js_scope.
Infix "*" := mul : js_scope.
Infix "/" := div : js_scope.
Notation "a <? b" := (ltb a b) (at level 70) : js_scope.
Notation "a <=? b" := (leb a b) (at level 70) : js_scope.
Notation "a >? b" := (ltb b a) (at level 70) : js_scope.
Notation "a >=? b" := (leb b a) (at level 70) : js_scope.
Notation "a === b" := (eqb a b) (at level 70) : js_scope.
Notation "# q" := (lit q%Q) (at level 1, format "# q") : js_scope.

(** [Math.pow(v, 2)]. *)
Definition Math_pow2 {num} `{Number num} (v : num) : num := (v * v)%js.

(** The one law of comparison some statements need: what is at most [b] is
    not above [b].  Both instances below obey it. *)
Class LawfulOrder (num : Type) {N : Number num} : Prop := {
  leb_not_gtb : forall a b : num, (a <=? b)%js = true -> (a >? b)%js = false
}.
Arguments LawfulOrder num {N}.

(** *** IEEE 754 binary64 *)

Module Binary64.

(** The double nearest to an integer. *)
Definition of_Z (z : Z) : float :=
  SF2Prim (binary_normalize prec emax z 0 false).

(** A decimal literal is the double nearest to its value: the correctly
    rounded quotient of two integers that are doubles themselves. *)
Definition literal (q : Q) : float :=
  PrimFloat.div (of_Z (Qnum q)) (of_Z (Zpos (Qden q))).

(** [Math.ceil]: integers, zeros, infinities and NaN are returned as they
    are; a fraction [m * 2^e] with [e < 0] goes up to the next integer. *)
Definition ceil (v : float) : float :=
  match Prim2SF v with
  | S754_finite s m e =>
      if (0 <=? e)%Z then v
      else
        let d := (2 ^ (- e))%Z in
        let q := (Zpos m / d)%Z in
        if s then PrimFloat.opp (of_Z q)
        else of_Z (if (Zpos m mod d =? 0)%Z then q else q + 1)
  | _ => v
  end.

(** [Math.min] and [Math.max]: NaN if either argument is, and [-0] is
    below [+0]. *)
Definition min (a b : float) : float :=
  if PrimFloat.ltb a b then a
  else if PrimFloat.ltb b a then b
  else if PrimFloat.eqb a b then (if get_sign a then a else b)
  else nan.

Definition max (a b : float) : float :=
  if PrimFloat.ltb a b then b
  else if PrimFloat.ltb b a then a
  else if PrimFloat.eqb a b then (if get_sign a then b else a)
  else nan.

(** The counter of [for (let i = 0; i < n; i++)] is a double: it counts
    exactly up to [2^53] and stays there, since [2^53 + 1] rounds back to
    [2^53].  The loop ends (after [ceil n] rounds) unless [n > 2^53]. *)
Definition trips (n : float) : option nat :=
  if PrimFloat.ltb 9007199254740992 n then None
  else
    match Prim2SF (ceil n) with
    | S754_finite false m e => Some (Z.to_nat (Z.shiftl (Zpos m) e))
    | _ => Some 0%nat
    end.

(** Zeros and finite numbers, as opposed to infinities and NaN. *)
Definition finiteSF (x : spec_float) : bool :=
  match x with
  | S754_zero _ | S754_finite _ _ _ => true
  | _ => false
  end.

End Binary64.

#[export] Instance binary64 : Number float := {
  lit := Binary64.literal;
  add := PrimFloat.add;
  sub := PrimFloat.sub;
  mul := PrimFloat.mul;
  div := PrimFloat.div;
  ltb := PrimFloat.ltb;
  leb := PrimFloat.leb;
  eqb := PrimFloat.eqb;
  Math_sqrt := PrimFloat.sqrt;
  Math_ceil := Binary64.ceil;
  Math_min := Binary64.min;
  Math_max := Binary64.max;
  Math_PI := 3.141592653589793%float;
  isFinite := PrimFloat.is_finite;
  of_nat := fun n => Binary64.of_Z (Z.of_nat n);
  tripCount := Binary64.trips
}.

(** *** Exact arithmetic *)

Module Exact.

Definition ltb (a b : R) : bool := if Rlt_dec a b then true else false.
Definition leb (a b : R) : bool := if Rle_dec a b then true else false.
Definition eqb (a b : R) : bool := if Req_dec_T a b then true else false.

(** The least integer not below [v]. *)
Definition ceilZ (v : R) : Z := (1 - up (- v))%Z.

Definition atan2 (b a : R) : R :=
  if Rlt_dec 0 a then atan (b / a)
  else if Rlt_dec a 0 then
    (if Rle_dec 0 b then atan (b / a) + PI else atan (b / a) - PI)
  else if Rlt_dec 0 b then PI / 2
  else if Rlt_dec b 0 then - (PI / 2)
  else 0.

End Exact.

(** The real numbers as numbers: what the code computes when nothing
    rounds and nothing overflows.  There is no NaN and no infinity here, so
    [isFinite] holds of every number and every loop bound has its count;
    and the quotient is that of the reals, which is total: a quotient by 0
    is not what the code computes.  A statement over this instance says
    of the code what its formulas give in exact arithmetic, and of a
    quotient only where the divisor is not 0. *)
#[export] Instance exact : Number R | 10 := {
  lit := Q2R;
  add := Rplus;
  sub := Rminus;
  mul := Rmult;
  div := Rdiv;
  ltb := Exact.ltb;
  leb := Exact.leb;
  eqb := Exact.eqb;
  Math_sqrt := R_sqrt.sqrt;
  Math_ceil := fun v => IZR (Exact.ceilZ v);
  Math_min := Rmin;
  Math_max := Rmax;
  Math_PI := PI;
  isFinite := fun _ => true;
  of_nat := INR;
  tripCount := fun n => Some (Z.to_nat (Exact.ceilZ n))
}.

#[export] Instance exact_MathLib : MathLib R | 10 := {
  Math_atan2 := Exact.atan2;
  Math_cos := cos;
  Math_sin := sin
}.

(** ** Data model ([types]) *)

Inductive FontStyle : Set := HAND | PEN | BRUSH.
Inductive WeightOption : Set := THIN | NORMAL | BOLD.
Inductive AppMode : Set := DRAW | GENERATE.

Module Point.
Record t (num : Type) : Type := mk {
  x : num;
  y : num;
  pressure : num;
  time : num
}.
End Point.

Module BrushSettings.
Record t (num : Type) : Type := mk {
  size : num;
  roughness : num;
  taper : num;
  color : string;
  roundness : num;
  angle : num;
  hardness : num;
  spacing : num;
  letterSpacing : num;
  lineHeight : num;
  slant : num;
  fontSize : num;
  fontStyle : FontStyle;
  weightOption : WeightOption;
  isEraser : bool
}.
End BrushSettings.

(** The object [calculateBrushPhysics] returns. *)
Module Physics.
Record t (num : Type) : Type := mk {
  dist : num;
  angle : num;
  size : num;
  opacity : num;
  velocity : num
}.
End Physics.

(** ** The canvas *)

(** [globalCompositeOperation]: the two values the program assigns. *)
Inductive CompositeOp : Set := source_over | destination_out.

(** One filled ellipse, with the context state it was painted under.  The
    raster content of a layer is the list of its fills in paint order. *)
Record Fill (num : Type) : Type := mkFill {
  fill_op : CompositeOp;
  fill_alpha : num;
  fill_style : string;
  fill_blur : num;
  fill_x : num;
  fill_y : num;
  fill_radiusX : num;
  fill_radiusY : num;
  fill_rotation : num
}.

Definition ImageData (num : Type) : Type := list (Fill num).

(** The part of a [CanvasRenderingContext2D] the program reads or writes.
    A field holds the value the program last assigned to it: the values
    the canvas would ignore (a negative or non-finite blur, an alpha
    outside [0, 1], a colour it cannot parse) are not told apart. *)
Record Context2D (num : Type) : Type := mkContext {
  globalCompositeOperation : CompositeOp;
  shadowBlur : num;
  shadowColor : string;
  globalAlpha : num;
  fillStyle : string;
  raster : ImageData num
}.

(** An [<ellipse>] element of the vector log; the numbers are the ones the
    program formats with [toFixed]. *)
Record Ellipse (num : Type) : Type := mkEllipse {
  svg_cx : num;
  svg_cy : num;
  svg_rx : num;
  svg_ry : num;
  svg_rotDeg : num;
  svg_fill : string;
  svg_fill_opacity : num
}.

(** What a drawing routine works on: a layer's context, the vector log that
    goes with it ([drawingSvgRef] or [textSvgRef]), and how many times
    [Math.random] has been called. *)
Record Ink (num : Type) : Type := mkInk {
  ctx : Context2D num;
  svg : list (Ellipse num);
  randoms : nat
}.

(** How a routine ends: normally, with a value, or on the [IndexSizeError]
    that [ctx.ellipse] raises; nothing in the program catches it. *)
Inductive Completion (A : Type) : Type :=
| Normal (a : A)
| IndexSizeError.
Arguments IndexSizeError {A}.

(** What a call of [drawStroke] does: it returns; it is left on an
    [IndexSizeError], with the layer as it then is; or its loop has no
    last round, and the call never returns (it runs on, unless a round
    raises on the way, which the model does not follow up). *)
Inductive Outcome (A : Type) : Type :=
| Returns (a : A)
| Throws (a : A)
| Diverges.
Arguments Diverges {A}.

(** A fresh canvas context, as resizing a canvas leaves it. *)
Definition newContext {num} `{Number num} : Context2D num :=
  mkContext source_over (lit 0) "rgba(0, 0, 0, 0)" (lit 1) "#000000" [].

Section Brush.

Context {num : Type} {N : Number num} {M : MathLib num}.
Local Open Scope js_scope.
Local Open Scope bool_scope.

(** The sequence of results of [Math.random()], in call order. *)
Variable random_source : nat -> num.

(** *** [utils/brushPhysics] *)

Definition getDistance (p1 p2 : Point.t num) : num :=
  Math_sqrt (Math_pow2 (Point.x p2 - Point.x p1)
             + Math_pow2 (Point.y p2 - Point.y p1)).

Definition getAngle (p1 p2 : Point.t num) : num :=
  Math_atan2 (Point.y p2 - Point.y p1) (Point.x p2 - Point.x p1).

(** The [pressureInput] of [calculateBrushPhysics]: the pressure of the
    sample when it lies in [0, 1], else one simulated from the velocity. *)
Definition pressureInput (currentPoint : Point.t num) (velocity : num) : num :=
  if (Point.pressure currentPoint >=? #0)
     && (Point.pressure currentPoint <=? #1)
  then Point.pressure currentPoint
  else
    let maxVelocity := #2.5 in
    let velocityRatio := Math_min #1 (velocity / maxVelocity) in
    #1 - velocityRatio.

Definition calculateBrushPhysics
    (lastPoint currentPoint : Point.t num) (settings : BrushSettings.t num)
    : Physics.t num :=
  let dist := getDistance lastPoint currentPoint in
  let timeDiff := Point.time currentPoint - Point.time lastPoint in
  let velocity := if timeDiff >? #0 then dist / timeDiff else #0 in
  let maxSize := BrushSettings.size settings * #1.5 in
  let pressureInput := pressureInput currentPoint velocity in
  let targetSize :=
    maxSize * (#1 - (#1 - pressureInput) * BrushSettings.taper settings) in
  Physics.mk dist (getAngle lastPoint currentPoint) targetSize #1.0 velocity.

(** *** Drawing routines as state transformers over [Ink] *)

Definition Draw (A : Type) : Type := Ink num -> Completion A * Ink num.

Definition ret {A} (a : A) : Draw A := fun s => (Normal a, s).

Definition throw {A} : Draw A := fun s => (IndexSizeError, s).

Definition bind {A B} (c : Draw A) (k : A -> Draw B) : Draw B :=
  fun s =>
    match c s with
    | (Normal a, s') => k a s'
    | (IndexSizeError, s') => (IndexSizeError, s')
    end.

Notation "v <- c ;; k" := (bind c (fun v => k))
  (at level 61, c at next level, right associativity).
Notation "c ;; k" := (bind c (fun _ => k))
  (at level 61, right associativity).

Definition Math_random : Draw num :=
  fun s => (Normal (random_source (randoms s)),
            mkInk (ctx s) (svg s) (S (randoms s))).

(** An assignment to fields of the context. *)
Definition onContext (f : Context2D num -> Context2D num) : Draw unit :=
  fun s => (Normal tt, mkInk (f (ctx s)) (svg s) (randoms s)).

(** [svgRef.current.push(svgEl)]. *)
Definition push (svgEl : Ellipse num) : Draw unit :=
  fun s => (Normal tt, mkInk (ctx s) (svg s ++ [svgEl]) (randoms s)).

Definition set_globalCompositeOperation (op : CompositeOp) (c : Context2D num) :=
  mkContext op (shadowBlur c) (shadowColor c) (globalAlpha c) (fillStyle c)
    (raster c).

Definition set_shadowBlur (b : num) (c : Context2D num) :=
  mkContext (globalCompositeOperation c) b (shadowColor c) (globalAlpha c)
    (fillStyle c) (raster c).

Definition set_shadowColor (col : string) (c : Context2D num) :=
  mkContext (globalCompositeOperation c) (shadowBlur c) col (globalAlpha c)
    (fillStyle c) (raster c).

Definition set_globalAlpha (a : num) (c : Context2D num) :=
  mkContext (globalCompositeOperation c) (shadowBlur c) (shadowColor c) a
    (fillStyle c) (raster c).

Definition set_fillStyle (col : string) (c : Context2D num) :=
  mkContext (globalCompositeOperation c) (shadowBlur c) (shadowColor c)
    (globalAlpha c) col (raster c).

(** What [fill()] adds to the raster when the path is one ellipse. *)
Definition fillPath (x y rx ry rotation : num) (c : Context2D num) :=
  mkContext (globalCompositeOperation c) (shadowBlur c) (shadowColor c)
    (globalAlpha c) (fillStyle c)
    (raster c ++ [mkFill (globalCompositeOperation c) (globalAlpha c)
                    (fillStyle c) (shadowBlur c) x y rx ry rotation]).

(** [ctx.ellipse(x, y, rx, ry, rotation, 0, Math.PI * 2); ctx.fill()] on
    the empty path that [beginPath()] leaves.  The canvas adds nothing to
    the path when an argument is not finite (the last two are finite), and
    raises [IndexSizeError] for a negative radius; else the fill paints
    the ellipse. *)
Definition ellipse_fill (x y rx ry rotation : num) : Draw unit :=
  if negb (isFinite x && isFinite y && isFinite rx && isFinite ry
           && isFinite rotation)
  then ret tt
  else if (rx <? #0) || (ry <? #0) then throw
  else onContext (fillPath x y rx ry rotation).

(** [for (let i = 0; i < n; i++) body(i)], for a loop known to run [n]
    rounds; [from] is the first index. *)
Fixpoint for_ (n : nat) (from : nat) (body : nat -> Draw unit) : Draw unit :=
  match n with
  | O => ret tt
  | S n' => body from ;; for_ n' (S from) body
  end.

(** *** [drawAndRecordEllipse] *)

(** The guard of [drawAndRecordEllipse] lets these ellipses through. *)
Definition finiteEllipse (x y rx ry : num) : bool :=
  isFinite x && isFinite y && isFinite rx && isFinite ry.

(** The ellipses that reach the raster: let through by the guard, turned
    by a finite angle, and of radii that are not negative. *)
Definition paints (x y rx ry rotation : num) : bool :=
  finiteEllipse x y rx ry && isFinite rotation
  && negb ((rx <? #0) || (ry <? #0)).

Definition drawAndRecordEllipse (x y rx ry rotation : num) (color : string)
    (opacity : num) (isEraser : bool) : Draw unit :=
  if negb (isFinite x) || negb (isFinite y)
     || negb (isFinite rx) || negb (isFinite ry)
  then ret tt
  else
    onContext (set_globalAlpha opacity) ;;
    onContext (set_fillStyle color) ;;
    ellipse_fill x y rx ry rotation ;;
    if negb isEraser then
      let rotDeg := (rotation * #180) / Math_PI in
      push (mkEllipse x y rx ry rotDeg color opacity)
    else ret tt.

(** *** [drawStroke] *)

(** [targetSize], [velocity] and [dist] as the first block of [drawStroke]
    leaves them. *)
Record Geometry : Type := mkGeometry {
  targetSize : num;
  velocity : num;
  dist : num
}.

Definition strokeGeometry (lastPoint currentPoint : Point.t num)
    (settings : BrushSettings.t num) : Geometry :=
  if BrushSettings.size settings >? #1 then
    let physics := calculateBrushPhysics lastPoint currentPoint settings in
    mkGeometry (Physics.size physics) (Physics.velocity physics)
      (Physics.dist physics)
  else
    let dist :=
      Math_sqrt (Math_pow2 (Point.x currentPoint - Point.x lastPoint)
                 + Math_pow2 (Point.y currentPoint - Point.y lastPoint)) in
    let targetSize :=
      if BrushSettings.size settings === #0 then #0.5
      else BrushSettings.size settings in
    mkGeometry targetSize #0 dist.

Definition strokeStepSize (settings : BrushSettings.t num) (targetSize : num) : num :=
  let baseStep := Math_max #0.5 (targetSize * #0.05) in
  let spacingFactor := BrushSettings.spacing settings * targetSize * #1.5 in
  baseStep + spacingFactor.

Definition strokeSteps (lastPoint currentPoint : Point.t num)
    (settings : BrushSettings.t num) : num :=
  let g := strokeGeometry lastPoint currentPoint settings in
  Math_ceil (dist g / strokeStepSize settings (targetSize g)).

Definition brushAngleRad (settings : BrushSettings.t num) : num :=
  BrushSettings.angle settings * (Math_PI / #180).

Definition blurAmount (settings : BrushSettings.t num) (targetSize : num) : num :=
  if (BrushSettings.hardness settings >=? #0.95)
     || (BrushSettings.size settings <=? #1)
  then #0
  else targetSize * (#1 - BrushSettings.hardness settings).

(** The three splatter stamps around a main stamp at [(x, y)]. *)
Definition splatter (settings : BrushSettings.t num) (targetSize x y radiusX radiusY
    opacity : num) : Draw unit :=
  for_ 3 0 (fun _ =>
    r1 <- Math_random ;;
    let angleOffset := (r1 - #0.5) * Math_PI in
    r2 <- Math_random ;;
    let distOffset := (r2 * targetSize) / #2 in
    let bx := x + Math_cos (brushAngleRad settings + angleOffset) * distOffset in
    let by_ := y + Math_sin (brushAngleRad settings + angleOffset) * distOffset in
    r3 <- Math_random ;;
    drawAndRecordEllipse bx by_ (radiusX * #0.3) (radiusY * #0.3)
      (brushAngleRad settings) (BrushSettings.color settings)
      (opacity * #0.4 * r3) false).

(** The centre of the stamp of round [i]. *)
Definition stampX (lastPoint currentPoint : Point.t num) (steps : num)
    (i : nat) : num :=
  let t := of_nat i / steps in
  Point.x lastPoint + (Point.x currentPoint - Point.x lastPoint) * t.

Definition stampY (lastPoint currentPoint : Point.t num) (steps : num)
    (i : nat) : num :=
  let t := of_nat i / steps in
  Point.y lastPoint + (Point.y currentPoint - Point.y lastPoint) * t.

(** One round of the stamping loop of [drawStroke]. *)
Definition strokeStamp (lastPoint currentPoint : Point.t num)
    (settings : BrushSettings.t num) (g : Geometry) (steps : num) (i : nat)
    : Draw unit :=
  let x := stampX lastPoint currentPoint steps i in
  let y := stampY lastPoint currentPoint steps i in
  roughnessThreshold <- Math_random ;;
  let dryBrushFactor :=
    (velocity g * BrushSettings.roughness settings) / #5 in
  if (BrushSettings.size settings >? #1)
     && (roughnessThreshold <? dryBrushFactor)
     && negb (BrushSettings.isEraser settings)
  then ret tt
  else
    let radiusX := targetSize g / #2 in
    let radiusY := (targetSize g / #2) * BrushSettings.roundness settings in
    let opacity := if BrushSettings.size settings <=? #1 then #1.0 else #1.0 in
    drawAndRecordEllipse x y radiusX radiusY (brushAngleRad settings)
      (BrushSettings.color settings) opacity
      (BrushSettings.isEraser settings) ;;
    if (BrushSettings.size settings >? #1)
       && ((opacity <? #0.9) || (BrushSettings.roughness settings >? #0.2))
       && negb (BrushSettings.isEraser settings)
    then splatter settings (targetSize g) x y radiusX radiusY opacity
    else ret tt.

(** [drawStroke] once the canvas, its context and the last point are
    there, with [rounds] rounds of the stamping loop. *)
Definition strokeOnto (lastPoint currentPoint : Point.t num)
    (settings : BrushSettings.t num) (rounds : nat) : Draw unit :=
  let g := strokeGeometry lastPoint currentPoint settings in
  let angle := Math_atan2 (Point.y currentPoint - Point.y lastPoint)
                 (Point.x currentPoint - Point.x lastPoint) in
  let steps := strokeSteps lastPoint currentPoint settings in
  onContext (set_globalCompositeOperation
               (if BrushSettings.isEraser settings then destination_out
                else source_over)) ;;
  (if negb (BrushSettings.isEraser settings) then
     onContext (set_shadowBlur (blurAmount settings (targetSize g))) ;;
     onContext (set_shadowColor (BrushSettings.color settings))
   else onContext (set_shadowBlur #0)) ;;
  for_ rounds 0 (strokeStamp lastPoint currentPoint settings g steps) ;;
  onContext (set_shadowBlur #0) ;;
  onContext (set_globalCompositeOperation source_over).

(** [drawStroke(currentPoint)]: [drawing] is the drawing layer ([None]
    when the canvas or its context is missing) and [lastPointRef] the
    content of [lastPointRef.current]. *)
Definition drawStroke (settings : BrushSettings.t num)
    (lastPointRef : option (Point.t num)) (currentPoint : Point.t num)
    (drawing : option (Ink num)) : Outcome (option (Ink num)) :=
  match drawing, lastPointRef with
  | Some ink, Some lastPoint =>
      match tripCount (strokeSteps lastPoint currentPoint settings) with
      | Some rounds =>
          match strokeOnto lastPoint currentPoint settings rounds ink with
          | (Normal _, ink') => Returns (Some ink')
          | (IndexSizeError, ink') => Throws (Some ink')
          end
      | None => Diverges
      end
  | _, _ => Returns drawing
  end.

(** A drawing session: the calls of [drawStroke] that [handlePointerMove]
    makes, each with the settings of its render, the last point kept and
    the current one.  An [IndexSizeError] ends the handler it is raised in,
    not the session; a loop without a last round ends what the model can
    tell of the session. *)
Definition Move : Type :=
  (BrushSettings.t num * Point.t num * Point.t num)%type.

Fixpoint session (moves : list Move) (drawing : option (Ink num))
    : Outcome (option (Ink num)) :=
  match moves with
  | [] => Returns drawing
  | (settings, lastPoint, currentPoint) :: rest =>
      match drawStroke settings (Some lastPoint) currentPoint drawing with
      | Returns drawing' | Throws drawing' => session rest drawing'
      | Diverges => Diverges
      end
  end.

(** The layer as the assignments at the head of [drawStroke] leave it. *)
Definition strokeStart (settings : BrushSettings.t num) (g : Geometry)
    (ink : Ink num) : Ink num :=
  let c := set_globalCompositeOperation
             (if BrushSettings.isEraser settings then destination_out
              else source_over) (ctx ink) in
  mkInk
    (if BrushSettings.isEraser settings then set_shadowBlur #0 c
     else set_shadowColor (BrushSettings.color settings)
            (set_shadowBlur (blurAmount settings (targetSize g)) c))
    (svg ink) (randoms ink).

(** What the main stamp of a round paints and records, at centre
    [(x, y)], under composite operation [op] and shadow blur [blur]. *)
Definition stampFill (settings : BrushSettings.t num) (g : Geometry)
    (op : CompositeOp) (blur x y : num) : Fill num :=
  mkFill op #1.0 (BrushSettings.color settings) blur x y
    (targetSize g / #2)
    ((targetSize g / #2) * BrushSettings.roundness settings)
    (brushAngleRad settings).

Definition stampEllipse (settings : BrushSettings.t num) (g : Geometry)
    (x y : num) : Ellipse num :=
  mkEllipse x y (targetSize g / #2)
    ((targetSize g / #2) * BrushSettings.roundness settings)
    ((brushAngleRad settings * #180) / Math_PI)
    (BrushSettings.color settings) #1.0.

(** A radius of the main stamps of a stroke is negative. *)
Definition negativeRadius (settings : BrushSettings.t num) (g : Geometry)
    : bool :=
  (targetSize g / #2 <? #0)
  || ((targetSize g / #2) * BrushSettings.roundness settings <? #0).

(** A radius of its splatter stamps is. *)
Definition negativeSplatter (settings : BrushSettings.t num) (g : Geometry)
    : bool :=
  ((targetSize g / #2) * #0.3 <? #0)
  || (((targetSize g / #2) * BrushSettings.roundness settings) * #0.3 <? #0).

(** The rounds of a stroke whose main stamp passes the guard of
    [drawAndRecordEllipse]. *)
Definition recordedRounds (lastPoint currentPoint : Point.t num)
    (settings : BrushSettings.t num) (rounds : nat) : list nat :=
  let g := strokeGeometry lastPoint currentPoint settings in
  let steps := strokeSteps lastPoint currentPoint settings in
  filter (fun i =>
            finiteEllipse (stampX lastPoint currentPoint steps i)
              (stampY lastPoint currentPoint steps i)
              (targetSize g / #2)
              ((targetSize g / #2) * BrushSettings.roundness settings))
    (seq 0 rounds).

(** The rounds whose main stamp reaches the raster. *)
Definition paintedRounds (lastPoint currentPoint : Point.t num)
    (settings : BrushSettings.t num) (rounds : nat) : list nat :=
  let g := strokeGeometry lastPoint currentPoint settings in
  let steps := strokeSteps lastPoint currentPoint settings in
  filter (fun i =>
            paints (stampX lastPoint currentPoint steps i)
              (stampY lastPoint currentPoint steps i)
              (targetSize g / #2)
              ((targetSize g / #2) * BrushSettings.roundness settings)
              (brushAngleRad settings))
    (seq 0 rounds).

(** The fills of the main stamps of a stroke of [rounds] rounds. *)
Definition strokeFills (op : CompositeOp) (blur : num)
    (lastPoint currentPoint : Point.t num) (settings : BrushSettings.t num)
    (rounds : nat) : list (Fill num) :=
  let g := strokeGeometry lastPoint currentPoint settings in
  let steps := strokeSteps lastPoint currentPoint settings in
  map (fun i => stampFill settings g op blur
                  (stampX lastPoint currentPoint steps i)
                  (stampY lastPoint currentPoint steps i))
    (paintedRounds lastPoint currentPoint settings rounds).

(** The vector elements of the main stamps of a stroke. *)
Definition strokeEllipses (lastPoint currentPoint : Point.t num)
    (settings : BrushSettings.t num) (rounds : nat) : list (Ellipse num) :=
  let g := strokeGeometry lastPoint currentPoint settings in
  let steps := strokeSteps lastPoint currentPoint settings in
  map (fun i => stampEllipse settings g
                  (stampX lastPoint currentPoint steps i)
                  (stampY lastPoint currentPoint steps i))
    (recordedRounds lastPoint currentPoint settings rounds).

(** What the moves of an eraser session paint, move after move. *)
Fixpoint eraserFills (moves : list Move) : list (Fill num) :=
  match moves with
  | [] => []
  | (settings, lastPoint, currentPoint) :: rest =>
      match tripCount (strokeSteps lastPoint currentPoint settings) with
      | Some rounds =>
          strokeFills destination_out #0 lastPoint currentPoint settings rounds
      | None => []
      end ++ eraserFills rest
  end.

(** The body of the vector export ([downloadSvg]): the text log, then the
    drawing log. *)
Definition svgContent (textSvg drawingSvg : list (Ellipse num))
    : list (Ellipse num) :=
  textSvg ++ drawingSvg.

(** *** [renderGenerativeText]: the particle animation *)

(** A candidate position found by the scan of the text buffer. *)
Record Particle : Type := mkParticle {
  particle_x : num;
  particle_y : num
}.

Definition isBRUSH (f : FontStyle) : bool :=
  match f with BRUSH => true | _ => false end.

Definition isPEN (f : FontStyle) : bool :=
  match f with PEN => true | _ => false end.

Definition isTHIN (w : WeightOption) : bool :=
  match w with THIN => true | _ => false end.

Definition isGENERATE (m : AppMode) : bool :=
  match m with GENERATE => true | DRAW => false end.

Definition particleSize (settings : BrushSettings.t num) : num :=
  match BrushSettings.weightOption settings with
  | THIN => #1.6
  | NORMAL => #3.5
  | BOLD => #6.0
  end.

(** The [roughness] and [roundness] that [renderGenerativeText] picks. *)
Definition textRoughness (mode : AppMode) (settings : BrushSettings.t num) : num :=
  if isGENERATE mode then
    if isBRUSH (BrushSettings.fontStyle settings) then #0.4
    else if isPEN (BrushSettings.fontStyle settings) then #0.05
    else #0.02
  else #0.

Definition textRoundness (mode : AppMode) (settings : BrushSettings.t num) : num :=
  if isGENERATE mode then
    if isBRUSH (BrushSettings.fontStyle settings) then #0.6
    else if isPEN (BrushSettings.fontStyle settings) then #0.95
    else #1.0
  else #1.0.

(** The test that opens the body of the batch loop,
    [mode === GENERATE && fontStyle === 'BRUSH' && Math.random() < 0.1]:
    [Math.random] is only called when the first two conjuncts hold. *)
Definition dropTest (mode : AppMode) (settings : BrushSettings.t num) : Draw bool :=
  if isGENERATE mode && isBRUSH (BrushSettings.fontStyle settings) then
    r <- Math_random ;; ret (r <? #0.1)
  else ret false.

(** The rest of the loop body: jiggle the particle and stamp it. *)
Definition stampParticle (mode : AppMode) (settings : BrushSettings.t num)
    (p : Particle) : Draw unit :=
  let roughness := textRoughness mode settings in
  let roundness := textRoundness mode settings in
  let brushAngleRad := #45 * (Math_PI / #180) in
  let jiggle :=
    if isTHIN (BrushSettings.weightOption settings) then #0.1
    else roughness * #1.5 in
  r1 <- Math_random ;;
  let jx := particle_x p + (r1 - #0.5) * jiggle in
  r2 <- Math_random ;;
  let jy := particle_y p + (r2 - #0.5) * jiggle in
  r3 <- Math_random ;;
  let currentParticleSize := particleSize settings * (#0.85 + r3 * #0.3) in
  let radiusX := currentParticleSize / #2 in
  let radiusY := (currentParticleSize / #2) * roundness in
  r4 <- Math_random ;;
  let opacity := #0.95 + r4 * #0.05 in
  drawAndRecordEllipse jx jy radiusX radiusY brushAngleRad
    (BrushSettings.color settings) opacity false.

Definition animateParticle (mode : AppMode) (settings : BrushSettings.t num)
    (p : Particle) : Draw unit :=
  dropped <- dropTest mode settings ;;
  if dropped then ret tt else stampParticle mode settings p.

(** The batch loop of [animateText]: at most [batch] rounds, left early
    when the particles run out; the result is the new [particleIndex]. *)
Fixpoint animateBatch (batch : nat) (mode : AppMode)
    (settings : BrushSettings.t num) (particles : list Particle)
    (particleIndex : nat) : Draw nat :=
  match batch with
  | O => ret particleIndex
  | S batch' =>
      match nth_error particles particleIndex with
      | None => ret particleIndex
      | Some p =>
          animateParticle mode settings p ;;
          animateBatch batch' mode settings particles (S particleIndex)
      end
  end.

(** Stamping the particles of a list one after the other, none dropped. *)
Fixpoint stampParticles (mode : AppMode) (settings : BrushSettings.t num)
    (ps : list Particle) : Draw unit :=
  match ps with
  | [] => ret tt
  | p :: rest =>
      stampParticle mode settings p ;; stampParticles mode settings rest
  end.

Definition batchSize : nat := 1000.

(** One call of [animateText]; the boolean tells whether it asked for
    another animation frame. *)
Definition animateText (mode : AppMode) (settings : BrushSettings.t num)
    (particles : list Particle) (particleIndex : nat) : Draw (nat * bool) :=
  if (List.length particles <=? particleIndex)%nat then ret (particleIndex, false)
  else
    let shouldBlur := negb (isTHIN (BrushSettings.weightOption settings)) in
    onContext (set_shadowBlur (if shouldBlur then #1 else #0)) ;;
    onContext (set_shadowColor (BrushSettings.color settings)) ;;
    particleIndex' <- animateBatch batchSize mode settings particles particleIndex ;;
    onContext (set_shadowBlur #0) ;;
    ret (particleIndex', true).

(** *** [renderGenerativeText]: the shuffle

    [particles.sort(() => Math.random() - 0.5)].  The sort is the engine's:
    what the program fixes is the comparator, which ignores its arguments
    and answers with a fresh random number less one half.  A run of the
    engine's sort on an array of a given length is therefore a decision
    tree: it asks the comparator, goes on according to the sign of the
    answer, and finally settles on an order, given as the list of the old
    indices in their new order. *)
Inductive SortRun : Type :=
| Settled (order : list nat)
| Compare (negative zero positive : SortRun).

Definition comparefn : Draw num :=
  r <- Math_random ;; ret (r - #0.5).

Fixpoint runSort (t : SortRun) : Draw (list nat) :=
  match t with
  | Settled order => ret order
  | Compare negative zero positive =>
      v <- comparefn ;;
      if v <? #0 then runSort negative
      else if v >? #0 then runSort positive
      else runSort zero
  end.

(** The array whose element at position [k] is the old element at
    position [nth k order]. *)
Definition reorder {A} (l : list A) (order : list nat) : list A :=
  flat_map (fun i => match nth_error l i with
                     | Some a => [a]
                     | None => []
                     end) order.

(** [engine n] is the engine's sort on arrays of length [n]. *)
Definition shuffle (engine : nat -> SortRun) (particles : list Particle)
    : Draw (list Particle) :=
  order <- runSort (engine (List.length particles)) ;;
  ret (reorder particles order).

End Brush.

(** The orders a sort on [n] elements may settle on: each index below [n]
    once. *)
Definition isOrder (n : nat) (order : list nat) : bool :=
  (List.length order =? n)%nat
  && forallb (fun i => existsb (Nat.eqb i) order) (seq 0 n).

Fixpoint settlesOnOrders (n : nat) (t : SortRun) : bool :=
  match t with
  | Settled order => isOrder n order
  | Compare negative zero positive =>
      settlesOnOrders n negative && settlesOnOrders n zero
      && settlesOnOrders n positive
  end.

Fixpoint height (t : SortRun) : nat :=
  match t with
  | Settled _ => O
  | Compare negative zero positive =>
      S (Nat.max (height negative) (Nat.max (height zero) (height positive)))
  end.

(** [Math.random] read as a uniform draw among the [2^bits] numbers
    [k / 2^bits]: how many of them make the comparator negative, zero and
    positive. *)
Definition negatives (bits : nat) : Z :=
  Z.of_nat (List.length (filter (fun k => (2 * k <? 2 ^ Z.of_nat bits)%Z)
                           (map Z.of_nat (seq 0 (2 ^ bits))))).

Definition zeros (bits : nat) : Z :=
  Z.of_nat (List.length (filter (fun k => (2 * k =? 2 ^ Z.of_nat bits)%Z)
                           (map Z.of_nat (seq 0 (2 ^ bits))))).

Definition positives (bits : nat) : Z :=
  Z.of_nat (List.length (filter (fun k => (2 ^ Z.of_nat bits <? 2 * k)%Z)
                           (map Z.of_nat (seq 0 (2 ^ bits))))).

(** Among the [(2^bits)^depth] equally likely sequences of [depth] draws,
    the number of those on which the run [t] settles on [order] (a run
    that settles early leaves the remaining draws free). *)
Fixpoint ways (bits : nat) (depth : nat) (t : SortRun) (order : list nat)
    {struct t} : Z :=
  match t with
  | Settled o =>
      if list_eq_dec Nat.eq_dec o order then (2 ^ Z.of_nat bits) ^ Z.of_nat depth
      else 0
  | Compare negative zero positive =>
      match depth with
      | O => 0
      | S depth' =>
          negatives bits * ways bits depth' negative order
          + zeros bits * ways bits depth' zero order
          + positives bits * ways bits depth' positive order
      end
  end%Z.

(** The probability that the run settles on [order]. *)
Definition chance (bits : nat) (t : SortRun) (order : list nat) : Q :=
  Qmake (ways bits (height t) t order)
    (Z.to_pos ((2 ^ Z.of_nat bits) ^ Z.of_nat (height t))).

(** The six orders of three elements. *)
Definition orders3 : list (list nat) :=
  [[0; 1; 2]; [0; 2; 1]; [1; 0; 2]; [1; 2; 0]; [2; 0; 1]; [2; 1; 0]]%nat.

(** A sample sort, an insertion sort on three elements: the element at 1
    moves before the one at 0 when the comparator is positive, then the
    element at 2 moves down as long as it is.  It stands for no engine in
    particular (engines differ in the order of the arguments and in the
    comparisons they make); what is stated of the shuffle is stated of
    every run. *)
Definition insertThird (a b c : nat) : SortRun :=
  Compare (Settled [a; b; c]) (Settled [a; b; c])
    (Compare (Settled [a; c; b]) (Settled [a; c; b]) (Settled [c; a; b])).

Definition insertionSort3 : SortRun :=
  Compare (insertThird 0 1 2) (insertThird 0 1 2) (insertThird 1 0 2).

(** A sample engine: it sorts arrays of three elements by the insertion
    sort above and leaves the others as they are. *)
Definition insertionEngine (n : nat) : SortRun :=
  if (n =? 3)%nat then insertionSort3 else Settled (seq 0 n).

(** A sort of two elements by one comparison: they change places when the
    comparator is negative. *)
Definition pairSort : SortRun :=
  Compare (Settled [1; 0]%nat) (Settled [0; 1]%nat) (Settled [0; 1]%nat).

(** The chance of each order under a uniformly distributed permutation of
    [n] elements: one in [n!]. *)
Definition uniformChance (n : nat) : Q := Qmake 1 (Pos.of_nat (fact n)).

(** The sum of [f] over the six orders. *)
Definition sum6 (f : list nat -> Z) : Z :=
  fold_right Z.add 0%Z (map f orders3).

(** ** Undo history ([saveHistory], [performUndo], [performRedo]) *)

Section History.

Context {num : Type}.

Record HistoryStep : Type := mkStep {
  imageData : ImageData num;
  svgPaths : list (Ellipse num)
}.

Definition MAX_HISTORY : Z := 20.

(** The refs the history routines read and write: [drawingCanvas] is the
    context of the drawing canvas, [None] when the canvas or its context is
    missing. *)
Record Studio : Type := mkStudio {
  drawingCanvas : option (Context2D num);
  drawingSvgRef : list (Ellipse num);
  historyRef : list HistoryStep;
  historyStepIndexRef : Z
}.

(** [a.slice(0, e)]. *)
Definition slice0 {A} (a : list A) (e : Z) : list A :=
  let len := Z.of_nat (List.length a) in
  let k := if (e <? 0)%Z then Z.max (len + e) 0 else Z.min e len in
  firstn (Z.to_nat k) a.

(** [a[i]], [None] for [undefined]. *)
Definition item {A} (a : list A) (i : Z) : option A :=
  if (i <? 0)%Z then None else nth_error a (Z.to_nat i).

(** [ctx.getImageData(0, 0, canvas.width, canvas.height)], on a canvas
    that has a width and a height (the one the history starts from). *)
Definition getImageData (c : Context2D num) : ImageData num := raster c.

(** [ctx.clearRect(0, 0, canvas.width, canvas.height)]: the whole layer. *)
Definition clearRect (c : Context2D num) : Context2D num :=
  mkContext (globalCompositeOperation c) (shadowBlur c) (shadowColor c)
    (globalAlpha c) (fillStyle c) [].

(** [ctx.putImageData(data, 0, 0)] with data of the size of the canvas. *)
Definition putImageData (data : ImageData num) (c : Context2D num)
    : Context2D num :=
  mkContext (globalCompositeOperation c) (shadowBlur c) (shadowColor c)
    (globalAlpha c) (fillStyle c) data.

Definition saveHistory (s : Studio) : Studio :=
  match drawingCanvas s with
  | None => s
  | Some c =>
      let history :=
        if (historyStepIndexRef s <? Z.of_nat (List.length (historyRef s)) - 1)%Z
        then slice0 (historyRef s) (historyStepIndexRef s + 1)
        else historyRef s in
      let imageData := getImageData c in
      let svgPaths := drawingSvgRef s in
      let pushed := history ++ [mkStep imageData svgPaths] in
      if (Z.of_nat (List.length pushed) >? MAX_HISTORY)%Z
      then mkStudio (drawingCanvas s) (drawingSvgRef s) (tl pushed)
             (historyStepIndexRef s)
      else mkStudio (drawingCanvas s) (drawingSvgRef s) pushed
             (historyStepIndexRef s + 1)
  end.

(** The body shared by undo and redo once the index has moved to [i]. *)
Definition restore (i : Z) (s : Studio) : Studio :=
  match drawingCanvas s, item (historyRef s) i with
  | Some c, Some step =>
      mkStudio (Some (putImageData (imageData step) (clearRect c)))
        (svgPaths step) (historyRef s) i
  | _, _ => mkStudio (drawingCanvas s) (drawingSvgRef s) (historyRef s) i
  end.

Definition performUndo (s : Studio) : Studio :=
  if (historyStepIndexRef s >? 0)%Z
  then restore (historyStepIndexRef s - 1) s
  else s.

Definition performRedo (s : Studio) : Studio :=
  if (historyStepIndexRef s <? Z.of_nat (List.length (historyRef s)) - 1)%Z
  then restore (historyStepIndexRef s + 1) s
  else s.

(** The refs as the component creates them, with the drawing canvas
    mounted. *)
Definition mounted (c : Context2D num) : Studio :=
  mkStudio (Some c) [] [] (-1).

(** "Initial History Setup" of the canvas effect. *)
Definition initialHistorySetup (s : Studio) : Studio :=
  match drawingCanvas s with
  | Some c =>
      if (List.length (historyRef s) =? 0)%nat
      then mkStudio (drawingCanvas s) (drawingSvgRef s)
             [mkStep (getImageData c) []] 0
      else s
  | None => s
  end.

(** What the user leaves on the drawing layer before a save: its raster
    content and its vector log. *)
Definition Artwork : Type := (ImageData num * list (Ellipse num))%type.

Definition paint (a : Artwork) (s : Studio) : Studio :=
  mkStudio
    (match drawingCanvas s with
     | Some c => Some (putImageData (fst a) c)
     | None => None
     end)
    (snd a) (historyRef s) (historyStepIndexRef s).

(** One [save()] per artwork, each after the layer has been brought to
    that artwork. *)
Definition saves (works : list Artwork) (s : Studio) : Studio :=
  fold_left (fun s a => saveHistory (paint a s)) works s.

Definition undos (n : nat) (s : Studio) : Studio :=
  Nat.iter n performUndo s.

(** The raster content and vector log of the drawing layer. *)
Definition layer (s : Studio) : option Artwork :=
  match drawingCanvas s with
  | Some c => Some (raster c, drawingSvgRef s)
  | None => None
  end.

(** The index is that of an existing step, and the capacity is kept. *)
Definition indexValid (s : Studio) : Prop :=
  (0 <= historyStepIndexRef s < Z.of_nat (List.length (historyRef s)))%Z
  /\ (Z.of_nat (List.length (historyRef s)) <= MAX_HISTORY)%Z.

(** The index is that of the last step. *)
Definition atLatest (s : Studio) : Prop :=
  historyStepIndexRef s = (Z.of_nat (List.length (historyRef s)) - 1)%Z.

(** The steps a user can take on the history. *)
Inductive Action : Type :=
| Save (a : Artwork)
| Undo
| Redo.

Definition act (s : Studio) (a : Action) : Studio :=
  match a with
  | Save w => saveHistory (paint w s)
  | Undo => performUndo s
  | Redo => performRedo s
  end.

End History.

(** ** Sample inputs *)

Section Inputs.

Context {num : Type} {N : Number num}.

Definition sampleAt (x y pressure time : Q) : Point.t num :=
  Point.mk (lit x) (lit y) (lit pressure) (lit time).

(** [FACTORY_DEFAULTS] of [App.tsx] with the fields a stroke or a text
    render reads set anew. *)
Definition settingsWith (size roughness taper roundness hardness spacing : Q)
    (fontStyle : FontStyle) (weightOption : WeightOption) (isEraser : bool)
    : BrushSettings.t num :=
  BrushSettings.mk (lit size) (lit roughness) (lit taper) "#1a1a1a"
    (lit roundness) (lit 85) (lit hardness) (lit spacing) (lit 0) (lit 1.2)
    (lit 0) (lit 150) fontStyle weightOption isEraser.

(** An empty layer with its empty vector log. *)
Definition blankInk : Ink num := mkInk newContext [] 0.

(** A layer with one dot on it, and no vector log. *)
Definition dot : Artwork (num := num) :=
  ([mkFill source_over (lit 1) "#1a1a1a" (lit 0) (lit 10) (lit 10) (lit 5)
      (lit 5) (lit 0)], []).

End Inputs.

(** ** [Math.floor] *)

(** [Math.floor], which the settings generators use, beside the operations
    of [Number]. *)
Class Flooring (num : Type) : Type := {
  Math_floor : num -> num
}.

(** On doubles: integers, zeros, infinities and NaN are returned as they
    are; a fraction [m * 2^e] with [e < 0] goes down to the next
    integer. *)
Definition floor64 (v : float) : float :=
  match Prim2SF v with
  | S754_finite s m e =>
      if (0 <=? e)%Z then v
      else
        let d := (2 ^ (- e))%Z in
        let q := (Zpos m / d)%Z in
        if s
        then PrimFloat.opp
               (Binary64.of_Z (if (Zpos m mod d =? 0)%Z then q else q + 1))
        else Binary64.of_Z q
  | _ => v
  end.

#[export] Instance binary64_Flooring : Flooring float := {
  Math_floor := floor64
}.

(** The greatest integer not above [v]. *)
Definition floorZ (v : R) : Z := (up v - 1)%Z.

#[export] Instance exact_Flooring : Flooring R | 10 := {
  Math_floor := fun v => IZR (floorZ v)
}.

(** ** The settings of the application

    [App] of [src/App.tsx]: [generateRandomSettings] (line 9), the effect
    on [settings, mode] (line 93) and the handlers (lines 109 to 195);
    [generateCreativeSettings] of [src/services/geminiService.ts]
    (line 17).  The handlers are transitions of the state of [App]; what
    they do to [localStorage] is left out. *)

(** The object [generateCreativeSettings] returns: a
    [Partial<BrushSettings>] with these ten keys. *)
Module Creative.
Record t (num : Type) : Type := mk {
  roughness : num;
  taper : num;
  roundness : num;
  angle : num;
  hardness : num;
  spacing : num;
  letterSpacing : num;
  lineHeight : num;
  slant : num;
  size : num
}.
End Creative.

Module Preset.
Record t (num : Type) : Type := mk {
  id : string;
  name : string;
  settings : BrushSettings.t num
}.
End Preset.

(** The state of [App] that its handlers read and write; [randoms] counts
    the calls of [Math.random]. *)
Module App.
Record t (num : Type) : Type := mk {
  settings : BrushSettings.t num;
  lastDrawSettings : BrushSettings.t num;
  mode : AppMode;
  textToRender : string;
  triggerClear : bool;
  presets : list (Preset.t num);
  randoms : nat
}.
End App.

Section Application.

Context {num : Type} {N : Number num} {F : Flooring num}.
Local Open Scope js_scope.

(** The results of [Math.random()], in call order, and the decimal text
    of a number ([Date.now().toString()]). *)
Variable random_source : nat -> num.
Variable Number_toString : num -> string.

(** [generateCreativeSettings(style)], the first call of [Math.random]
    being call [k]; the result comes with the index of the next call. *)
Definition generateCreativeSettings (k : nat) (style : FontStyle)
    : Creative.t num * nat :=
  let r := fun i => random_source (k + i)%nat in
  let base :=
    Creative.mk (r 0%nat * #0.5) (#0.1 + r 1%nat * #0.9)
      (#0.1 + r 2%nat * #0.9) (Math_floor (r 3%nat * #180))
      (#0.2 + r 4%nat * #0.8) (r 5%nat * #0.15)
      (Math_floor ((r 6%nat - #0.2) * #15)) (#1.0 + r 7%nat * #0.8)
      ((r 8%nat - #0.5) * #0.4) (#40 + r 9%nat * #60) in
  match style with
  | BRUSH =>
      (Creative.mk (#0.3 + r 10%nat * #0.6) (#0.5 + r 12%nat * #0.5)
         (Creative.roundness base) (Creative.angle base)
         (#0.1 + r 13%nat * #0.6) (Creative.spacing base)
         (Creative.letterSpacing base) (Creative.lineHeight base)
         (Creative.slant base) (#80 + r 11%nat * #70),
       (k + 14)%nat)
  | PEN =>
      (Creative.mk (r 10%nat * #0.2) (Creative.taper base)
         (#0.8 + r 12%nat * #0.2) (Creative.angle base)
         (Creative.hardness base) (Creative.spacing base)
         (Creative.letterSpacing base) (Creative.lineHeight base)
         (Creative.slant base) (#30 + r 11%nat * #40),
       (k + 13)%nat)
  | HAND =>
      (Creative.mk (Creative.roughness base) (Creative.taper base)
         (Creative.roundness base) (Creative.angle base)
         (Creative.hardness base) (Creative.spacing base)
         (Creative.letterSpacing base) (Creative.lineHeight base)
         ((r 10%nat - #0.5) * #0.6) (#50 + r 11%nat * #50),
       (k + 12)%nat)
  end.

(** [{ ...prev, ...newParams }]. *)
Definition withCreative (prev : BrushSettings.t num) (newParams : Creative.t num)
    : BrushSettings.t num :=
  BrushSettings.mk (Creative.size newParams) (Creative.roughness newParams)
    (Creative.taper newParams) (BrushSettings.color prev)
    (Creative.roundness newParams) (Creative.angle newParams)
    (Creative.hardness newParams) (Creative.spacing newParams)
    (Creative.letterSpacing newParams) (Creative.lineHeight newParams)
    (Creative.slant newParams) (BrushSettings.fontSize prev)
    (BrushSettings.fontStyle prev) (BrushSettings.weightOption prev)
    (BrushSettings.isEraser prev).

(** [generateRandomSettings(current)] of [App]. *)
Definition generateRandomSettings (k : nat) (current : BrushSettings.t num)
    : BrushSettings.t num * nat :=
  let r := fun i => random_source (k + i)%nat in
  (BrushSettings.mk (Math_floor (r 0%nat * #50) + #10) (r 1%nat * #0.8)
     (r 2%nat * #0.9 + #0.1) (BrushSettings.color current)
     (r 3%nat * #0.9 + #0.1) (Math_floor (r 4%nat * #180))
     (r 5%nat * #0.9 + #0.1) (r 6%nat * #0.2)
     (BrushSettings.letterSpacing current) (BrushSettings.lineHeight current)
     (BrushSettings.slant current) (BrushSettings.fontSize current)
     (BrushSettings.fontStyle current) (BrushSettings.weightOption current)
     (BrushSettings.isEraser current),
   (k + 7)%nat).

(** [FACTORY_DEFAULTS]; it has no [isEraser] key, which reads as false. *)
Definition FACTORY_DEFAULTS : BrushSettings.t num :=
  BrushSettings.mk #10 #0.45 #0.7 "#1a1a1a" #0.22 #85 #0.8 #0 #0 #1.2 #0
    #150 PEN NORMAL false.

(** The state of the first render. *)
Definition initialApp : App.t num :=
  App.mk FACTORY_DEFAULTS FACTORY_DEFAULTS DRAW EmptyString false [] 0.

Definition setSettings (s : BrushSettings.t num) (a : App.t num) : App.t num :=
  App.mk s (App.lastDrawSettings a) (App.mode a) (App.textToRender a)
    (App.triggerClear a) (App.presets a) (App.randoms a).

Definition setLastDrawSettings (s : BrushSettings.t num) (a : App.t num)
    : App.t num :=
  App.mk (App.settings a) s (App.mode a) (App.textToRender a)
    (App.triggerClear a) (App.presets a) (App.randoms a).

Definition setPresets (ps : list (Preset.t num)) (a : App.t num) : App.t num :=
  App.mk (App.settings a) (App.lastDrawSettings a) (App.mode a)
    (App.textToRender a) (App.triggerClear a) ps (App.randoms a).

Definition handleLoadPreset (preset : Preset.t num) (a : App.t num)
    : App.t num :=
  let loadedSettings := Preset.settings preset in
  let a' := setSettings loadedSettings a in
  if isGENERATE (App.mode a) then a'
  else setLastDrawSettings loadedSettings a'.

Definition handleDeletePreset (id : string) (a : App.t num) : App.t num :=
  setPresets
    (filter (fun p => negb (String.eqb (Preset.id p) id)) (App.presets a)) a.

(** [handleSavePreset(name)], [now] being what [Date.now()] answers. *)
Definition handleSavePreset (now : num) (name : string) (a : App.t num)
    : App.t num :=
  let newPreset := Preset.mk (Number_toString now) name (App.settings a) in
  setPresets (newPreset :: App.presets a) a.

Definition handleRandomize (a : App.t num) : App.t num :=
  let (newSettings, k) := generateRandomSettings (App.randoms a) (App.settings a) in
  App.mk newSettings (App.lastDrawSettings a) (App.mode a)
    (App.textToRender a) (App.triggerClear a) (App.presets a) k.

Definition handleReset (a : App.t num) : App.t num :=
  setSettings FACTORY_DEFAULTS a.

Definition handleManualText (text : string) (a : App.t num) : App.t num :=
  App.mk (App.settings a) (App.lastDrawSettings a) (App.mode a) text
    (App.triggerClear a) (App.presets a) (App.randoms a).

Definition handleMagicSettings (a : App.t num) : App.t num :=
  if isGENERATE (App.mode a) then
    let (newParams, k) :=
      generateCreativeSettings (App.randoms a)
        (BrushSettings.fontStyle (App.settings a)) in
    App.mk (withCreative (App.settings a) newParams) (App.lastDrawSettings a)
      (App.mode a) (App.textToRender a) (App.triggerClear a) (App.presets a)
      k
  else a.

(** The settings [handleModeChange] installs on entering GENERATE mode. *)
Definition textDefaults (prev : BrushSettings.t num) : BrushSettings.t num :=
  BrushSettings.mk (BrushSettings.size prev) (BrushSettings.roughness prev)
    (BrushSettings.taper prev) "#1a1a1a" (BrushSettings.roundness prev)
    (BrushSettings.angle prev) (BrushSettings.hardness prev)
    (BrushSettings.spacing prev) #0 #1.2 #0 #150 PEN NORMAL
    (BrushSettings.isEraser prev).

Definition handleModeChange (newMode : AppMode) (a : App.t num) : App.t num :=
  match newMode with
  | GENERATE =>
      App.mk (textDefaults (App.settings a)) (App.lastDrawSettings a) GENERATE
        EmptyString true (App.presets a) (App.randoms a)
  | DRAW =>
      App.mk (App.lastDrawSettings a) (App.lastDrawSettings a) DRAW
        (App.textToRender a) (App.triggerClear a) (App.presets a)
        (App.randoms a)
  end.

(** [onClearComplete]. *)
Definition handleClearComplete (a : App.t num) : App.t num :=
  App.mk (App.settings a) (App.lastDrawSettings a) (App.mode a)
    (App.textToRender a) false (App.presets a) (App.randoms a).

(** The effect on [settings, mode]: in DRAW mode the settings are kept for
    the return from GENERATE mode. *)
Definition syncLastDrawSettings (a : App.t num) : App.t num :=
  if isGENERATE (App.mode a) then a
  else setLastDrawSettings (App.settings a) a.

(** What the user and the panel can do to [App]: [SettingsChange] is
    [onSettingsChange], the way of every control of the panel. *)
Inductive AppAction : Type :=
| SettingsChange (newSettings : BrushSettings.t num)
| LoadPreset (preset : Preset.t num)
| DeletePreset (id : string)
| SavePreset (now : num) (name : string)
| Randomize
| Reset
| ManualText (text : string)
| Magic
| ModeChange (newMode : AppMode)
| ClearComplete.

(** A handler, then the effect of the render that follows.  The effect
    runs when the settings or the mode have changed; once it has run, as
    it has after the first render, running it where they have not changed
    changes nothing. *)
Definition appStep (a : App.t num) (act : AppAction) : App.t num :=
  syncLastDrawSettings
    match act with
    | SettingsChange s => setSettings s a
    | LoadPreset p => handleLoadPreset p a
    | DeletePreset id => handleDeletePreset id a
    | SavePreset now name => handleSavePreset now name a
    | Randomize => handleRandomize a
    | Reset => handleReset a
    | ManualText text => handleManualText text a
    | Magic => handleMagicSettings a
    | ModeChange m => handleModeChange m a
    | ClearComplete => handleClearComplete a
    end.

(** The actions one after the other. *)
Definition appSteps (acts : list AppAction) (a : App.t num) : App.t num :=
  fold_left appStep acts a.

(** The return to DRAW mode. *)
Definition entersDraw (act : AppAction) : bool :=
  match act with
  | ModeChange DRAW => true
  | _ => false
  end.

(** The deletion of the presets with a given id. *)
Definition deletes (id : string) (act : AppAction) : bool :=
  match act with
  | DeletePreset id' => String.eqb id' id
  | _ => false
  end.

End Application.

(** ** The canvas component: pointers, clearing, text

    [CalligraphyCanvas] of [src/services/geminiService.ts]: its refs, the
    helpers [getDistance] and [getCenter] (lines 124 to 136),
    [getCanvasPos] (line 305), the pointer handlers (lines 586 to 706),
    [renderGenerativeText] (line 709) and the effects of [triggerClear]
    and of [textToRender] (lines 873 to 914).  A handler is a transition
    of the refs; it reads the props of its render.  A canvas that is there
    has its 2d context.  The capture of the pointer, the resizing of the
    canvases and the guides are left out. *)

(** [PointerEvent.pointerType]; [pen] stands for every value that is
    neither ['mouse'] nor ['touch']. *)
Inductive PointerType : Set := mouse | touch | pen.

(** What the handlers read of a pointer event or of one of its coalesced
    events. *)
Module Contact.
Record t (num : Type) : Type := mk {
  clientX : num;
  clientY : num;
  pressure : num;
  pointerType : PointerType
}.
End Contact.

(** [getCoalescedEvents] is [None] where the browser has no such method. *)
Module PointerEvent.
Record t (num : Type) : Type := mk {
  pointerId : Z;
  contact : Contact.t num;
  getCoalescedEvents : option (list (Contact.t num))
}.
End PointerEvent.

(** An object [{x, y}]. *)
Module XY.
Record t (num : Type) : Type := mk {
  x : num;
  y : num
}.
End XY.

Module ViewState.
Record t (num : Type) : Type := mk {
  scale : num;
  offset : XY.t num
}.
End ViewState.

(** [canvas.getBoundingClientRect()], with [canvas.width] and
    [canvas.height], for the drawing canvas. *)
Module CanvasBox.
Record t (num : Type) : Type := mk {
  left : num;
  top : num;
  rectWidth : num;
  rectHeight : num;
  width : num;
  height : num
}.
End CanvasBox.

(** The props of a render and what the page answers at an event: the
    geometry of the drawing canvas and [window.devicePixelRatio]. *)
Module Props.
Record t (num : Type) : Type := mk {
  settings : BrushSettings.t num;
  mode : AppMode;
  viewState : ViewState.t num;
  box : CanvasBox.t num;
  devicePixelRatio : num
}.
End Props.

(** The buffer canvas as [renderGenerativeText] scans it: its width, its
    height and the bytes of its image data once the text is drawn there
    (four a pixel, row after row). *)
Module Buffer.
Record t : Type := mk {
  width : nat;
  height : nat;
  data : list Z
}.
End Buffer.

(** A text animation waiting for its next frame: what the closure
    [animateText] holds. *)
Module Animation.
Record t (num : Type) : Type := mk {
  mode : AppMode;
  settings : BrushSettings.t num;
  particles : list (Particle (num := num));
  particleIndex : nat
}.
End Animation.

(** The refs of the component.  [activePointers] is the [Map] in
    insertion order; [pendingFrame] is the animation frame requested and
    not cancelled; [randoms] and [clock] count the calls of [Math.random]
    and [Date.now]. *)
Module CalligraphyCanvas.
Record t (num : Type) : Type := mk {
  activePointers : list (Z * PointerEvent.t num);
  isDrawingRef : bool;
  lastPointRef : option (Point.t num);
  isGesturingRef : bool;
  lastDistRef : num;
  lastCenterRef : option (XY.t num);
  studio : Studio (num := num);
  textCanvas : option (Context2D num);
  textSvgRef : list (Ellipse num);
  pendingFrame : option (Animation.t num);
  randoms : nat;
  clock : nat
}.
End CalligraphyCanvas.

(** ** Numbers as array indices *)

(** [toIndex v] is the index [i] when [v] is the whole number [i >= 0],
    and nothing for every other number. *)
Class Indexing (num : Type) : Type := {
  toIndex : num -> option nat
}.

Definition index64 (v : float) : option nat :=
  match Prim2SF v with
  | S754_zero _ => Some 0%nat
  | S754_finite false m e =>
      if (0 <=? e)%Z then Some (Z.to_nat (Zpos m * 2 ^ e))
      else if (Zpos m mod 2 ^ (- e) =? 0)%Z
      then Some (Z.to_nat (Zpos m / 2 ^ (- e)))
      else None
  | _ => None
  end.

#[export] Instance binary64_Indexing : Indexing float := {
  toIndex := index64
}.

Definition indexR (v : R) : option nat :=
  if Req_dec_T v (IZR (floorZ v))
  then (if Rle_dec 0 v then Some (Z.to_nat (floorZ v)) else None)
  else None.

#[export] Instance exact_Indexing : Indexing R | 10 := {
  toIndex := indexR
}.

(** ** The scan of the text buffer *)

Section Scan.

Context {num : Type} {N : Number num}.
Context {F : Flooring num} {Ix : Indexing num}.
Local Open Scope js_scope.
Local Open Scope bool_scope.

(** [window.devicePixelRatio || 1]. *)
Definition pixelRatio (devicePixelRatio : num) : num :=
  if (devicePixelRatio === #0) || negb (devicePixelRatio === devicePixelRatio)
  then #1
  else devicePixelRatio.

Definition scanStep (settings : BrushSettings.t num) : num :=
  match BrushSettings.weightOption settings with
  | THIN => #1
  | NORMAL => #2
  | BOLD => #2
  end.

Definition effectiveStep (dpr : num) (settings : BrushSettings.t num) : num :=
  Math_max #1 (Math_floor (scanStep settings * dpr)).

(** The values of the counter of [for (let x = 0; x < bound; x += step)],
    [None] when the loop never ends.  The step is [effectiveStep]: a whole
    number, which the counter then is too, or NaN or Infinity, which end
    the loop after its first round; [step] is [toIndex] of it.  The
    counters stay below the size of the buffer, where whole numbers are
    exact, and are kept as [nat]. *)
Definition strides (step : option nat) (bound : nat) : option (list nat) :=
  match step with
  | Some O => if (bound =? 0)%nat then Some [] else None
  | Some k => Some (map (fun i => (i * k)%nat) (seq 0 ((bound + k - 1) / k)))
  | None => Some (if (bound =? 0)%nat then [] else [0%nat])
  end.

(** [data[(y * buffer.width + x) * 4 + 3] > 50]. *)
Definition opaque (b : Buffer.t) (x y : nat) : bool :=
  match nth_error (Buffer.data b) ((y * Buffer.width b + x) * 4 + 3) with
  | Some alpha => (50 <? alpha)%Z
  | None => false
  end.

(** The two loops of the scan: the particles in the order they are
    pushed, [None] when a loop never ends. *)
Definition scanBuffer (dpr : num) (settings : BrushSettings.t num)
    (b : Buffer.t) : option (list (Particle (num := num))) :=
  let step := toIndex (effectiveStep dpr settings) in
  match strides step (Buffer.height b), strides step (Buffer.width b) with
  | Some ys, Some xs =>
      Some (flat_map
              (fun y =>
                 flat_map
                   (fun x =>
                      if opaque b x y
                      then [mkParticle (of_nat x / dpr) (of_nat y / dpr)]
                      else [])
                   xs)
              ys)
  | _, _ => None
  end.

End Scan.

(** *** The helpers of the gestures

    The component's own [getDistance] and [getCenter], on [{x, y}]. *)

Module Gesture.
Section Helpers.

Context {num : Type} {N : Number num}.
Local Open Scope js_scope.

Definition getDistance (p1 p2 : XY.t num) : num :=
  let dx := XY.x p2 - XY.x p1 in
  let dy := XY.y p2 - XY.y p1 in
  Math_sqrt (dx * dx + dy * dy).

Definition getCenter (p1 p2 : XY.t num) : XY.t num :=
  XY.mk ((XY.x p1 + XY.x p2) / #2) ((XY.y p1 + XY.y p2) / #2).

End Helpers.
End Gesture.

Section Component.

Context {num : Type} {N : Number num} {M : MathLib num}.
Context {F : Flooring num} {Ix : Indexing num}.
Local Open Scope js_scope.
Local Open Scope bool_scope.

Variable random_source : nat -> num.

(** The answers of [Date.now()], in call order. *)
Variable clock_source : nat -> num.

(** The sort of the engine, see [shuffle]. *)
Variable engine : nat -> SortRun.

Let Canvas : Type := CalligraphyCanvas.t num.

(** *** The [Map] of the active pointers *)

(** [map.set(key, value)]: a key that is there keeps its place. *)
Fixpoint Map_set {V} (key : Z) (value : V) (m : list (Z * V)) : list (Z * V) :=
  match m with
  | [] => [(key, value)]
  | (k, v) :: rest =>
      if (k =? key)%Z then (k, value) :: rest
      else (k, v) :: Map_set key value rest
  end.

(** [map.delete(key)]. *)
Definition Map_delete {V} (key : Z) (m : list (Z * V)) : list (Z * V) :=
  filter (fun kv => negb (fst kv =? key)%Z) m.

(** [Array.from(map.values())]. *)
Definition Map_values {V} (m : list (Z * V)) : list V := map snd m.

Definition clientXY (e : PointerEvent.t num) : XY.t num :=
  XY.mk (Contact.clientX (PointerEvent.contact e))
    (Contact.clientY (PointerEvent.contact e)).

(** *** [getCanvasPos] *)

Definition getCanvasPos (canvas : option (CanvasBox.t num))
    (clientX clientY : num) : XY.t num :=
  match canvas with
  | None => XY.mk #0 #0
  | Some b =>
      if (CanvasBox.rectWidth b === #0) || (CanvasBox.rectHeight b === #0)
      then XY.mk #0 #0
      else
        let scaleX := CanvasBox.width b / CanvasBox.rectWidth b in
        let scaleY := CanvasBox.height b / CanvasBox.rectHeight b in
        XY.mk ((clientX - CanvasBox.left b) * scaleX)
          ((clientY - CanvasBox.top b) * scaleY)
  end.

(** *** Reading and writing the refs *)

(** The drawing canvas as the handlers find it: its box when the canvas is
    there. *)
Definition drawingBox (p : Props.t num) (c : Canvas)
    : option (CanvasBox.t num) :=
  match drawingCanvas (CalligraphyCanvas.studio c) with
  | Some _ => Some (Props.box p)
  | None => None
  end.

(** The drawing layer as [drawStroke] finds it. *)
Definition drawingInk (c : Canvas) : option (Ink num) :=
  match drawingCanvas (CalligraphyCanvas.studio c) with
  | Some ctx =>
      Some (mkInk ctx (drawingSvgRef (CalligraphyCanvas.studio c))
              (CalligraphyCanvas.randoms c))
  | None => None
  end.

(** The refs once [drawStroke] has worked on the drawing layer. *)
Definition withDrawing (drawing : option (Ink num)) (c : Canvas) : Canvas :=
  match drawing with
  | Some ink =>
      CalligraphyCanvas.mk (CalligraphyCanvas.activePointers c)
        (CalligraphyCanvas.isDrawingRef c) (CalligraphyCanvas.lastPointRef c)
        (CalligraphyCanvas.isGesturingRef c) (CalligraphyCanvas.lastDistRef c)
        (CalligraphyCanvas.lastCenterRef c)
        (mkStudio (Some (ctx ink)) (svg ink)
           (historyRef (CalligraphyCanvas.studio c))
           (historyStepIndexRef (CalligraphyCanvas.studio c)))
        (CalligraphyCanvas.textCanvas c) (CalligraphyCanvas.textSvgRef c)
        (CalligraphyCanvas.pendingFrame c) (randoms ink)
        (CalligraphyCanvas.clock c)
  | None => c
  end.

Definition withPointers (m : list (Z * PointerEvent.t num)) (c : Canvas)
    : Canvas :=
  CalligraphyCanvas.mk m
    (CalligraphyCanvas.isDrawingRef c) (CalligraphyCanvas.lastPointRef c)
    (CalligraphyCanvas.isGesturingRef c) (CalligraphyCanvas.lastDistRef c)
    (CalligraphyCanvas.lastCenterRef c) (CalligraphyCanvas.studio c)
    (CalligraphyCanvas.textCanvas c) (CalligraphyCanvas.textSvgRef c)
    (CalligraphyCanvas.pendingFrame c) (CalligraphyCanvas.randoms c)
    (CalligraphyCanvas.clock c).

(** [isDrawingRef.current = d; lastPointRef.current = p]. *)
Definition withStroke (d : bool) (p : option (Point.t num)) (c : Canvas)
    : Canvas :=
  CalligraphyCanvas.mk (CalligraphyCanvas.activePointers c) d p
    (CalligraphyCanvas.isGesturingRef c) (CalligraphyCanvas.lastDistRef c)
    (CalligraphyCanvas.lastCenterRef c) (CalligraphyCanvas.studio c)
    (CalligraphyCanvas.textCanvas c) (CalligraphyCanvas.textSvgRef c)
    (CalligraphyCanvas.pendingFrame c) (CalligraphyCanvas.randoms c)
    (CalligraphyCanvas.clock c).

(** [isGesturingRef.current = g; lastDistRef.current = d;
    lastCenterRef.current = ctr]. *)
Definition withGesture (g : bool) (d : num) (ctr : option (XY.t num))
    (c : Canvas) : Canvas :=
  CalligraphyCanvas.mk (CalligraphyCanvas.activePointers c)
    (CalligraphyCanvas.isDrawingRef c) (CalligraphyCanvas.lastPointRef c)
    g d ctr (CalligraphyCanvas.studio c)
    (CalligraphyCanvas.textCanvas c) (CalligraphyCanvas.textSvgRef c)
    (CalligraphyCanvas.pendingFrame c) (CalligraphyCanvas.randoms c)
    (CalligraphyCanvas.clock c).

Definition withStudio (s : Studio (num := num)) (c : Canvas) : Canvas :=
  CalligraphyCanvas.mk (CalligraphyCanvas.activePointers c)
    (CalligraphyCanvas.isDrawingRef c) (CalligraphyCanvas.lastPointRef c)
    (CalligraphyCanvas.isGesturingRef c) (CalligraphyCanvas.lastDistRef c)
    (CalligraphyCanvas.lastCenterRef c) s
    (CalligraphyCanvas.textCanvas c) (CalligraphyCanvas.textSvgRef c)
    (CalligraphyCanvas.pendingFrame c) (CalligraphyCanvas.randoms c)
    (CalligraphyCanvas.clock c).

(** [Date.now()]. *)
Definition Date_now (c : Canvas) : num * Canvas :=
  (clock_source (CalligraphyCanvas.clock c),
   CalligraphyCanvas.mk (CalligraphyCanvas.activePointers c)
     (CalligraphyCanvas.isDrawingRef c) (CalligraphyCanvas.lastPointRef c)
     (CalligraphyCanvas.isGesturingRef c) (CalligraphyCanvas.lastDistRef c)
     (CalligraphyCanvas.lastCenterRef c) (CalligraphyCanvas.studio c)
     (CalligraphyCanvas.textCanvas c) (CalligraphyCanvas.textSvgRef c)
     (CalligraphyCanvas.pendingFrame c) (CalligraphyCanvas.randoms c)
     (S (CalligraphyCanvas.clock c))).

(** The refs of the first render, with the canvases mounted and the
    history set up. *)
Definition mountedCanvas (drawing text : Context2D num) : Canvas :=
  CalligraphyCanvas.mk [] false None false #0 None
    (initialHistorySetup (mounted drawing)) (Some text) [] None 0 0.

(** *** The pointer handlers *)

(** The pressure of a sample: a mouse or a touch that reports 0 counts
    for 0.5. *)
Definition samplePressure (ev : Contact.t num) : num :=
  let pressure := Contact.pressure ev in
  let pressure :=
    match Contact.pointerType ev with
    | mouse => if pressure === #0 then #0.5 else pressure
    | _ => pressure
    end in
  match Contact.pointerType ev with
  | touch => if pressure === #0 then #0.5 else pressure
  | _ => pressure
  end.

Definition handlePointerDown (p : Props.t num) (e : PointerEvent.t num)
    (c : Canvas) : Canvas :=
  let c := withPointers
             (Map_set (PointerEvent.pointerId e) e
                (CalligraphyCanvas.activePointers c)) c in
  match Map_values (CalligraphyCanvas.activePointers c) with
  | [p0; p1] =>
      let c := withStroke false None c in
      withGesture true (Gesture.getDistance (clientXY p0) (clientXY p1))
        (Some (Gesture.getCenter (clientXY p0) (clientXY p1))) c
  | [_] =>
      match Props.mode p with
      | DRAW =>
          let pos := getCanvasPos (drawingBox p c)
                       (Contact.clientX (PointerEvent.contact e))
                       (Contact.clientY (PointerEvent.contact e)) in
          let pressure := samplePressure (PointerEvent.contact e) in
          let (now, c) := Date_now c in
          withStroke true
            (Some (Point.mk (XY.x pos) (XY.y pos) pressure now)) c
      | GENERATE => c
      end
  | _ => c
  end.

(** The loop of [handlePointerMove] over the coalesced events. *)
Fixpoint drawEvents (p : Props.t num) (events : list (Contact.t num))
    (c : Canvas) : Outcome Canvas :=
  match events with
  | [] => Returns c
  | ev :: rest =>
      let pos := getCanvasPos (drawingBox p c) (Contact.clientX ev)
                   (Contact.clientY ev) in
      let pressure := samplePressure ev in
      let (now, c) := Date_now c in
      let currentPoint := Point.mk (XY.x pos) (XY.y pos) pressure now in
      match CalligraphyCanvas.lastPointRef c with
      | Some _ =>
          match drawStroke random_source (Props.settings p)
                  (CalligraphyCanvas.lastPointRef c) currentPoint
                  (drawingInk c) with
          | Returns drawing =>
              drawEvents p rest
                (withStroke (CalligraphyCanvas.isDrawingRef c)
                   (Some currentPoint) (withDrawing drawing c))
          | Throws drawing => Throws (withDrawing drawing c)
          | Diverges => Diverges
          end
      | None =>
          drawEvents p rest
            (withStroke (CalligraphyCanvas.isDrawingRef c)
               (Some currentPoint) c)
      end
  end.

(** [handlePointerMove]; the view state is the one [onViewStateChange]
    was called with, or the one of the props. *)
Definition handlePointerMove (p : Props.t num) (e : PointerEvent.t num)
    (c : Canvas) : Outcome (Canvas * ViewState.t num) :=
  let c := withPointers
             (Map_set (PointerEvent.pointerId e) e
                (CalligraphyCanvas.activePointers c)) c in
  let viewState := Props.viewState p in
  match CalligraphyCanvas.isGesturingRef c,
        Map_values (CalligraphyCanvas.activePointers c) with
  | true, [p0; p1] =>
      let newDist := Gesture.getDistance (clientXY p0) (clientXY p1) in
      let newCenter := Gesture.getCenter (clientXY p0) (clientXY p1) in
      let viewState' :=
        match CalligraphyCanvas.lastDistRef c >? #0,
              CalligraphyCanvas.lastCenterRef c with
        | true, Some lastCenter =>
            let scaleFactor := newDist / CalligraphyCanvas.lastDistRef c in
            let newScale :=
              Math_min
                (Math_max #0.5 (ViewState.scale viewState * scaleFactor))
                #5.0 in
            let dx := XY.x newCenter - XY.x lastCenter in
            let dy := XY.y newCenter - XY.y lastCenter in
            ViewState.mk newScale
              (XY.mk (XY.x (ViewState.offset viewState) + dx)
                 (XY.y (ViewState.offset viewState) + dy))
        | _, _ => viewState
        end in
      Returns (withGesture true newDist (Some newCenter) c, viewState')
  | _, pointers =>
      match Props.mode p, CalligraphyCanvas.isDrawingRef c, pointers with
      | DRAW, true, [_] =>
          let events :=
            match PointerEvent.getCoalescedEvents e with
            | Some evs => evs
            | None => [PointerEvent.contact e]
            end in
          match drawEvents p events c with
          | Returns c' => Returns (c', viewState)
          | Throws c' => Throws (c', viewState)
          | Diverges => Diverges
          end
      | _, _, _ => Returns (c, viewState)
      end
  end.

Definition handlePointerUp (e : PointerEvent.t num) (c : Canvas) : Canvas :=
  let c := withPointers
             (Map_delete (PointerEvent.pointerId e)
                (CalligraphyCanvas.activePointers c)) c in
  let size := List.length (CalligraphyCanvas.activePointers c) in
  let c :=
    if (size <? 2)%nat
    then withGesture false (CalligraphyCanvas.lastDistRef c)
           (CalligraphyCanvas.lastCenterRef c) c
    else c in
  if (size =? 0)%nat && CalligraphyCanvas.isDrawingRef c
  then withStudio (saveHistory (CalligraphyCanvas.studio c))
         (withStroke false None c)
  else c.

(** *** The effect of [triggerClear] *)

Definition withText (canvas : option (Context2D num))
    (log : list (Ellipse num)) (frame : option (Animation.t num))
    (c : Canvas) : Canvas :=
  CalligraphyCanvas.mk (CalligraphyCanvas.activePointers c)
    (CalligraphyCanvas.isDrawingRef c) (CalligraphyCanvas.lastPointRef c)
    (CalligraphyCanvas.isGesturingRef c) (CalligraphyCanvas.lastDistRef c)
    (CalligraphyCanvas.lastCenterRef c) (CalligraphyCanvas.studio c)
    canvas log frame (CalligraphyCanvas.randoms c)
    (CalligraphyCanvas.clock c).

(** The body of the effect when [triggerClear] is set: both layers and
    their logs are emptied, the blank drawing layer is saved, the pending
    frame is cancelled. *)
Definition clearEffect (c : Canvas) : Canvas :=
  let c :=
    match CalligraphyCanvas.textCanvas c with
    | Some t =>
        withText (Some (clearRect t)) [] (CalligraphyCanvas.pendingFrame c) c
    | None => c
    end in
  let c :=
    match drawingCanvas (CalligraphyCanvas.studio c) with
    | Some d =>
        withStudio
          (saveHistory
             (mkStudio (Some (clearRect d)) []
                (historyRef (CalligraphyCanvas.studio c))
                (historyStepIndexRef (CalligraphyCanvas.studio c)))) c
    | None => c
    end in
  withText (CalligraphyCanvas.textCanvas c) (CalligraphyCanvas.textSvgRef c)
    None c.

(** *** The text layer: [renderGenerativeText] and its frames *)

(** The text layer as [animateText] finds it. *)
Definition textInk (t : Context2D num) (c : Canvas) : Ink num :=
  mkInk t (CalligraphyCanvas.textSvgRef c) (CalligraphyCanvas.randoms c).

(** The refs once the text layer has been worked on, [frame] being the
    animation frame that is requested then. *)
Definition withTextInk (ink : Ink num) (frame : option (Animation.t num))
    (c : Canvas) : Canvas :=
  CalligraphyCanvas.mk (CalligraphyCanvas.activePointers c)
    (CalligraphyCanvas.isDrawingRef c) (CalligraphyCanvas.lastPointRef c)
    (CalligraphyCanvas.isGesturingRef c) (CalligraphyCanvas.lastDistRef c)
    (CalligraphyCanvas.lastCenterRef c) (CalligraphyCanvas.studio c)
    (Some (ctx ink)) (svg ink) frame (randoms ink)
    (CalligraphyCanvas.clock c).

(** [renderGenerativeText(text)].  Between the tests of the buffer and
    the scan the function draws the text into the buffer canvas, which is
    the platform's work: [buffer] is the buffer with the text drawn,
    [None] when the buffer canvas or its context is missing. *)
Definition renderGenerativeText (p : Props.t num) (buffer : option Buffer.t)
    (c : Canvas) : Outcome Canvas :=
  match CalligraphyCanvas.textCanvas c with
  | None => Returns c
  | Some t =>
      let dpr := pixelRatio (Props.devicePixelRatio p) in
      let c := withText (Some (clearRect t)) [] None c in
      match buffer with
      | None => Returns c
      | Some b =>
          if (Buffer.width b =? 0)%nat || (Buffer.height b =? 0)%nat
          then Returns c
          else
            match scanBuffer dpr (Props.settings p) b with
            | None => Diverges
            | Some particles =>
                match shuffle random_source engine particles
                        (textInk (clearRect t) c) with
                | (Normal shuffled, ink) =>
                    Returns
                      (withTextInk ink
                         (Some (Animation.mk (Props.mode p) (Props.settings p)
                                  shuffled 0)) c)
                | (IndexSizeError, ink) => Throws (withTextInk ink None c)
                end
            end
      end
  end.

(** The animation frame, when one is requested: one call of
    [animateText]. *)
Definition animationFrame (c : Canvas) : Outcome Canvas :=
  match CalligraphyCanvas.pendingFrame c, CalligraphyCanvas.textCanvas c with
  | Some a, Some t =>
      match animateText random_source (Animation.mode a)
              (Animation.settings a) (Animation.particles a)
              (Animation.particleIndex a) (textInk t c) with
      | (Normal (particleIndex, again), ink) =>
          Returns
            (withTextInk ink
               (if again
                then Some (Animation.mk (Animation.mode a)
                             (Animation.settings a) (Animation.particles a)
                             particleIndex)
                else None) c)
      | (IndexSizeError, ink) => Throws (withTextInk ink None c)
      end
  | _, _ => Returns c
  end.

(** The effect of [mode, textToRender, settings]. *)
Definition textUpdateEffect (p : Props.t num) (textToRender : string)
    (buffer : option Buffer.t) (c : Canvas) : Outcome Canvas :=
  if isGENERATE (Props.mode p) && negb (String.eqb textToRender EmptyString)
  then renderGenerativeText p buffer c
  else if String.eqb textToRender EmptyString
  then
    match CalligraphyCanvas.textCanvas c with
    | Some t => Returns (withText (Some (clearRect t)) [] None c)
    | None =>
        Returns
          (withText (CalligraphyCanvas.textCanvas c)
             (CalligraphyCanvas.textSvgRef c) None c)
    end
  else Returns c.

(** *** The events of a session *)

Inductive Event : Type :=
| PointerDown (p : Props.t num) (e : PointerEvent.t num)
| PointerMove (p : Props.t num) (e : PointerEvent.t num)
| PointerUp (e : PointerEvent.t num)
| Clear
| UndoPressed
| RedoPressed
| TextUpdate (p : Props.t num) (textToRender : string)
    (buffer : option Buffer.t)
| AnimationFrame.

(** One event; an [IndexSizeError] ends the handler and leaves the refs as
    they are then. *)
Definition handle (ev : Event) (c : Canvas) : Outcome Canvas :=
  match ev with
  | PointerDown p e => Returns (handlePointerDown p e c)
  | PointerMove p e =>
      match handlePointerMove p e c with
      | Returns (c', _) => Returns c'
      | Throws (c', _) => Throws c'
      | Diverges => Diverges
      end
  | PointerUp e => Returns (handlePointerUp e c)
  | Clear => Returns (clearEffect c)
  | UndoPressed =>
      Returns (withStudio (performUndo (CalligraphyCanvas.studio c)) c)
  | RedoPressed =>
      Returns (withStudio (performRedo (CalligraphyCanvas.studio c)) c)
  | TextUpdate p textToRender buffer =>
      textUpdateEffect p textToRender buffer c
  | AnimationFrame => animationFrame c
  end.

(** The events one after the other; the page goes on after a handler that
    raised. *)
Fixpoint handleAll (events : list Event) (c : Canvas) : Outcome Canvas :=
  match events with
  | [] => Returns c
  | ev :: rest =>
      match handle ev c with
      | Returns c' | Throws c' => handleAll rest c'
      | Diverges => Diverges
      end
  end.

End Component.

(** ** Notions the statements about the component use *)

Section Notions.

Context {num : Type}.

(** The layer shows the step of the index. *)
Definition showsIndex (s : Studio (num := num)) : Prop :=
  exists st,
    item (historyRef s) (historyStepIndexRef s) = Some st
    /\ layer s = Some (imageData st, svgPaths st).

(** Undo or redo. *)
Definition isMove (a : Action (num := num)) : bool :=
  match a with
  | Save _ => false
  | Undo | Redo => true
  end.

(** A pointer move or a pointer up (also as cancel or leave). *)
Definition isMoveOrUp (ev : Event (num := num)) : bool :=
  match ev with
  | PointerMove _ _ | PointerUp _ => true
  | _ => false
  end.

(** The events of pointer moves, each with the props of its render. *)
Definition pointerMoves (l : list (Props.t num * PointerEvent.t num))
    : list (Event (num := num)) :=
  map (fun pe => PointerMove (fst pe) (snd pe)) l.

(** Refs that the loop over the coalesced events leaves alone; the
    drawing canvas stays where it is. *)
Definition sameSession (c c' : CalligraphyCanvas.t num) : Prop :=
  CalligraphyCanvas.activePointers c' = CalligraphyCanvas.activePointers c
  /\ CalligraphyCanvas.isDrawingRef c' = CalligraphyCanvas.isDrawingRef c
  /\ CalligraphyCanvas.isGesturingRef c' = CalligraphyCanvas.isGesturingRef c
  /\ historyRef (CalligraphyCanvas.studio c')
     = historyRef (CalligraphyCanvas.studio c)
  /\ historyStepIndexRef (CalligraphyCanvas.studio c')
     = historyStepIndexRef (CalligraphyCanvas.studio c)
  /\ (drawingCanvas (CalligraphyCanvas.studio c) <> None ->
      drawingCanvas (CalligraphyCanvas.studio c') <> None)
  /\ CalligraphyCanvas.textCanvas c' = CalligraphyCanvas.textCanvas c
  /\ CalligraphyCanvas.textSvgRef c' = CalligraphyCanvas.textSvgRef c
  /\ CalligraphyCanvas.pendingFrame c' = CalligraphyCanvas.pendingFrame c.

End Notions.

(** Settings with which no stamp has a negative radius and the step between
    two stamps is above zero: a size that is not negative, a taper of at
    most 1, a roundness and a spacing that are not negative. *)
Definition safeSettings (s : BrushSettings.t R) : Prop :=
  (0 <= BrushSettings.size s /\ BrushSettings.taper s <= 1
   /\ 0 <= BrushSettings.roundness s /\ 0 <= BrushSettings.spacing s)%R.


(** The largest double below 1, the upper end of what [Math.random] may
    return. *)
Definition largestDraw : float := 0x1.fffffffffffffp-1%float.

(** ** Sample inputs for the component *)

Section Samples.

Context {num : Type} {N : Number num}.

(** A pen at a place of the page, with a pressure. *)
Definition samplePointer (id : Z) (x y pressure : Q) : PointerEvent.t num :=
  PointerEvent.mk id (Contact.mk (lit x) (lit y) (lit pressure) pen) None.

(** A render with the view at rest and a canvas of 800 by 600 that fills
    its rectangle, at a device pixel ratio of 1. *)
Definition sampleProps (mode : AppMode) (settings : BrushSettings.t num)
    : Props.t num :=
  Props.mk settings mode (ViewState.mk (lit 1) (XY.mk (lit 0) (lit 0)))
    (CanvasBox.mk (lit 0) (lit 0) (lit 800) (lit 600) (lit 800) (lit 600))
    (lit 1).

(** A buffer of two by two pixels, the first and the last opaque. *)
Definition sampleBuffer : Buffer.t :=
  Buffer.mk 2 2 [0; 0; 0; 255; 0; 0; 0; 0; 0; 0; 0; 0; 0; 0; 0; 255]%Z.

(** An engine that leaves every array as it is. *)
Definition identityEngine (n : nat) : SortRun := Settled (seq 0 n).

End Samples.

(** * Properties *)

(** ** The comparison law *)

Lemma SFcompare_antisym (a b : spec_float) :
  SFcompare b a = option_map CompOpp (SFcompare a b).
Proof.
  destruct a as [sa | sa | | sa ma ea], b as [sb | sb | | sb mb eb];
    simpl; try reflexivity;
    try (destruct sa; reflexivity); try (destruct sb; reflexivity);
    try (destruct sa, sb; reflexivity).
  destruct sa, sb; simpl; try reflexivity;
    rewrite (Z.compare_antisym ea eb);
    destruct (ea ?= eb)%Z; simpl; try reflexivity;
    rewrite (Pos.compare_cont_antisym ma mb Eq); simpl;
    destruct (Pos.compare_cont Eq ma mb); reflexivity.
Qed.

Lemma binary64_lawful : LawfulOrder float.
Proof.
  constructor. intros a b. simpl.
  rewrite FloatAxioms.leb_spec, FloatAxioms.ltb_spec. unfold SFleb, SFltb.
  rewrite (SFcompare_antisym (Prim2SF a) (Prim2SF b)).
  destruct (SFcompare (Prim2SF a) (Prim2SF b)) as [[ | | ] | ];
    simpl; congruence.
Qed.

Lemma exact_lawful : LawfulOrder R.
Proof.
  constructor. intros a b. simpl. unfold Exact.leb, Exact.ltb.
  destruct (Rle_dec a b), (Rlt_dec b a); try reflexivity; try discriminate.
  lra.
Qed.

Section BrushFacts.

Context {num : Type} {N : Number num} {M : MathLib num}.
Variable random_source : nat -> num.
Local Open Scope js_scope.
Local Open Scope bool_scope.

Lemma bind_eq {A B} (c : Draw A) (k : A -> Draw B) (s : Ink num) :
  bind c k s
  = match fst (c s) with
    | Normal a => k a (snd (c s))
    | IndexSizeError => (IndexSizeError, snd (c s))
    end.
Proof. unfold bind. destruct (c s) as [[a |] s']; reflexivity. Qed.

(** A routine that ends normally hands over to the next one. *)
Lemma bind_normal {A B} (c : Draw A) (k : A -> Draw B) (s s' : Ink num)
    (a : A) :
  c s = (Normal a, s') -> bind c k s = k a s'.
Proof. intro H. unfold bind. rewrite H. reflexivity. Qed.

(** One that raises ends the whole. *)
Lemma bind_throw {A B} (c : Draw A) (k : A -> Draw B) (s s' : Ink num) :
  c s = (IndexSizeError, s') -> bind c k s = (IndexSizeError, s').
Proof. intro H. unfold bind. rewrite H. reflexivity. Qed.

Lemma bind_ret {A B} (a : A) (k : A -> Draw B) (s : Ink num) :
  bind (ret a) k s = k a s.
Proof. reflexivity. Qed.

Lemma bind_random {B} (k : num -> Draw B) (s : Ink num) :
  bind (Math_random random_source) k s
  = k (random_source (randoms s)) (mkInk (ctx s) (svg s) (S (randoms s))).
Proof. reflexivity. Qed.

Lemma bind_onContext {B} (f : Context2D num -> Context2D num)
    (k : unit -> Draw B) (s : Ink num) :
  bind (onContext f) k s = k tt (mkInk (f (ctx s)) (svg s) (randoms s)).
Proof. reflexivity. Qed.

Lemma bind_ret_tt (c : Draw unit) (s : Ink num) :
  bind c (fun _ => ret tt) s = c s.
Proof. unfold bind, ret. destruct (c s) as [[[] |] s']; reflexivity. Qed.

Lemma if_same {A} (b : bool) (a : A) : (if b then a else a) = a.
Proof. destruct b; reflexivity. Qed.

(** *** Hairline mode *)

(** Claim C1, as the code has it: for every pair of samples and every
    configuration with size <= 1, the stroke engine skips the brush
    physics (velocity 0, no glow, no dry-brush skip and no splatter: a
    round is one stamp) and computes the distance by the Euclidean formula;
    the stamp size is the configured size, and 0.5 only when the size
    is 0. *)
Theorem hairline_geometry `{!LawfulOrder num} :
  forall (lastPoint currentPoint : Point.t num) (settings : BrushSettings.t num),
    (BrushSettings.size settings <=? #1) = true ->
    strokeGeometry lastPoint currentPoint settings
    = mkGeometry
        (if BrushSettings.size settings === #0 then #0.5
         else BrushSettings.size settings)
        #0
        (Math_sqrt (Math_pow2 (Point.x currentPoint - Point.x lastPoint)
                    + Math_pow2 (Point.y currentPoint - Point.y lastPoint)))
    /\ (forall targetSize, blurAmount settings targetSize = #0)
    /\ (forall g steps i ink,
          strokeStamp random_source lastPoint currentPoint settings g steps i ink
          = drawAndRecordEllipse
              (stampX lastPoint currentPoint steps i)
              (stampY lastPoint currentPoint steps i)
              (targetSize g / #2)
              ((targetSize g / #2) * BrushSettings.roundness settings)
              (brushAngleRad settings) (BrushSettings.color settings) #1.0
              (BrushSettings.isEraser settings)
              (snd (Math_random random_source ink))).
Proof.
  intros lastPoint currentPoint settings Hsize.
  pose proof (leb_not_gtb _ _ Hsize) as Hgt.
  repeat split.
  - unfold strokeGeometry. rewrite Hgt. reflexivity.
  - intro ts. unfold blurAmount. rewrite Hsize, orb_true_r. reflexivity.
  - intros g steps i ink. unfold strokeStamp.
    rewrite bind_random, Hgt. cbn [andb].
    rewrite if_same. apply bind_ret_tt.
Qed.

(** *** The stamp size *)

(** The formula of the stamp size, on every implementation of numbers. *)
Lemma physics_size (lastPoint currentPoint : Point.t num)
    (settings : BrushSettings.t num) :
  let physics := calculateBrushPhysics lastPoint currentPoint settings in
  let maxSize := BrushSettings.size settings * #1.5 in
  let p := pressureInput currentPoint (Physics.velocity physics) in
  Physics.size physics
  = maxSize * (#1 - (#1 - p) * BrushSettings.taper settings).
Proof. reflexivity. Qed.

(** *** The velocity guard *)

(** Claim C7, as the code has it: when the elapsed time is <= 0 (or is not
    above 0 for any other reason) the velocity is exactly 0; otherwise it
    is the distance divided by the elapsed time, a divisor above 0.  The
    guard is on the divisor only: an overflowing distance still gives an
    infinite velocity, see [velocity_overflows]. *)
Theorem velocity_guard `{!LawfulOrder num} :
  forall (lastPoint currentPoint : Point.t num) (settings : BrushSettings.t num),
    let timeDiff := Point.time currentPoint - Point.time lastPoint in
    let v := Physics.velocity
               (calculateBrushPhysics lastPoint currentPoint settings) in
    ((timeDiff <=? #0) = true -> v = #0)
    /\ ((timeDiff >? #0) = false -> v = #0)
    /\ ((timeDiff >? #0) = true ->
        v = getDistance lastPoint currentPoint / timeDiff).
Proof.
  intros lastPoint currentPoint settings timeDiff v.
  subst v timeDiff. unfold calculateBrushPhysics. cbn [Physics.velocity].
  repeat split; intro H.
  - rewrite (leb_not_gtb _ _ H). reflexivity.
  - rewrite H. reflexivity.
  - rewrite H. reflexivity.
Qed.

End BrushFacts.

Section StrokeFacts.

Context {num : Type} {N : Number num} {M : MathLib num}.
Variable random_source : nat -> num.
Local Open Scope js_scope.
Local Open Scope bool_scope.

(** An invariant of the rounds carries over the whole loop; [Q] is what
    holds when a round raises. *)
Lemma for_invariant (P : nat -> Ink num -> Prop) (Q : Ink num -> Prop)
    (body : nat -> Draw unit) :
  forall n from s,
    P from s ->
    (forall i s', (from <= i < from + n)%nat -> P i s' ->
       match body i s' with
       | (Normal _, s'') => P (S i) s''
       | (IndexSizeError, s'') => Q s''
       end) ->
    match for_ n from body s with
    | (Normal _, s') => P (from + n)%nat s'
    | (IndexSizeError, s') => Q s'
    end.
Proof.
  induction n as [| n IH]; intros from s H0 Hstep; simpl.
  - rewrite Nat.add_0_r. exact H0.
  - unfold bind.
    assert (H1 := Hstep from s ltac:(lia) H0).
    destruct (body from s) as [[[] |] s1]; [| exact H1].
    replace (from + S n)%nat with (S from + n)%nat by lia.
    apply IH; [exact H1 |].
    intros i s' Hi. apply Hstep. lia.
Qed.

(** What a call of [drawAndRecordEllipse] does. *)
Lemma drawAndRecordEllipse_run (x y rx ry rotation : num) (color : string)
    (opacity : num) (isEraser : bool) (s : Ink num) :
  drawAndRecordEllipse x y rx ry rotation color opacity isEraser s
  = if finiteEllipse x y rx ry then
      let c := set_fillStyle color (set_globalAlpha opacity (ctx s)) in
      let log :=
        if isEraser then svg s
        else svg s ++ [mkEllipse x y rx ry ((rotation * #180) / Math_PI)
                         color opacity] in
      if isFinite rotation then
        if (rx <? #0) || (ry <? #0)
        then (IndexSizeError, mkInk c (svg s) (randoms s))
        else (Normal tt, mkInk (fillPath x y rx ry rotation c) log (randoms s))
      else (Normal tt, mkInk c log (randoms s))
    else (Normal tt, s).
Proof.
  unfold drawAndRecordEllipse, finiteEllipse, ellipse_fill.
  destruct (isFinite x), (isFinite y), (isFinite rx), (isFinite ry);
    try reflexivity.
  cbn [negb orb andb]. rewrite !bind_onContext.
  destruct (isFinite rotation); cbn [negb andb];
    [destruct ((rx <? #0) || (ry <? #0)) |];
    destruct isEraser; reflexivity.
Qed.

(** What a stamp leaves alone. *)
Lemma drawAndRecordEllipse_frame (x y rx ry rotation : num) (color : string)
    (opacity : num) (isEraser : bool) (s : Ink num) :
  let s' := snd (drawAndRecordEllipse x y rx ry rotation color opacity
                   isEraser s) in
  globalCompositeOperation (ctx s') = globalCompositeOperation (ctx s)
  /\ shadowBlur (ctx s') = shadowBlur (ctx s)
  /\ randoms s' = randoms s.
Proof.
  cbv zeta. rewrite drawAndRecordEllipse_run.
  destruct (finiteEllipse x y rx ry), (isFinite rotation),
    ((rx <? #0) || (ry <? #0)); repeat split; reflexivity.
Qed.

(** A stamp raises only on a negative radius. *)
Lemma drawAndRecordEllipse_raises (x y rx ry rotation : num) (color : string)
    (opacity : num) (isEraser : bool) (s : Ink num) :
  fst (drawAndRecordEllipse x y rx ry rotation color opacity isEraser s)
  = IndexSizeError ->
  (rx <? #0) || (ry <? #0) = true.
Proof.
  rewrite drawAndRecordEllipse_run.
  destruct (finiteEllipse x y rx ry), (isFinite rotation),
    ((rx <? #0) || (ry <? #0)); cbn [fst]; congruence.
Qed.

Lemma filter_seq_S {A} (f : nat -> bool) (g : nat -> A) (from n : nat) :
  map g (filter f (seq from (S n)))
  = map g (filter f (seq from n))
    ++ (if f (from + n)%nat then [g (from + n)%nat] else []).
Proof.
  rewrite seq_S, filter_app, map_app. simpl.
  destruct (f (from + n)%nat); reflexivity.
Qed.

(** A stroke with neither dry-brush skips nor splatter, and whose radii
    are not negative: it returns, and this is what it paints, what it
    records and how many random numbers it draws. *)
Lemma plain_stroke (lastPoint currentPoint : Point.t num)
    (settings : BrushSettings.t num) (rounds : nat) (ink : Ink num) :
  let g := strokeGeometry lastPoint currentPoint settings in
  let steps := strokeSteps lastPoint currentPoint settings in
  let op := if BrushSettings.isEraser settings then destination_out
            else source_over in
  let blur := if BrushSettings.isEraser settings then #0
              else blurAmount settings (targetSize g) in
  (forall k,
     (BrushSettings.size settings >? #1)
     && (random_source k <? (velocity g * BrushSettings.roughness settings) / #5)
     && negb (BrushSettings.isEraser settings) = false) ->
  (BrushSettings.size settings >? #1)
  && ((#1.0 <? #0.9) || (BrushSettings.roughness settings >? #0.2))
  && negb (BrushSettings.isEraser settings) = false ->
  negativeRadius settings g = false ->
  exists ink',
    strokeOnto random_source lastPoint currentPoint settings rounds ink
    = (Normal tt, ink')
    /\ raster (ctx ink')
       = raster (ctx ink)
         ++ strokeFills op blur lastPoint currentPoint settings rounds
    /\ svg ink'
       = svg ink
         ++ (if BrushSettings.isEraser settings then []
             else strokeEllipses lastPoint currentPoint settings rounds)
    /\ randoms ink' = (randoms ink + rounds)%nat.
Proof.
  intros g steps op blur Hskip Hsplat Hneg.
  unfold strokeFills, strokeEllipses. fold g. fold steps. cbv zeta.
  unfold strokeOnto. fold g. fold steps. cbv zeta.
  rewrite bind_onContext, bind_eq.
  set (s0 := snd (_ (mkInk _ (svg ink) (randoms ink)))).
  assert (H0 : globalCompositeOperation (ctx s0) = op
               /\ shadowBlur (ctx s0) = blur
               /\ raster (ctx s0) = raster (ctx ink)
               /\ svg s0 = svg ink /\ randoms s0 = randoms ink).
  { subst s0 op blur. destruct (BrushSettings.isEraser settings);
      repeat split; reflexivity. }
  replace (fst _) with (Normal (A := unit) tt)
    by (destruct (BrushSettings.isEraser settings); reflexivity).
  clearbody s0.
  pose (P := fun (i : nat) (s : Ink num) =>
    globalCompositeOperation (ctx s) = op
    /\ shadowBlur (ctx s) = blur
    /\ raster (ctx s)
       = raster (ctx ink)
         ++ map (fun i => stampFill settings g op blur
                            (stampX lastPoint currentPoint steps i)
                            (stampY lastPoint currentPoint steps i))
              (paintedRounds lastPoint currentPoint settings i)
    /\ svg s
       = svg ink
         ++ (if BrushSettings.isEraser settings then []
             else map (fun i => stampEllipse settings g
                                  (stampX lastPoint currentPoint steps i)
                                  (stampY lastPoint currentPoint steps i))
                    (recordedRounds lastPoint currentPoint settings i))
    /\ randoms s = (randoms ink + i)%nat).
  assert (HP : match for_ rounds 0
                         (strokeStamp random_source lastPoint currentPoint
                            settings g steps) s0 with
               | (Normal _, s') => P (0 + rounds)%nat s'
               | (IndexSizeError, _) => False
               end).
  { apply for_invariant.
  - destruct H0 as (Hop & Hblur & Hr & Hs & Hn). unfold P, paintedRounds,
      recordedRounds.
    simpl. rewrite app_nil_r, Nat.add_0_r, if_same, app_nil_r. tauto.
  - intros i s _ HPi. unfold P, paintedRounds, recordedRounds in HPi |- *.
    fold g in HPi |- *. fold steps in HPi |- *.
    destruct HPi as (Hop & Hblur & Hr & Hs & Hn).
    unfold strokeStamp. rewrite bind_random.
    rewrite Hskip. cbv zeta.
    rewrite !(if_same (BrushSettings.size settings <=? #1) #1.0).
    rewrite Hsplat, bind_ret_tt.
    rewrite drawAndRecordEllipse_run. cbn [ctx svg randoms].
    rewrite !filter_seq_S. cbn [Nat.add].
    unfold negativeRadius in Hneg. fold g in Hneg. rewrite Hneg.
    match goal with
    | |- context [if paints ?x ?y ?rx ?ry ?rot then _ else _] =>
        replace (paints x y rx ry rot)
          with (finiteEllipse x y rx ry && isFinite rot)
          by (unfold paints; rewrite Hneg; symmetry; apply andb_true_r)
    end.
    destruct (finiteEllipse _ _ _ _); cbn [andb];
      [destruct (isFinite (brushAngleRad settings)) |];
      cbv zeta;
      cbn [ctx svg randoms raster fillPath set_fillStyle set_globalAlpha
           globalCompositeOperation shadowBlur globalAlpha fillStyle].
    * rewrite Hop, Hblur, Hr, Hs, Hn. unfold stampFill, stampEllipse.
      repeat split; try reflexivity.
      -- rewrite <- app_assoc. reflexivity.
      -- destruct (BrushSettings.isEraser settings);
           [reflexivity | rewrite <- app_assoc; reflexivity].
      -- lia.
    * rewrite app_nil_r, Hs, Hn. unfold stampEllipse.
      repeat split; try assumption.
      -- destruct (BrushSettings.isEraser settings);
           [reflexivity | rewrite <- app_assoc; reflexivity].
      -- lia.
    * rewrite !app_nil_r. repeat split; try assumption. lia. }
  rewrite bind_eq.
  destruct (for_ rounds 0 _ s0) as [[[] |] s1]; cbn [fst snd];
    [| contradiction].
  rewrite bind_onContext. eexists. split; [reflexivity |].
  cbn [ctx svg randoms raster set_shadowBlur set_globalCompositeOperation].
  destruct HP as (_ & _ & Hr & Hs & Hn). tauto.
Qed.

(** *** The context after a stroke *)

(** [drawStroke] past its guard: the assignments at its head, the rounds,
    and the two assignments at its end when no round raises. *)
Lemma strokeOnto_run (lastPoint currentPoint : Point.t num)
    (settings : BrushSettings.t num) (rounds : nat) (ink : Ink num) :
  let g := strokeGeometry lastPoint currentPoint settings in
  let steps := strokeSteps lastPoint currentPoint settings in
  strokeOnto random_source lastPoint currentPoint settings rounds ink
  = match for_ rounds 0
            (strokeStamp random_source lastPoint currentPoint settings g steps)
            (strokeStart settings g ink) with
    | (Normal _, s) =>
        (Normal tt,
         mkInk (set_globalCompositeOperation source_over
                  (set_shadowBlur #0 (ctx s))) (svg s) (randoms s))
    | (IndexSizeError, s) => (IndexSizeError, s)
    end.
Proof.
  cbv zeta. unfold strokeOnto, strokeStart. cbv zeta.
  rewrite bind_onContext.
  destruct (BrushSettings.isEraser settings); cbn [negb];
    rewrite ?bind_eq; cbn [fst snd onContext ctx svg randoms];
    rewrite ?bind_onContext; cbn [fst snd onContext ctx svg randoms];
    destruct (for_ rounds 0 _ _) as [[[] |] s]; reflexivity.
Qed.

Lemma strokeOnto_resets (lastPoint currentPoint : Point.t num)
    (settings : BrushSettings.t num) (rounds : nat) (ink ink' : Ink num) :
  strokeOnto random_source lastPoint currentPoint settings rounds ink
  = (Normal tt, ink') ->
  globalCompositeOperation (ctx ink') = source_over
  /\ shadowBlur (ctx ink') = #0.
Proof.
  rewrite strokeOnto_run.
  destruct (for_ rounds 0 _ _) as [[[] |] s]; intro H; [| discriminate H].
  injection H as <-. split; reflexivity.
Qed.

(** A stroke starts from the composite operation and the blur of its own
    settings, whatever the context was left with. *)
Lemma strokeStart_context (settings : BrushSettings.t num) (g : Geometry)
    (ink : Ink num) :
  globalCompositeOperation (ctx (strokeStart settings g ink))
  = (if BrushSettings.isEraser settings then destination_out
     else source_over)
  /\ shadowBlur (ctx (strokeStart settings g ink))
     = (if BrushSettings.isEraser settings then #0
        else blurAmount settings (targetSize g)).
Proof.
  unfold strokeStart.
  destruct (BrushSettings.isEraser settings); split; reflexivity.
Qed.

(** A stroke is left on an [IndexSizeError] only when a radius of its
    stamps is negative. *)
Lemma strokeOnto_raises (lastPoint currentPoint : Point.t num)
    (settings : BrushSettings.t num) (rounds : nat) (ink ink' : Ink num) :
  let g := strokeGeometry lastPoint currentPoint settings in
  strokeOnto random_source lastPoint currentPoint settings rounds ink
  = (IndexSizeError, ink') ->
  negativeRadius settings g || negativeSplatter settings g = true.
Proof.
  intro g. rewrite strokeOnto_run. fold g.
  set (steps := strokeSteps lastPoint currentPoint settings).
  assert (HP : match for_ rounds 0
                         (strokeStamp random_source lastPoint currentPoint
                            settings g steps)
                         (strokeStart settings g ink) with
               | (Normal _, _) => True
               | (IndexSizeError, _) =>
                   negativeRadius settings g || negativeSplatter settings g
                   = true
               end).
  { apply (@for_invariant (fun _ _ => True)); [exact I |].
    intros i s _ _. unfold strokeStamp. rewrite bind_random.
    destruct (_ && _ && negb _); [exact I |].
    cbv zeta. rewrite bind_eq.
    destruct (drawAndRecordEllipse _ _ _ _ _ _ _ _ _) as [[[] |] s1] eqn:Hmain;
      cbn [fst snd].
    - destruct (_ && _ && negb _); [| exact I].
      unfold splatter.
      apply (@for_invariant (fun _ _ => True)); [exact I |].
      intros j s2 _ _. rewrite !bind_random.
      match goal with
      | |- context [drawAndRecordEllipse ?a ?b ?c ?d ?e ?f ?g ?h ?k] =>
          destruct (drawAndRecordEllipse a b c d e f g h k)
            as [[[] |] s3] eqn:Hsp
      end; [exact I |].
      apply (f_equal fst) in Hsp. apply drawAndRecordEllipse_raises in Hsp.
      unfold negativeSplatter. rewrite Hsp. apply orb_true_r.
    - apply (f_equal fst) in Hmain. apply drawAndRecordEllipse_raises in Hmain.
      unfold negativeRadius. rewrite Hmain. reflexivity. }
  destruct (for_ rounds 0 _ _) as [[[] |] s]; intro H;
    [discriminate H | exact HP].
Qed.

(** *** Eraser strokes *)

(** A round of an eraser stroke is one stamp. *)
Lemma eraser_round (lastPoint currentPoint : Point.t num)
    (settings : BrushSettings.t num) (g : Geometry) (steps : num) (i : nat)
    (s : Ink num) :
  BrushSettings.isEraser settings = true ->
  strokeStamp random_source lastPoint currentPoint settings g steps i s
  = drawAndRecordEllipse
      (stampX lastPoint currentPoint steps i)
      (stampY lastPoint currentPoint steps i)
      (targetSize g / #2)
      ((targetSize g / #2) * BrushSettings.roundness settings)
      (brushAngleRad settings) (BrushSettings.color settings) #1.0 true
      (snd (Math_random random_source s)).
Proof.
  intro He. unfold strokeStamp. rewrite bind_random, He.
  cbn [negb]. rewrite !andb_false_r. cbv zeta.
  rewrite if_same. apply bind_ret_tt.
Qed.

(** With a negative radius no round reaches the raster. *)
Lemma paintedRounds_negative (lastPoint currentPoint : Point.t num)
    (settings : BrushSettings.t num) (rounds : nat) :
  negativeRadius settings (strokeGeometry lastPoint currentPoint settings)
  = true ->
  paintedRounds lastPoint currentPoint settings rounds = [].
Proof.
  intro Hneg. unfold paintedRounds, paints. cbv zeta.
  unfold negativeRadius in Hneg. rewrite Hneg. cbn [negb].
  induction (seq 0 rounds) as [| i l IH]; [reflexivity |].
  cbn [filter]. rewrite andb_false_r. exact IH.
Qed.

(** Whether it returns or is left on an [IndexSizeError], an eraser stroke
    paints the stamps that reach the raster under [destination-out] and
    leaves the vector log alone. *)
Lemma eraser_stroke (lastPoint currentPoint : Point.t num)
    (settings : BrushSettings.t num) (rounds : nat) (ink : Ink num) :
  BrushSettings.isEraser settings = true ->
  let ink' := snd (strokeOnto random_source lastPoint currentPoint settings
                     rounds ink) in
  raster (ctx ink')
  = raster (ctx ink)
    ++ strokeFills destination_out #0 lastPoint currentPoint settings rounds
  /\ svg ink' = svg ink.
Proof.
  intros He ink'. subst ink'.
  set (g := strokeGeometry lastPoint currentPoint settings).
  destruct (negativeRadius settings g) eqn:Hneg.
  - unfold strokeFills. cbv zeta.
    rewrite (paintedRounds_negative _ _ _ _ Hneg). cbn [map].
    rewrite app_nil_r, strokeOnto_run. fold g.
    set (steps := strokeSteps lastPoint currentPoint settings).
    pose (P := fun (_ : nat) (s : Ink num) =>
                 raster (ctx s) = raster (ctx ink) /\ svg s = svg ink).
    assert (HP : match for_ rounds 0
                           (strokeStamp random_source lastPoint currentPoint
                              settings g steps)
                           (strokeStart settings g ink) with
                 | (Normal _, s) => P (0 + rounds)%nat s
                 | (IndexSizeError, s) => P 0%nat s
                 end).
    { apply for_invariant.
      - unfold P, strokeStart. rewrite He. split; reflexivity.
      - intros i s _ (Hr & Hs). rewrite eraser_round by exact He.
        rewrite drawAndRecordEllipse_run.
        unfold negativeRadius in Hneg. fold g in Hneg. rewrite Hneg.
        unfold P.
        destruct (finiteEllipse _ _ _ _);
          [destruct (isFinite (brushAngleRad settings)) |];
          cbv zeta; cbn [snd ctx svg raster Math_random set_fillStyle
                         set_globalAlpha];
          split; assumption. }
    destruct (for_ rounds 0 _ _) as [[[] |] s]; exact HP.
  - destruct (plain_stroke lastPoint currentPoint settings rounds ink)
      as (ink' & Hrun & Hr & Hs & _).
    + intro k. rewrite He. cbn [negb]. apply andb_false_r.
    + rewrite He. cbn [negb]. apply andb_false_r.
    + exact Hneg.
    + rewrite Hrun. cbn [snd]. rewrite He in Hr, Hs.
      rewrite app_nil_r in Hs. split; assumption.
Qed.

Lemma strokeFills_op (op : CompositeOp) (blur : num)
    (lastPoint currentPoint : Point.t num) (settings : BrushSettings.t num)
    (rounds : nat) :
  Forall (fun f => fill_op f = op)
    (strokeFills op blur lastPoint currentPoint settings rounds).
Proof.
  unfold strokeFills. cbv zeta. apply Forall_forall. intros f Hf.
  apply in_map_iff in Hf. destruct Hf as (i & <- & _). reflexivity.
Qed.

Lemma eraserFills_op (moves : list (Move (num := num))) :
  Forall (fun f => fill_op f = destination_out) (eraserFills moves).
Proof.
  induction moves as [| [[settings lastPoint] currentPoint] rest IH]; simpl.
  - constructor.
  - apply Forall_app. split; [| exact IH].
    destruct (tripCount _); [apply strokeFills_op | constructor].
Qed.

(** A move whose loop ends hands the layer over to the next move, as it
    returned or as the [IndexSizeError] left it. *)
Lemma session_cons (settings : BrushSettings.t num)
    (lastPoint currentPoint : Point.t num) (rest : list (Move (num := num)))
    (ink : Ink num) (rounds : nat) :
  tripCount (strokeSteps lastPoint currentPoint settings) = Some rounds ->
  session random_source ((settings, lastPoint, currentPoint) :: rest)
    (Some ink)
  = session random_source rest
      (Some (snd (strokeOnto random_source lastPoint currentPoint settings
                    rounds ink))).
Proof.
  intro Hrounds. cbn [session drawStroke]. rewrite Hrounds.
  destruct (strokeOnto _ _ _ _ _ _) as [[[] |] ink']; reflexivity.
Qed.

(** Claim C8: in a session of eraser moves, every stamp that reaches the
    raster is painted under [destination-out], and none is appended to
    the vector log, so the vector export gains no ellipse from the
    session.  (A session goes on after a move that is left on an
    [IndexSizeError]; it has no end when the loop of a move has none.) *)
Theorem eraser_session_raster_only :
  forall (moves : list (Move (num := num))) (ink : Ink num)
         (textSvg : list (Ellipse num)),
    Forall (fun m => BrushSettings.isEraser (fst (fst m)) = true) moves ->
    match session random_source moves (Some ink) with
    | Returns out =>
        exists ink',
          out = Some ink'
          /\ raster (ctx ink') = raster (ctx ink) ++ eraserFills moves
          /\ Forall (fun f => fill_op f = destination_out) (eraserFills moves)
          /\ svg ink' = svg ink
          /\ svgContent textSvg (svg ink') = svgContent textSvg (svg ink)
    | Throws _ => False
    | Diverges =>
        exists settings lastPoint currentPoint,
          In (settings, lastPoint, currentPoint) moves
          /\ tripCount (strokeSteps lastPoint currentPoint settings) = None
    end.
Proof.
  intros moves ink textSvg Hall. revert ink.
  induction Hall as [| [[settings lastPoint] currentPoint] rest He Hrest IH];
    intro ink.
  - simpl. exists ink. rewrite app_nil_r.
    repeat split; try reflexivity. constructor.
  - simpl in He.
    destruct (tripCount (strokeSteps lastPoint currentPoint settings))
      as [rounds |] eqn:Hrounds.
    + rewrite (session_cons _ _ _ _ _ Hrounds).
      destruct (eraser_stroke lastPoint currentPoint settings rounds ink He)
        as (Hr & Hs).
      specialize (IH (snd (strokeOnto random_source lastPoint currentPoint
                             settings rounds ink))).
      destruct (session random_source rest _) as [out | out |].
      * destruct IH as (ink' & -> & Hr' & _ & Hs' & _).
        exists ink'. cbn [eraserFills]. rewrite Hrounds.
        repeat split.
        -- rewrite Hr', Hr, app_assoc. reflexivity.
        -- apply Forall_app. split;
             [apply strokeFills_op | apply eraserFills_op].
        -- rewrite Hs', Hs. reflexivity.
        -- rewrite Hs', Hs. reflexivity.
      * exact IH.
      * destruct IH as (st & lp & cp & Hin & Hnone).
        exists st, lp, cp. split; [right; exact Hin | exact Hnone].
    + cbn [session drawStroke]. rewrite Hrounds.
      exists settings, lastPoint, currentPoint.
      split; [left; reflexivity | exact Hrounds].
Qed.

(** *** The context after [drawStroke] *)

(** Claim C10: a call of [drawStroke] that gets past its guard returns
    with [globalCompositeOperation] at [source-over] and [shadowBlur] at 0,
    eraser or not; a call stopped by the guard leaves the context as it
    was, so a context that was reset stays reset.  The call returns unless
    a radius of its stamps is negative, on which the canvas raises, or the
    loop bound is beyond the reach of the counter. *)
Theorem drawStroke_resets_context :
  forall (settings : BrushSettings.t num) (lastPointRef : option (Point.t num))
         (currentPoint : Point.t num) (ink : Ink num),
    match drawStroke random_source settings lastPointRef currentPoint
            (Some ink) with
    | Returns out =>
        exists ink',
          out = Some ink'
          /\ (lastPointRef = None -> ink' = ink)
          /\ (lastPointRef <> None
              \/ (globalCompositeOperation (ctx ink) = source_over
                  /\ shadowBlur (ctx ink) = #0) ->
              globalCompositeOperation (ctx ink') = source_over
              /\ shadowBlur (ctx ink') = #0)
    | Throws _ =>
        exists lastPoint,
          lastPointRef = Some lastPoint
          /\ let g := strokeGeometry lastPoint currentPoint settings in
             negativeRadius settings g || negativeSplatter settings g = true
    | Diverges =>
        exists lastPoint,
          lastPointRef = Some lastPoint
          /\ tripCount (strokeSteps lastPoint currentPoint settings) = None
    end.
Proof.
  intros settings [lastPoint |] currentPoint ink; cbn [drawStroke].
  - destruct (tripCount (strokeSteps lastPoint currentPoint settings))
      as [rounds |] eqn:Hrounds.
    + destruct (strokeOnto random_source lastPoint currentPoint settings
                  rounds ink) as [[[] |] ink'] eqn:Hrun.
      * exists ink'. split; [reflexivity |]. split; [discriminate |].
        intros _. exact (strokeOnto_resets _ _ _ _ _ Hrun).
      * exists lastPoint. split; [reflexivity |].
        exact (strokeOnto_raises _ _ _ _ _ Hrun).
    + exists lastPoint. split; [reflexivity | exact Hrounds].
  - exists ink. split; [reflexivity |]. split; [reflexivity |].
    intros [Habs | Hclean]; [congruence | exact Hclean].
Qed.

End StrokeFacts.

Section ParticleFacts.

Context {num : Type} {N : Number num}.
Variable random_source : nat -> num.
Local Open Scope js_scope.
Local Open Scope bool_scope.

Lemma isGENERATE_iff (mode : AppMode) : isGENERATE mode = true <-> mode = GENERATE.
Proof. destruct mode; simpl; split; congruence. Qed.

Lemma isBRUSH_iff (f : FontStyle) : isBRUSH f = true <-> f = BRUSH.
Proof. destruct f; simpl; split; congruence. Qed.

(** The drop test never raises; it draws a random number only in
    GENERATE mode and BRUSH style. *)
Lemma dropTest_run (mode : AppMode) (settings : BrushSettings.t num)
    (ink : Ink num) :
  dropTest random_source mode settings ink
  = if isGENERATE mode && isBRUSH (BrushSettings.fontStyle settings)
    then (Normal (random_source (randoms ink) <? #0.1),
          mkInk (ctx ink) (svg ink) (S (randoms ink)))
    else (Normal false, ink).
Proof.
  unfold dropTest.
  destruct (isGENERATE mode && isBRUSH (BrushSettings.fontStyle settings));
    reflexivity.
Qed.

Lemma dropTest_true (mode : AppMode) (settings : BrushSettings.t num)
    (ink : Ink num) :
  fst (dropTest random_source mode settings ink) = Normal true
  <-> mode = GENERATE
      /\ BrushSettings.fontStyle settings = BRUSH
      /\ (random_source (randoms ink) <? #0.1) = true.
Proof.
  rewrite dropTest_run.
  destruct (isGENERATE mode) eqn:Hm,
    (isBRUSH (BrushSettings.fontStyle settings)) eqn:Hf; cbn [andb fst].
  - apply isGENERATE_iff in Hm. apply isBRUSH_iff in Hf.
    split; [intro H; injection H as H; tauto |].
    intros (_ & _ & ->). reflexivity.
  - split; [discriminate |]. intros (_ & Hb & _).
    apply isBRUSH_iff in Hb. congruence.
  - split; [discriminate |]. intros (Hg & _).
    apply isGENERATE_iff in Hg. congruence.
  - split; [discriminate |]. intros (Hg & _).
    apply isGENERATE_iff in Hg. congruence.
Qed.

Lemma animateParticle_eq (mode : AppMode) (settings : BrushSettings.t num)
    (p : Particle) (ink : Ink num) :
  animateParticle random_source mode settings p ink
  = match fst (dropTest random_source mode settings ink) with
    | Normal true => (Normal tt, mkInk (ctx ink) (svg ink) (S (randoms ink)))
    | _ => stampParticle random_source mode settings p
             (snd (dropTest random_source mode settings ink))
    end.
Proof.
  unfold animateParticle. rewrite bind_eq, dropTest_run.
  destruct (isGENERATE mode && isBRUSH (BrushSettings.fontStyle settings));
    cbn [fst snd]; [| reflexivity].
  destruct (random_source (randoms ink) <? #0.1); reflexivity.
Qed.

Lemma animateBatch_stamps_all (mode : AppMode) (settings : BrushSettings.t num)
    (particles : list Particle) :
  isGENERATE mode && isBRUSH (BrushSettings.fontStyle settings) = false ->
  forall batch particleIndex ink,
    let dequeued := firstn batch (skipn particleIndex particles) in
    animateBatch random_source batch mode settings particles particleIndex ink
    = bind (stampParticles random_source mode settings dequeued)
        (fun _ => ret (particleIndex + List.length dequeued)%nat) ink.
Proof.
  intro Hoff. induction batch as [| batch IH]; intros particleIndex ink.
  - simpl. rewrite bind_ret, Nat.add_0_r. reflexivity.
  - cbn [animateBatch]. cbv zeta.
    destruct (nth_error particles particleIndex) as [p |] eqn:Hp.
    + assert (Hskip : skipn particleIndex particles
                      = p :: skipn (S particleIndex) particles).
      { clear -Hp. revert particleIndex Hp.
        induction particles as [| q ps IHps]; intros [| i] Hp; simpl in *;
          try discriminate.
        - injection Hp as ->. reflexivity.
        - apply IHps. exact Hp. }
      rewrite Hskip. cbn [firstn List.length stampParticles].
      rewrite (bind_eq (animateParticle _ _ _ _)), animateParticle_eq,
        dropTest_run, Hoff.
      cbn [fst snd]. rewrite !bind_eq.
      destruct (stampParticle _ _ _ _ _) as [[[] |] s1]; cbn [fst snd];
        [| reflexivity].
      rewrite IH. cbv zeta. rewrite bind_eq.
      destruct (stampParticles _ _ _ _ _) as [[[] |] s2]; cbn [fst snd];
        [| reflexivity].
      unfold ret. do 2 f_equal. lia.
    + apply nth_error_None in Hp.
      rewrite skipn_all2 by exact Hp. rewrite firstn_nil. simpl.
      rewrite bind_ret, Nat.add_0_r. reflexivity.
Qed.

(** *** The drop rule of the particle animation *)

(** Claim C4, as the code has it: a particle is dropped exactly when the
    mode is GENERATE, the font style is BRUSH and the random number drawn
    for it is below 0.1, whatever the weight option; a dropped particle
    leaves the layer and the log as they are; in every other style each
    dequeued particle is stamped. *)
Theorem particle_drop_rule :
  forall (mode : AppMode) (settings : BrushSettings.t num),
    (forall ink,
       fst (dropTest random_source mode settings ink) = Normal true
       <-> mode = GENERATE
           /\ BrushSettings.fontStyle settings = BRUSH
           /\ (random_source (randoms ink) <? #0.1) = true)
    /\ (forall p ink,
          animateParticle random_source mode settings p ink
          = match fst (dropTest random_source mode settings ink) with
            | Normal true =>
                (Normal tt, mkInk (ctx ink) (svg ink) (S (randoms ink)))
            | _ => stampParticle random_source mode settings p
                     (snd (dropTest random_source mode settings ink))
            end)
    /\ (BrushSettings.fontStyle settings <> BRUSH \/ mode <> GENERATE ->
        forall particles batch particleIndex ink,
          let dequeued := firstn batch (skipn particleIndex particles) in
          animateBatch random_source batch mode settings particles
            particleIndex ink
          = bind (stampParticles random_source mode settings dequeued)
              (fun _ => ret (particleIndex + List.length dequeued)%nat) ink).
Proof.
  intros mode settings. split; [| split].
  - intro ink. apply dropTest_true.
  - intros p ink. apply animateParticle_eq.
  - intros Hother particles batch particleIndex ink.
    apply animateBatch_stamps_all.
    destruct mode, (BrushSettings.fontStyle settings); simpl;
      try reflexivity.
    destruct Hother; congruence.
Qed.

End ParticleFacts.

(** ** Exact arithmetic: the comparisons and [Math.ceil] *)

Section ExactFacts.

Local Open Scope R_scope.

Lemma exact_ltb_true (a b : R) : a < b -> Exact.ltb a b = true.
Proof. intro H. unfold Exact.ltb. destruct (Rlt_dec a b); [reflexivity | lra]. Qed.

Lemma exact_ltb_false (a b : R) : b <= a -> Exact.ltb a b = false.
Proof. intro H. unfold Exact.ltb. destruct (Rlt_dec a b); [lra | reflexivity]. Qed.

Lemma exact_leb_true (a b : R) : a <= b -> Exact.leb a b = true.
Proof. intro H. unfold Exact.leb. destruct (Rle_dec a b); [reflexivity | lra]. Qed.

Lemma exact_leb_false (a b : R) : b < a -> Exact.leb a b = false.
Proof. intro H. unfold Exact.leb. destruct (Rle_dec a b); [lra | reflexivity]. Qed.

Lemma exact_ltb_iff (a b : R) : Exact.ltb a b = true <-> a < b.
Proof. unfold Exact.ltb. destruct (Rlt_dec a b); split; congruence || tauto. Qed.

Lemma exact_leb_iff (a b : R) : Exact.leb a b = true <-> a <= b.
Proof. unfold Exact.leb. destruct (Rle_dec a b); split; congruence || tauto. Qed.

Lemma exact_ltb_false_iff (a b : R) : Exact.ltb a b = false <-> b <= a.
Proof.
  unfold Exact.ltb. destruct (Rlt_dec a b); split; try congruence; lra.
Qed.

Lemma exact_leb_false_iff (a b : R) : Exact.leb a b = false <-> b < a.
Proof.
  unfold Exact.leb. destruct (Rle_dec a b); split; try congruence; lra.
Qed.

Lemma ceilZ_unique (v : R) (z : Z) : IZR z - 1 < v <= IZR z -> Exact.ceilZ v = z.
Proof.
  intros [Hlo Hhi]. unfold Exact.ceilZ.
  assert (H : (1 - z)%Z = up (- v)).
  { apply tech_up; rewrite minus_IZR; lra. }
  rewrite <- H. lia.
Qed.

Lemma ceilZ_IZR (z : Z) : Exact.ceilZ (IZR z) = z.
Proof. apply ceilZ_unique. lra. Qed.

End ExactFacts.

(** Literals and operations of [exact] as plain real arithmetic. *)
Ltac exact_arith :=
  unfold Math_pow2 in *;
  change (@lit R exact) with Q2R in *;
  change (@add R exact) with Rplus in *;
  change (@sub R exact) with Rminus in *;
  change (@mul R exact) with Rmult in *;
  change (@div R exact) with Rdiv in *;
  change (@ltb R exact) with Exact.ltb in *;
  change (@leb R exact) with Exact.leb in *;
  change (@eqb R exact) with Exact.eqb in *;
  change (@Math_sqrt R exact) with R_sqrt.sqrt in *;
  change (@Math_min R exact) with Rmin in *;
  change (@Math_max R exact) with Rmax in *;
  change (@Math_PI R exact) with PI in *;
  change (@of_nat R exact) with INR in *;
  change (@Math_ceil R exact) with (fun v => IZR (Exact.ceilZ v)) in *;
  change (@tripCount R exact)
    with (fun n => Some (Z.to_nat (Exact.ceilZ n))) in *;
  change (@isFinite R exact) with (fun _ : R => true) in *;
  cbv beta in *;
  unfold Q2R in *; cbn [Qnum Qden] in *.

(** Case analysis on the comparisons of a goal over [exact]. *)
Ltac exact_cases :=
  repeat match goal with
    | |- context [Exact.ltb ?a ?b] =>
        let H := fresh "Hlt" in
        destruct (Exact.ltb a b) eqn:H;
        [apply exact_ltb_iff in H | apply exact_ltb_false_iff in H]
    | |- context [Exact.leb ?a ?b] =>
        let H := fresh "Hle" in
        destruct (Exact.leb a b) eqn:H;
        [apply exact_leb_iff in H | apply exact_leb_false_iff in H]
    end.

Section ExactBrush.

Context {M : MathLib R}.
Local Open Scope R_scope.

(** *** Pressure and stamp size *)

Lemma exact_velocity_nonneg (lastPoint currentPoint : Point.t R)
    (settings : BrushSettings.t R) :
  0 <= Physics.velocity (calculateBrushPhysics lastPoint currentPoint settings).
Proof.
  unfold calculateBrushPhysics. cbn [Physics.velocity]. exact_arith.
  exact_cases; [| lra].
  apply Rmult_le_pos.
  - unfold getDistance. exact_arith. apply sqrt_pos.
  - left. apply Rinv_0_lt_compat. lra.
Qed.

Lemma exact_pressureInput_range (currentPoint : Point.t R) (velocity : R) :
  0 <= velocity ->
  0 <= pressureInput currentPoint velocity <= 1.
Proof.
  intro Hv. unfold pressureInput. exact_arith.
  assert (Hq : 0 <= velocity / (25 * / 10)).
  { apply Rmult_le_pos; [exact Hv |]. left. apply Rinv_0_lt_compat. lra. }
  unfold Rmin. destruct (Rle_dec _ _); exact_cases; cbn [andb]; lra.
Qed.


End ExactBrush.

Section ExactScenario.

Context {M : MathLib R}.
Local Open Scope R_scope.

Variables (color : string) (angle letterSpacing lineHeight slant fontSize : R).
Variables (fontStyle : FontStyle) (weightOption : WeightOption).
Variables (pressure0 pressure1 : R).

Let settings : BrushSettings.t R :=
  BrushSettings.mk 20 0 0 color 1 angle 1 0 letterSpacing lineHeight slant
    fontSize fontStyle weightOption false.
Let lastPoint : Point.t R := Point.mk 0 0 pressure0 0.
Let currentPoint : Point.t R := Point.mk 100 0 pressure1 100.

Lemma scenario_geometry :
  strokeGeometry lastPoint currentPoint settings = mkGeometry 30 1 100.
Proof.
  unfold strokeGeometry, calculateBrushPhysics, getDistance, pressureInput.
  cbn [BrushSettings.size BrushSettings.taper Point.x Point.y Point.time
       Point.pressure settings lastPoint currentPoint Physics.size
       Physics.velocity Physics.dist].
  exact_arith.
  assert (Hd : sqrt ((100 - 0) * (100 - 0) + (0 - 0) * (0 - 0)) = 100).
  { replace ((100 - 0) * (100 - 0) + (0 - 0) * (0 - 0)) with (100 * 100) by lra.
    apply sqrt_square. lra. }
  rewrite Hd.
  rewrite !exact_ltb_true by lra.
  f_equal; lra.
Qed.

Lemma scenario_steps :
  strokeSteps lastPoint currentPoint settings = 67.
Proof.
  unfold strokeSteps. rewrite scenario_geometry.
  cbn [dist targetSize]. unfold strokeStepSize.
  cbn [BrushSettings.spacing settings]. exact_arith.
  f_equal. apply ceilZ_unique.
  unfold Rmax. destruct (Rle_dec _ _); lra.
Qed.

Lemma scenario_rounds :
  tripCount (strokeSteps lastPoint currentPoint settings) = Some 67%nat.
Proof.
  rewrite scenario_steps. exact_arith. rewrite ceilZ_IZR. reflexivity.
Qed.

Variable random_source : nat -> R.
Hypothesis random_range : forall k, 0 <= random_source k < 1.

Lemma scenario_stroke (rounds : nat) (ink : Ink R) :
  exists ink',
    strokeOnto random_source lastPoint currentPoint settings rounds ink
    = (Normal tt, ink')
    /\ raster (ctx ink')
       = raster (ctx ink)
         ++ map (fun i => mkFill source_over 1 color 0 (100 * INR i / 67) 0
                            15 15 (angle * (PI / 180)))
              (seq 0 rounds)
    /\ svg ink'
       = svg ink
         ++ map (fun i => mkEllipse (100 * INR i / 67) 0 15 15 angle color 1)
              (seq 0 rounds)
    /\ randoms ink' = (randoms ink + rounds)%nat.
Proof.
  destruct (plain_stroke random_source lastPoint currentPoint settings rounds
              ink) as (ink' & Hrun & Hr & Hs & Hn).
  - intro k. rewrite scenario_geometry.
    cbn [velocity BrushSettings.size BrushSettings.roughness
         BrushSettings.isEraser settings].
    exact_arith. pose proof (random_range k).
    exact_cases; cbn [andb orb negb]; try reflexivity; lra.
  - cbn [BrushSettings.size BrushSettings.roughness BrushSettings.isEraser
         settings].
    exact_arith. exact_cases; cbn [andb orb negb]; try reflexivity; lra.
  - rewrite scenario_geometry. unfold negativeRadius.
    cbn [targetSize BrushSettings.roundness settings].
    exact_arith. rewrite !exact_ltb_false by lra. reflexivity.
  - exists ink'. split; [exact Hrun |].
    assert (Hrecorded :
              recordedRounds lastPoint currentPoint settings rounds
              = seq 0 rounds).
    { unfold recordedRounds, finiteEllipse. exact_arith. cbn [andb].
      clear. induction (seq 0 rounds) as [| i l IH]; simpl; congruence. }
    assert (Hpainted :
              paintedRounds lastPoint currentPoint settings rounds
              = seq 0 rounds).
    { unfold paintedRounds, paints, finiteEllipse.
      rewrite scenario_geometry.
      cbn [targetSize BrushSettings.roundness settings].
      exact_arith. rewrite !exact_ltb_false by lra. cbn [andb orb negb].
      clear. induction (seq 0 rounds) as [| i l IH]; simpl; congruence. }
    unfold strokeFills in Hr. unfold strokeEllipses in Hs.
    rewrite Hpainted in Hr. rewrite Hrecorded in Hs.
    rewrite scenario_geometry, scenario_steps in Hr, Hs.
    cbn [BrushSettings.isEraser settings] in Hr, Hs.
    split; [| split; [| exact Hn]].
    + rewrite Hr. f_equal. apply map_ext. intro i.
      unfold stampFill, stampX, stampY, brushAngleRad, blurAmount.
      cbn [targetSize BrushSettings.color BrushSettings.roundness
           BrushSettings.angle BrushSettings.hardness BrushSettings.size
           Point.x Point.y settings lastPoint currentPoint].
      exact_arith. rewrite exact_leb_true by lra. cbn [orb].
      f_equal; lra.
    + rewrite Hs. f_equal. apply map_ext. intro i.
      unfold stampEllipse, stampX, stampY, brushAngleRad.
      cbn [targetSize BrushSettings.color BrushSettings.roundness
           BrushSettings.angle Point.x Point.y settings lastPoint
           currentPoint].
      exact_arith.
      f_equal; try lra.
      field. apply PI_neq0.
Qed.

(** Claim C2, as the code has it: with the configuration {size=20,
    roundness=1, spacing=0, roughness=0, taper=0, hardness=1} and the samples
    (0,0,t=0) and (100,0,t=100), whatever their pressures and the other
    settings, the stamp size is 20 x 1.5 = 30, so one segment emits
    ceil(100 / max(0.5, 1.5)) = 67 stamps: all centred on the line y = 0,
    each with radiusX = radiusY = 15 and the rotation of the configured
    angle, none skipped by the dry-brush rule. *)
Theorem scenario_emits_67_stamps :
  forall ink : Ink R,
  exists ink',
    drawStroke random_source settings (Some lastPoint) currentPoint (Some ink)
    = Returns (Some ink')
    /\ raster (ctx ink')
       = raster (ctx ink)
         ++ map (fun i => mkFill source_over 1 color 0 (100 * INR i / 67) 0
                            15 15 (angle * (PI / 180)))
              (seq 0 67)
    /\ svg ink'
       = svg ink
         ++ map (fun i => mkEllipse (100 * INR i / 67) 0 15 15 angle color 1)
              (seq 0 67)
    /\ randoms ink' = (randoms ink + 67)%nat.
Proof.
  intro ink. unfold drawStroke. rewrite scenario_rounds.
  destruct (scenario_stroke 67 ink) as (ink' & Hrun & H).
  exists ink'. rewrite Hrun. split; [reflexivity | exact H].
Qed.

End ExactScenario.

(** ** Doubles: a difference that does not overflow *)

Section DoubleFacts.

Local Open Scope Z_scope.

Lemma digits2_pos_size (p : positive) : digits2_pos p = Pos.size p.
Proof. induction p; simpl; congruence. Qed.

Lemma Zdigits2_log2 (z : Z) : z <> 0 -> Zdigits2 z = Z.log2 (Z.abs z) + 1.
Proof.
  destruct z as [| p | p]; [congruence | |]; intros _; simpl;
    rewrite digits2_pos_size; destruct p; simpl; lia.
Qed.

Lemma Zdigits2_nonneg (z : Z) : 0 <= Zdigits2 z.
Proof. destruct z; simpl; lia. Qed.

Lemma Zdigits2_mono (a b : Z) : Z.abs a <= Z.abs b -> Zdigits2 a <= Zdigits2 b.
Proof.
  intro H. destruct (Z.eq_dec a 0) as [-> | Ha].
  - apply Zdigits2_nonneg.
  - rewrite !Zdigits2_log2 by lia.
    pose proof (Z.log2_le_mono _ _ H). lia.
Qed.

Lemma Zdigits2_succ (m : Z) : 0 <= m -> Zdigits2 (m + 1) <= Zdigits2 m + 1.
Proof.
  intro H. destruct (Z.eq_dec m 0) as [-> | Hm]; [simpl; lia |].
  rewrite !Zdigits2_log2 by lia. rewrite !Z.abs_eq by lia.
  pose proof (Z.log2_succ_le m). unfold Z.succ in *. lia.
Qed.

Lemma Zdigits2_shift (m d : positive) :
  Zdigits2 (Zpos (Pos.iter xO m d)) = Zdigits2 (Zpos m) + Zpos d.
Proof.
  induction d as [| d IH] using Pos.peano_ind.
  - simpl. lia.
  - rewrite Pos.iter_succ. simpl in *. lia.
Qed.

Lemma iter_pos_invariant {A} (P : A -> Prop) (f : A -> A) :
  (forall x, P x -> P (f x)) -> forall n x, P x -> P (SpecFloat.iter_pos f n x).
Proof. intro Hf. induction n; simpl; auto. Qed.

Lemma shr_1_bound (k : Z) (r : shr_record) :
  0 <= shr_m r /\ Zdigits2 (shr_m r) <= k ->
  0 <= shr_m (shr_1 r) /\ Zdigits2 (shr_m (shr_1 r)) <= k.
Proof.
  destruct r as [m rr s]. destruct m as [| [p | p |] | p]; simpl; lia.
Qed.

Lemma shr_bound (r : shr_record) (e n : Z) :
  0 <= shr_m r ->
  0 <= shr_m (fst (shr r e n))
  /\ Zdigits2 (shr_m (fst (shr r e n))) <= Zdigits2 (shr_m r)
  /\ snd (shr r e n) = e + Z.max n 0.
Proof.
  intro H. destruct n as [| p | p]; simpl.
  - repeat split; lia.
  - destruct (@iter_pos_invariant _
                (fun r' => 0 <= shr_m r'
                           /\ Zdigits2 (shr_m r') <= Zdigits2 (shr_m r))
                shr_1 (@shr_1_bound (Zdigits2 (shr_m r))) p r) as [H1 H2];
      [lia |].
    repeat split; lia.
  - repeat split; lia.
Qed.

Lemma round_nearest_even_bound (m : Z) (l : location) :
  m <= round_nearest_even m l <= m + 1.
Proof.
  destruct l as [| []]; simpl; try lia. destruct (Z.even m); lia.
Qed.

(** Rounding a mantissa that is aligned on its exponent and of magnitude
    at most 2 never overflows. *)
Lemma binary_round_aux_finite (s : bool) (m : positive) (e : Z) :
  -1074 <= e ->
  e <= fexp prec emax (Zdigits2 (Zpos m) + e) ->
  Zdigits2 (Zpos m) + e <= 1 ->
  Binary64.finiteSF (binary_round_aux prec emax s (Zpos m) e loc_Exact) = true.
Proof.
  intros Hlo Halign Hhi. unfold binary_round_aux, shr_fexp.
  set (D := Zdigits2 (Zpos m) + e) in *.
  assert (HfD : fexp prec emax D <= -52).
  { unfold fexp, emin, prec, emax. lia. }
  destruct (@shr_bound (shr_record_of_loc (Zpos m) loc_Exact) e
              (fexp prec emax D - e)) as (H1 & H2 & H3); [simpl; lia |].
  destruct (shr _ e _) as [mrs' e']. cbn [fst snd] in H1, H2, H3.
  cbn [shr_record_of_loc shr_m] in H2.
  rewrite Z.max_l in H3 by lia.
  set (m2 := round_nearest_even (shr_m mrs') (loc_of_shr_record mrs')).
  assert (Hm2 : shr_m mrs' <= m2 <= shr_m mrs' + 1)
    by apply round_nearest_even_bound.
  assert (Hd2 : Zdigits2 m2 <= Zdigits2 (Zpos m) + 1).
  { transitivity (Zdigits2 (shr_m mrs' + 1)).
    - apply Zdigits2_mono. lia.
    - pose proof (@Zdigits2_succ (shr_m mrs') H1). lia. }
  destruct (@shr_bound (shr_record_of_loc m2 loc_Exact) e'
              (fexp prec emax (Zdigits2 m2 + e') - e')) as (H4 & _ & H6);
    [simpl; lia |].
  destruct (shr _ e' _) as [mrs'' e'']. cbn [fst snd] in H4, H6.
  destruct (shr_m mrs'') as [| p | p]; [reflexivity | | lia].
  assert (He'' : e'' <= 971).
  { subst e''. unfold fexp, emin, prec, emax in *. lia. }
  apply Z.leb_le in He''. unfold emax, prec. simpl Z.sub.
  rewrite He''. reflexivity.
Qed.

Lemma binary_round_finite (s : bool) (m : positive) (e : Z) :
  -1074 <= e ->
  Zdigits2 (Zpos m) + e <= 1 ->
  Binary64.finiteSF (binary_round prec emax s m e) = true.
Proof.
  intros Hlo Hhi. unfold binary_round, shl_align.
  change (Zpos (digits2_pos m)) with (Zdigits2 (Zpos m)).
  set (D := Zdigits2 (Zpos m) + e) in *.
  assert (HfD : -1074 <= fexp prec emax D)
    by (unfold fexp, emin, prec, emax; lia).
  destruct (fexp prec emax D - e) as [| d | d] eqn:Hd.
  - apply binary_round_aux_finite; fold D; lia.
  - apply binary_round_aux_finite; fold D; lia.
  - assert (HD : Zdigits2 (Zpos (Pos.iter xO m d)) + fexp prec emax D = D).
    { rewrite Zdigits2_shift. subst D. lia. }
    apply binary_round_aux_finite; rewrite ?HD; lia.
Qed.

Lemma binary_normalize_finite (z e : Z) (szero : bool) :
  -1074 <= e ->
  Zdigits2 z + e <= 1 ->
  Binary64.finiteSF (binary_normalize prec emax z e szero) = true.
Proof.
  intros Hlo Hhi. destruct z as [| m | m]; [reflexivity | |];
    apply binary_round_finite; assumption.
Qed.

Lemma shl_align_digits (m : positive) (e e' : Z) :
  e' <= e ->
  Zdigits2 (Zpos (fst (shl_align m e e'))) + e' = Zdigits2 (Zpos m) + e.
Proof.
  intro H. unfold shl_align. destruct (e' - e) as [| d | d] eqn:Hd;
    cbn [fst]; [lia | lia |].
  rewrite Zdigits2_shift. lia.
Qed.

(** The difference of 1 and a number between 0 and 1 is a number. *)
Lemma one_minus_finite (p : float) :
  (0 <=? p)%float = true -> (p <=? 1)%float = true ->
  Binary64.finiteSF (Prim2SF (1 - p)%float) = true.
Proof.
  rewrite !FloatAxioms.leb_spec, FloatAxioms.sub_spec. unfold SFleb.
  change (Prim2SF 0) with (S754_zero false).
  change (Prim2SF 1) with (S754_finite false 4503599627370496 (-52)).
  pose proof (Prim2SF_valid p) as Hvalid.
  destruct (Prim2SF p) as [s | s | | s m e]; try (destruct s; discriminate).
  - intros _ _. reflexivity.
  - discriminate.
  - destruct s; [discriminate |]. intros _ Hle.
    cbn [SFcompare] in Hle.
    assert (He : e <= -52).
    { destruct (e ?= -52) eqn:Hc; try discriminate Hle.
      - apply Z.compare_eq in Hc. lia.
      - rewrite Z.compare_lt_iff in Hc. lia. }
    cbn [valid_binary] in Hvalid. unfold bounded, canonical_mantissa in Hvalid.
    apply andb_true_iff in Hvalid. destruct Hvalid as [Hcan _].
    apply Z.eqb_eq in Hcan. unfold fexp, emin, prec, emax in Hcan.
    change (Zpos (digits2_pos m)) with (Zdigits2 (Zpos m)) in Hcan.
    unfold SF64sub, SFsub. rewrite Z.min_r by lia. cbn [cond_Zopp].
    pose proof (@shl_align_digits 4503599627370496 (-52) e He) as H1.
    pose proof (@shl_align_digits m e e (Z.le_refl e)) as H2.
    change (Zdigits2 (Zpos 4503599627370496)) with 53 in H1.
    apply binary_normalize_finite; [lia |].
    set (Z1 := Zpos (fst (shl_align 4503599627370496 (-52) e))) in *.
    set (Z2 := Zpos (fst (shl_align m e e))) in *.
    assert (Hpos1 : 0 < Z1) by (subst Z1; lia).
    assert (Hpos2 : 0 < Z2) by (subst Z2; lia).
    destruct (Z.le_ge_cases Z1 Z2) as [Hc | Hc].
    + pose proof (@Zdigits2_mono (Z1 - Z2) Z2 ltac:(lia)). lia.
    + pose proof (@Zdigits2_mono (Z1 - Z2) Z1 ltac:(lia)). lia.
Qed.

(** Its product with 0 is a zero. *)
Lemma one_minus_times_zero (p : float) :
  (0 <=? p)%float = true -> (p <=? 1)%float = true ->
  ((1 - p) * 0 = 0 \/ (1 - p) * 0 = -0)%float.
Proof.
  intros H0 H1. pose proof (@one_minus_finite p H0 H1) as Hfin.
  assert (H : exists b, Prim2SF ((1 - p) * 0)%float = S754_zero b).
  { rewrite FloatAxioms.mul_spec. change (Prim2SF 0) with (S754_zero false).
    destruct (Prim2SF (1 - p)%float) as [s | s | | s m e];
      try discriminate Hfin; eexists; reflexivity. }
  destruct H as [b H]. apply (f_equal SF2Prim) in H.
  rewrite SF2Prim_Prim2SF in H. rewrite H.
  destruct b; [right | left]; reflexivity.
Qed.






End DoubleFacts.

(** *** The stamp size on doubles *)

Section StampSize.

Local Open Scope js_scope.



End StampSize.

(** ** The scenario on the doubles *)

Section DoubleScenario.

Context {M : MathLib float}.
Local Open Scope js_scope.

Variables (color : string) (angle : float).
Variables (letterSpacing lineHeight slant fontSize : float).
Variables (fontStyle : FontStyle) (weightOption : WeightOption).
Variables (pressure0 pressure1 : float).

Let settings : BrushSettings.t float :=
  BrushSettings.mk #20 #0 #0 color #1 angle #1 #0 letterSpacing lineHeight
    slant fontSize fontStyle weightOption false.
Let lastPoint : Point.t float := Point.mk #0 #0 pressure0 #0.
Let currentPoint : Point.t float := Point.mk #100 #0 pressure1 #100.

(** Whatever the pressure, NaN included, the stamp size is 30. *)
Lemma double_geometry :
  strokeGeometry lastPoint currentPoint settings = mkGeometry #30 #1 #100.
Proof.
  unfold strokeGeometry, calculateBrushPhysics, pressureInput.
  vm_compute.
  destruct (0 <=? pressure1)%float eqn:H0;
    [destruct (pressure1 <=? 1)%float eqn:H1 |]; try reflexivity.
  destruct (@one_minus_times_zero pressure1 H0 H1) as [-> | ->]; reflexivity.
Qed.

Lemma double_steps :
  strokeSteps lastPoint currentPoint settings = #67.
Proof. unfold strokeSteps. rewrite double_geometry. reflexivity. Qed.

Lemma double_rounds :
  tripCount (strokeSteps lastPoint currentPoint settings) = Some 67%nat.
Proof. rewrite double_steps. reflexivity. Qed.

(** [Math.random] never answers below 0; the angle is a number. *)
Variable random_source : nat -> float.
Hypothesis random_range : forall k, (random_source k <? #0) = false.
Hypothesis angle_finite : isFinite (angle * (Math_PI / #180)) = true.

(** The scenario as the program runs it, on doubles: whatever the
    pressures of the two samples and the random numbers, 67 stamps on the
    line y = 0, of radii 15. *)
Lemma scenario_on_doubles :
  forall ink : Ink float,
  exists ink',
    drawStroke random_source settings (Some lastPoint) currentPoint (Some ink)
    = Returns (Some ink')
    /\ raster (ctx ink')
       = raster (ctx ink)
         ++ map (fun i => mkFill source_over #1 color #0
                            (#100 * (of_nat i / #67)) #0 #15 #15
                            (angle * (Math_PI / #180)))
              (seq 0 67)
    /\ svg ink'
       = svg ink
         ++ map (fun i => mkEllipse (#100 * (of_nat i / #67)) #0 #15 #15
                            (((angle * (Math_PI / #180)) * #180) / Math_PI)
                            color #1)
              (seq 0 67)
    /\ randoms ink' = (randoms ink + 67)%nat.
Proof.
  intro ink. unfold drawStroke. rewrite double_rounds.
  destruct (plain_stroke random_source lastPoint currentPoint settings 67 ink)
    as (ink' & Hrun & Hr & Hs & Hn).
  - intro k. rewrite double_geometry. pose proof (random_range k) as Hk.
    vm_compute in Hk |- *. rewrite Hk. reflexivity.
  - reflexivity.
  - rewrite double_geometry. reflexivity.
  - exists ink'. rewrite Hrun. split; [reflexivity |].
    split; [| split; [| exact Hn]].
    + rewrite Hr. f_equal. unfold strokeFills, paintedRounds, paints.
      rewrite double_geometry, double_steps.
      change (brushAngleRad settings) with (angle * (Math_PI / #180)).
      rewrite angle_finite. vm_compute. reflexivity.
    + rewrite Hs. f_equal. unfold strokeEllipses, recordedRounds.
      rewrite double_geometry, double_steps. vm_compute. reflexivity.
Qed.

End DoubleScenario.

Section HistoryFacts.

Context {num : Type}.
Local Open Scope Z_scope.

Lemma paint_frame (a : Artwork (num := num)) (s : Studio (num := num)) :
  historyRef (paint a s) = historyRef s
  /\ historyStepIndexRef (paint a s) = historyStepIndexRef s
  /\ drawingSvgRef (paint a s) = snd a
  /\ (drawingCanvas s <> None ->
      exists c, drawingCanvas (paint a s) = Some c /\ raster c = fst a).
Proof.
  unfold paint. simpl. repeat split.
  intro Hc. destruct (drawingCanvas s) as [c |]; [| congruence].
  eexists. split; reflexivity.
Qed.

Lemma slice0_prefix {A} (a : list A) (e : Z) :
  0 <= e <= Z.of_nat (List.length a) ->
  slice0 a e = firstn (Z.to_nat e) a.
Proof.
  intro He. unfold slice0. cbv zeta.
  destruct (e <? 0) eqn:Hneg; [lia |].
  rewrite Z.min_l by lia. reflexivity.
Qed.

(** A save on a mounted canvas with a valid index: the steps after the
    index go, the new step is appended, the oldest step leaves when there
    are more than twenty, and the index is that of the new step. *)
Lemma saveHistory_spec (s : Studio (num := num)) (c : Context2D num) :
  drawingCanvas s = Some c ->
  indexValid s ->
  let kept := firstn (Z.to_nat (historyStepIndexRef s + 1)) (historyRef s) in
  let pushed := kept ++ [mkStep (raster c) (drawingSvgRef s)] in
  let s' := saveHistory s in
  drawingCanvas s' = Some c
  /\ drawingSvgRef s' = drawingSvgRef s
  /\ historyRef s'
     = (if Z.of_nat (List.length pushed) >? MAX_HISTORY then tl pushed
        else pushed)
  /\ atLatest s' /\ indexValid s'.
Proof.
  intros Hc [[Hlo Hhi] Hcap] kept pushed s'.
  assert (Hkept : List.length kept = Z.to_nat (historyStepIndexRef s + 1)).
  { subst kept. rewrite length_firstn. lia. }
  assert (Hpushed : Z.of_nat (List.length pushed) = historyStepIndexRef s + 2).
  { subst pushed. rewrite length_app, Hkept. simpl. lia. }
  assert (Hhist :
            (if historyStepIndexRef s <? Z.of_nat (List.length (historyRef s)) - 1
             then slice0 (historyRef s) (historyStepIndexRef s + 1)
             else historyRef s) = kept).
  { subst kept. destruct (_ <? _) eqn:Hredo.
    - apply slice0_prefix. lia.
    - apply Z.ltb_ge in Hredo. rewrite firstn_all2; [reflexivity | lia]. }
  subst s'. unfold saveHistory. rewrite Hc. cbv zeta. rewrite Hhist.
  unfold getImageData. fold pushed.
  unfold MAX_HISTORY in *.
  destruct (Z.of_nat (List.length pushed) >? 20) eqn:Hfull.
  - apply Z.gtb_lt in Hfull.
    assert (Htl : Z.of_nat (List.length (tl pushed)) = historyStepIndexRef s + 1).
    { destruct pushed; simpl in *; lia. }
    cbn [drawingCanvas drawingSvgRef historyRef historyStepIndexRef].
    unfold atLatest, indexValid, MAX_HISTORY.
    cbn [drawingCanvas drawingSvgRef historyRef historyStepIndexRef].
    repeat split; try reflexivity; lia.
  - assert (Hfull' : ~ (20 < Z.of_nat (List.length pushed))).
    { intro Habs. apply Z.gtb_lt in Habs. congruence. }
    cbn [drawingCanvas drawingSvgRef historyRef historyStepIndexRef].
    unfold atLatest, indexValid, MAX_HISTORY.
    cbn [drawingCanvas drawingSvgRef historyRef historyStepIndexRef].
    repeat split; try reflexivity; lia.
Qed.

Lemma restore_spec (i : Z) (s : Studio (num := num)) (c : Context2D num)
    (st : HistoryStep (num := num)) :
  drawingCanvas s = Some c ->
  item (historyRef s) i = Some st ->
  layer (restore i s) = Some (imageData st, svgPaths st)
  /\ drawingCanvas (restore i s) <> None
  /\ historyRef (restore i s) = historyRef s
  /\ historyStepIndexRef (restore i s) = i.
Proof.
  intros Hc Hst. unfold restore, layer. rewrite Hc, Hst. simpl.
  repeat split. discriminate.
Qed.

Lemma item_valid {A} (a : list A) (i : Z) :
  0 <= i < Z.of_nat (List.length a) -> exists v, item a i = Some v.
Proof.
  intro Hi. unfold item. destruct (i <? 0) eqn:Hneg; [lia |].
  destruct (nth_error a (Z.to_nat i)) as [v |] eqn:Hv; [eauto |].
  apply nth_error_None in Hv. lia.
Qed.

Lemma performUndo_frame (s : Studio (num := num)) :
  historyRef (performUndo s) = historyRef s
  /\ historyStepIndexRef (performUndo s)
     = (if historyStepIndexRef s >? 0 then historyStepIndexRef s - 1
        else historyStepIndexRef s)
  /\ (drawingCanvas s <> None -> drawingCanvas (performUndo s) <> None).
Proof.
  unfold performUndo, restore.
  destruct (historyStepIndexRef s >? 0); [| tauto].
  destruct (drawingCanvas s), (item (historyRef s) (historyStepIndexRef s - 1));
    simpl; repeat split; congruence.
Qed.

Lemma performRedo_frame (s : Studio (num := num)) :
  historyRef (performRedo s) = historyRef s
  /\ historyStepIndexRef (performRedo s)
     = (if historyStepIndexRef s <? Z.of_nat (List.length (historyRef s)) - 1
        then historyStepIndexRef s + 1
        else historyStepIndexRef s)
  /\ (drawingCanvas s <> None -> drawingCanvas (performRedo s) <> None).
Proof.
  unfold performRedo, restore.
  destruct (historyStepIndexRef s <? _); [| tauto].
  destruct (drawingCanvas s), (item (historyRef s) (historyStepIndexRef s + 1));
    simpl; repeat split; congruence.
Qed.

Lemma undos_S (n : nat) (s : Studio (num := num)) :
  undos (S n) s = performUndo (undos n s).
Proof. reflexivity. Qed.

(** [n] undos from index [i >= n]: the index is [i - n], and after at
    least one undo the layer shows the step at that index. *)
Lemma undos_spec (s : Studio (num := num)) :
  drawingCanvas s <> None ->
  indexValid s ->
  forall n,
    Z.of_nat n <= historyStepIndexRef s ->
    historyRef (undos n s) = historyRef s
    /\ historyStepIndexRef (undos n s) = historyStepIndexRef s - Z.of_nat n
    /\ drawingCanvas (undos n s) <> None
    /\ ((0 < n)%nat ->
        exists st,
          item (historyRef s) (historyStepIndexRef s - Z.of_nat n) = Some st
          /\ layer (undos n s) = Some (imageData st, svgPaths st)).
Proof.
  intros Hc [[Hlo Hhi] Hcap] n. induction n as [| n IH]; intro Hn.
  - simpl. repeat split; try lia; try assumption.
  - destruct IH as (Hh & Hi & Hcv & _); [lia |].
    rewrite undos_S.
    set (s1 := undos n s) in *.
    destruct (drawingCanvas s1) as [c |] eqn:Hc1; [| congruence].
    destruct (@item_valid _ (historyRef s1) (historyStepIndexRef s1 - 1))
      as [st Hst]; [rewrite Hh, Hi; lia |].
    unfold performUndo.
    destruct (historyStepIndexRef s1 >? 0) eqn:Hpos;
      [| rewrite Z.gtb_ltb in Hpos; apply Z.ltb_ge in Hpos; lia].
    destruct (@restore_spec (historyStepIndexRef s1 - 1) s1 c st Hc1 Hst)
      as (Hlayer & Hcv' & Hh' & Hi').
    repeat split.
    + rewrite Hh'. exact Hh.
    + rewrite Hi', Hi. lia.
    + exact Hcv'.
    + intros _. exists st. split; [| exact Hlayer].
      rewrite <- Hh. rewrite <- Hst. f_equal. lia.
Qed.

(** At index 0 undo does nothing. *)
Lemma undos_floor (s : Studio (num := num)) :
  historyStepIndexRef s = 0 -> forall n, undos n s = s.
Proof.
  intros H0 n. induction n as [| n IH]; [reflexivity |].
  rewrite undos_S, IH.
  unfold performUndo. rewrite H0. reflexivity.
Qed.

Lemma undos_add (n m : nat) (s : Studio (num := num)) :
  undos (n + m) s = undos n (undos m s).
Proof. unfold undos. apply Nat.iter_add. Qed.

Lemma skipn_S_push {A} (l : list A) (v : A) :
  forall j, (j < List.length l)%nat ->
    skipn 1 (skipn j l ++ [v]) = skipn (S j) (l ++ [v]).
Proof.
  induction l as [| a l IH]; intros j Hj; [simpl in Hj; lia |].
  destruct j as [| j].
  - reflexivity.
  - change (skipn (S j) (a :: l)) with (skipn j l).
    change (skipn (S (S j)) ((a :: l) ++ [v])) with (skipn (S j) (l ++ [v])).
    apply IH. simpl in Hj. lia.
Qed.

(** Dropping all but the last [k] elements, before or after a push. *)
Lemma skipn_push {A} (k : nat) (l : list A) (v : A) :
  (0 < k)%nat ->
  let kept := skipn (List.length l - k) l in
  skipn (List.length (kept ++ [v]) - k) (kept ++ [v])
  = skipn (List.length (l ++ [v]) - k) (l ++ [v]).
Proof.
  intro Hk. cbv zeta. rewrite !length_app, length_skipn. simpl List.length.
  destruct (Nat.le_gt_cases (List.length l) k) as [Hle | Hgt].
  - replace (List.length l - k)%nat with 0%nat by lia.
    rewrite Nat.sub_0_r. reflexivity.
  - replace (List.length l - (List.length l - k) + 1 - k)%nat with 1%nat by lia.
    assert (Hj : (List.length l + 1 - k = S (List.length l - k))%nat) by lia.
    rewrite Hj. apply skipn_S_push. lia.
Qed.

(** Saves from a state whose index is on the last step: the history is
    the last twenty of the old steps followed by the new ones. *)
Lemma saves_spec (works : list (Artwork (num := num))) :
  forall s : Studio (num := num),
    drawingCanvas s <> None ->
    indexValid s ->
    atLatest s ->
    let all := historyRef s ++ map (fun a => mkStep (fst a) (snd a)) works in
    let s' := saves works s in
    drawingCanvas s' <> None
    /\ indexValid s' /\ atLatest s'
    /\ historyRef s' = skipn (List.length all - 20) all.
Proof.
  induction works as [| a works IH]; intros s Hc Hv Hl; cbv zeta.
  - simpl. rewrite app_nil_r.
    destruct Hv as [Hidx Hcap]. unfold MAX_HISTORY in Hcap.
    replace (List.length (historyRef s) - 20)%nat with 0%nat by lia.
    repeat split; try assumption; apply Hidx.
  - unfold saves. cbn [fold_left]. fold (saves works (saveHistory (paint a s))).
    destruct (paint_frame a s) as (Hph & Hpi & Hps & Hpc).
    destruct (Hpc Hc) as (c & Hc' & Hrc).
    assert (Hv' : indexValid (paint a s)).
    { unfold indexValid. rewrite Hph, Hpi. exact Hv. }
    destruct (saveHistory_spec Hc' Hv')
      as (Hsc & Hss & Hsh & Hsl & Hsv).
    rewrite Hph, Hpi, Hrc, Hps in Hsh.
    unfold atLatest in Hl. rewrite Hl in Hsh.
    rewrite firstn_all2 in Hsh by lia.
    assert (Hsh' : historyRef (saveHistory (paint a s))
                   = skipn (List.length (historyRef s ++ [mkStep (fst a) (snd a)]) - 20)
                       (historyRef s ++ [mkStep (fst a) (snd a)])).
    { rewrite Hsh. destruct Hv as [_ Hcap]. unfold MAX_HISTORY in *.
      rewrite length_app. simpl List.length.
      destruct (Z.of_nat (List.length (historyRef s) + 1) >? 20) eqn:Hfull.
      - apply Z.gtb_lt in Hfull.
        replace (List.length (historyRef s) + 1 - 20)%nat with 1%nat by lia.
        destruct (historyRef s); reflexivity.
      - rewrite Z.gtb_ltb in Hfull. apply Z.ltb_ge in Hfull.
        replace (List.length (historyRef s) + 1 - 20)%nat with 0%nat by lia.
        reflexivity. }
    assert (Hsc' : drawingCanvas (saveHistory (paint a s)) <> None)
      by (rewrite Hsc; discriminate).
    destruct (IH _ Hsc' Hsv Hsl) as (Hc2 & Hv2 & Hl2 & Hh2).
    split; [exact Hc2 |]. split; [exact Hv2 |]. split; [exact Hl2 |].
    + rewrite Hh2. cbn [map]. rewrite Hsh'.
      set (steps := map (fun a0 => mkStep (fst a0) (snd a0)) works).
      replace (historyRef s ++ mkStep (fst a) (snd a) :: steps)
        with ((historyRef s ++ [mkStep (fst a) (snd a)]) ++ steps)
        by (rewrite <- app_assoc; reflexivity).
      set (h := historyRef s ++ [mkStep (fst a) (snd a)]).
      clearbody h steps. clear.
      induction steps as [| v steps IHs] using rev_ind.
      * rewrite !app_nil_r. rewrite length_skipn.
        replace (List.length h - (List.length h - 20) - 20)%nat with 0%nat by lia.
        reflexivity.
      * rewrite !app_assoc. rewrite <- (@skipn_push _ 20 (h ++ steps) v) by lia.
        cbv zeta. rewrite <- IHs. rewrite <- skipn_push by lia. reflexivity.
Qed.

Lemma initial_state (c : Context2D num) :
  let s0 := initialHistorySetup (mounted c) in
  drawingCanvas s0 = Some c
  /\ historyRef s0 = [mkStep (raster c) []]
  /\ historyStepIndexRef s0 = 0
  /\ layer s0 = Some (raster c, [])
  /\ indexValid s0 /\ atLatest s0.
Proof.
  cbv. repeat split; congruence.
Qed.

(** *** The round trip of saves and undos *)

(** Claim C3, as the code has it: for every N <= 19, N saves of any
    artworks followed by N undos bring the raster content and the vector
    log of the drawing layer back to the blank state captured by the
    initial history setup. *)
Theorem history_round_trip :
  forall (c : Context2D num) (works : list (Artwork (num := num))),
    (List.length works <= 19)%nat ->
    let s := undos (List.length works)
               (saves works (initialHistorySetup (mounted c))) in
    layer s = Some (raster c, []) /\ historyStepIndexRef s = 0.
Proof.
  intros c works Hn s.
  destruct (initial_state c) as (Hc0 & Hh0 & Hi0 & Hl0 & Hv0 & Ha0).
  destruct (saves_spec works (s := initialHistorySetup (mounted c)))
    as (Hc & Hv & Hl & Hh); try assumption; [congruence |].
  rewrite Hh0 in Hh. cbn [app List.length] in Hh.
  rewrite length_map in Hh.
  unfold Artwork in *.
  assert (H0 : (S (List.length works) - 20 = 0)%nat) by lia.
  rewrite H0 in Hh. clear H0. cbn [skipn] in Hh.
  assert (Hidx : historyStepIndexRef (saves works (initialHistorySetup (mounted c)))
                 = Z.of_nat (List.length works)).
  { unfold atLatest in Hl. rewrite Hl, Hh. simpl List.length.
    rewrite length_map. lia. }
  destruct (undos_spec Hc Hv (List.length works)) as (_ & Hi & _ & Hlay);
    [lia |].
  subst s. split; [| lia].
  destruct works as [| a works'].
  - exact Hl0.
  - destruct Hlay as (st & Hst & Hlayer); [simpl; lia |].
    rewrite Hlayer. rewrite Hidx, Z.sub_diag, Hh in Hst.
    cbv in Hst. injection Hst as <-. reflexivity.
Qed.

(** *** The bound on the history *)

Lemma act_valid (s : Studio (num := num)) (a : Action (num := num)) :
  drawingCanvas s <> None -> indexValid s ->
  drawingCanvas (act s a) <> None /\ indexValid (act s a).
Proof.
  intros Hc Hv. destruct a as [w | |]; cbn [act].
  - destruct (paint_frame w s) as (Hph & Hpi & _ & Hpc).
    destruct (Hpc Hc) as (c & Hc' & _).
    assert (Hv' : indexValid (paint w s)).
    { unfold indexValid. rewrite Hph, Hpi. exact Hv. }
    destruct (saveHistory_spec Hc' Hv') as (Hsc & _ & _ & _ & Hsv).
    split; [rewrite Hsc; discriminate | exact Hsv].
  - destruct (performUndo_frame s) as (Hh & Hi & Hcv).
    split; [exact (Hcv Hc) |].
    unfold indexValid in *. rewrite Hh, Hi.
    destruct (historyStepIndexRef s >? 0) eqn:Hpos; [| exact Hv].
    apply Z.gtb_lt in Hpos. lia.
  - destruct (performRedo_frame s) as (Hh & Hi & Hcv).
    split; [exact (Hcv Hc) |].
    unfold indexValid in *. rewrite Hh, Hi.
    destruct (historyStepIndexRef s <? _) eqn:Hlt; [| exact Hv].
    apply Z.ltb_lt in Hlt. lia.
Qed.

(** Claim C6: after 25 saves 20 steps remain and the index is that of the
    last one; undo moves the index down 19 times and then does nothing,
    the layer showing the oldest retained step (the sixth artwork); and
    after any saves, undos and redos the index is that of a retained
    step. *)
Theorem bounded_history :
  forall (c : Context2D num) (works : list (Artwork (num := num))),
    List.length works = 25%nat ->
    let s := saves works (initialHistorySetup (mounted c)) in
    List.length (historyRef s) = 20%nat
    /\ historyStepIndexRef s = 19
    /\ (forall k, (k <= 19)%nat ->
          historyStepIndexRef (undos k s) = 19 - Z.of_nat k)
    /\ (forall k, (19 <= k)%nat -> undos k s = undos 19 s)
    /\ layer (undos 19 s) = Some (nth 5 works (raster c, []))
    /\ (forall actions : list (Action (num := num)),
          indexValid (fold_left act actions (initialHistorySetup (mounted c)))).
Proof.
  intros c works Hn s.
  destruct (initial_state c) as (Hc0 & Hh0 & Hi0 & Hl0 & Hv0 & Ha0).
  destruct (saves_spec works (s := initialHistorySetup (mounted c)))
    as (Hc & Hv & Hl & Hh); try assumption; [congruence |].
  fold s in Hc, Hv, Hl, Hh.
  rewrite Hh0 in Hh. cbn [app List.length] in Hh.
  unfold Artwork in *.
  rewrite length_map, Hn in Hh.
  change (skipn (26 - 20) (?x :: ?l)) with (skipn 5 l) in Hh.
  assert (Hlen : List.length (historyRef s) = 20%nat).
  { rewrite Hh, length_skipn, length_map, Hn. reflexivity. }
  assert (Hidx : historyStepIndexRef s = 19).
  { unfold atLatest in Hl. rewrite Hl, Hlen. reflexivity. }
  split; [exact Hlen |]. split; [exact Hidx |].
  split; [| split; [| split]].
  - intros k Hk.
    destruct (undos_spec Hc Hv k) as (_ & Hi & _); [lia |]. lia.
  - intros k Hk. replace k with ((k - 19) + 19)%nat by lia.
    rewrite undos_add. apply undos_floor.
    destruct (undos_spec Hc Hv 19%nat) as (_ & Hi & _); [lia |]. lia.
  - destruct (undos_spec Hc Hv 19%nat) as (_ & _ & _ & Hlay); [lia |].
    destruct Hlay as (st & Hst & Hlayer); [lia |].
    rewrite Hlayer. rewrite Hidx, Hh in Hst. clear - Hst Hn.
    do 6 (destruct works as [| ? works]; [discriminate Hn |]).
    injection Hst as <-. cbn [nth imageData svgPaths].
    rewrite <- surjective_pairing. reflexivity.
  - intro actions.
    assert (H : drawingCanvas (fold_left act actions (initialHistorySetup (mounted c))) <> None
                /\ indexValid (fold_left act actions (initialHistorySetup (mounted c)))).
    { assert (Hc0' : drawingCanvas (initialHistorySetup (mounted c)) <> None)
        by congruence.
      revert Hc0' Hv0. generalize (initialHistorySetup (mounted c)).
      induction actions as [| a actions IH]; intros s0 Hcs Hvs; cbn [fold_left].
      - split; assumption.
      - destruct (act_valid a Hcs Hvs) as [Hc1 Hv1]. apply IH; assumption. }
    apply H.
Qed.

End HistoryFacts.

(** ** The shuffle *)

Lemma isOrder_Permutation (n : nat) (order : list nat) :
  isOrder n order = true -> Permutation order (seq 0 n).
Proof.
  unfold isOrder. intro H. apply andb_true_iff in H. destruct H as [Hlen Hall].
  apply Nat.eqb_eq in Hlen. symmetry.
  apply NoDup_Permutation_bis.
  - apply seq_NoDup.
  - rewrite length_seq. lia.
  - intros i Hi. rewrite forallb_forall in Hall. specialize (Hall i Hi).
    apply existsb_exists in Hall. destruct Hall as (j & Hj & Hij).
    apply Nat.eqb_eq in Hij. subst j. exact Hj.
Qed.

Lemma reorder_identity {A} (l : list A) :
  reorder l (seq 0 (List.length l)) = l.
Proof.
  unfold reorder.
  assert (H : forall (pre : list A),
             flat_map (fun i => match nth_error (pre ++ l) i with
                                | Some a => [a]
                                | None => []
                                end) (seq (List.length pre) (List.length l)) = l).
  { induction l as [| a l IH]; intro pre; [reflexivity |].
    cbn [List.length seq flat_map].
    rewrite nth_error_app2 by lia. rewrite Nat.sub_diag. cbn [nth_error app].
    f_equal. specialize (IH (pre ++ [a])).
    rewrite <- app_assoc, length_app in IH. cbn [app List.length] in IH.
    rewrite Nat.add_1_r in IH. exact IH. }
  exact (H []).
Qed.

Lemma reorder_Permutation {A} (l : list A) (order : list nat) :
  Permutation order (seq 0 (List.length l)) -> Permutation (reorder l order) l.
Proof.
  intro H. rewrite <- (reorder_identity l) at 2.
  unfold reorder. apply Permutation_flat_map. exact H.
Qed.

Section ShuffleFacts.

Context {num : Type} {N : Number num}.
Variable random_source : nat -> num.
Local Open Scope js_scope.

Lemma runSort_settles (n : nat) (t : SortRun) :
  settlesOnOrders n t = true ->
  forall ink : Ink num,
  exists order ink',
    runSort random_source t ink = (Normal order, ink')
    /\ isOrder n order = true
    /\ ctx ink' = ctx ink
    /\ svg ink' = svg ink.
Proof.
  induction t as [order | neg IHn zero IHz pos IHp]; intros Hwf ink.
  - simpl in *. exists order, ink. repeat split; assumption || reflexivity.
  - cbn [settlesOnOrders] in Hwf.
    apply andb_true_iff in Hwf. destruct Hwf as [Hwf Hp].
    apply andb_true_iff in Hwf. destruct Hwf as [Hn Hz].
    cbn [runSort]. unfold comparefn.
    rewrite bind_eq, !bind_random. cbn [fst snd ret].
    set (ink1 := mkInk (ctx ink) (svg ink) (S (randoms ink))).
    destruct (_ <? _); [| destruct (_ <? _)].
    + destruct (IHn Hn ink1) as (o & s & H & H1 & H2 & H3). exists o, s. auto.
    + destruct (IHp Hp ink1) as (o & s & H & H1 & H2 & H3). exists o, s. auto.
    + destruct (IHz Hz ink1) as (o & s & H & H1 & H2 & H3). exists o, s. auto.
Qed.

(** Whatever the random numbers, the reordered list is a permutation of
    the scanned candidates, for a sort that settles on an order of the
    indices. *)
Lemma shuffle_permutes :
  forall (engine : nat -> SortRun) (particles : list (Particle (num := num)))
         (ink : Ink num),
    settlesOnOrders (List.length particles)
      (engine (List.length particles)) = true ->
    exists shuffled ink',
      shuffle random_source engine particles ink = (Normal shuffled, ink')
      /\ Permutation shuffled particles
      /\ List.length shuffled = List.length particles
      /\ ctx ink' = ctx ink /\ svg ink' = svg ink.
Proof.
  intros engine particles ink Hwf.
  destruct (@runSort_settles _ _ Hwf ink)
    as (order & ink' & Hrun & Hord & Hctx & Hsvg).
  exists (reorder particles order), ink'.
  assert (Hperm : Permutation (reorder particles order) particles).
  { apply reorder_Permutation, isOrder_Permutation. exact Hord. }
  unfold shuffle. erewrite bind_normal by exact Hrun. unfold ret.
  repeat split; try assumption.
  apply Permutation_length. exact Hperm.
Qed.

End ShuffleFacts.

(** *** The chances of the orders *)

Section ChanceFacts.

Local Open Scope Z_scope.

Lemma pow2_mod3 (k : nat) : (2 ^ Z.of_nat k) mod 3 <> 0.
Proof.
  assert (H : (2 ^ Z.of_nat k) mod 3 = 1 \/ (2 ^ Z.of_nat k) mod 3 = 2).
  { induction k as [| k IH]; [left; reflexivity |].
    rewrite Nat2Z.inj_succ, Z.pow_succ_r by lia.
    rewrite Z.mul_mod by lia.
    destruct IH as [-> | ->]; [right | left]; reflexivity. }
  lia.
Qed.

Lemma draws_pow (bits depth : nat) :
  (2 ^ Z.of_nat bits) ^ Z.of_nat depth = 2 ^ Z.of_nat (bits * depth).
Proof. rewrite <- Z.pow_mul_r by lia. f_equal. lia. Qed.

(** No run of any sort gives an order the chance of one in six. *)
Lemma chance_not_sixth (bits : nat) (t : SortRun) (order : list nat) :
  ~ (chance bits t order == Qmake 1 6)%Q.
Proof.
  unfold chance, Qeq. cbn [Qnum Qden]. rewrite draws_pow.
  assert (Hpos : 0 < 2 ^ Z.of_nat (bits * height t))
    by (apply Z.pow_pos_nonneg; lia).
  rewrite Z2Pos.id by exact Hpos.
  intro H. apply (pow2_mod3 (bits * height t)).
  rewrite Z.mul_1_l in H. rewrite <- H.
  replace (ways bits (height t) t order * 6)
    with ((ways bits (height t) t order * 2) * 3) by ring.
  apply Z.mod_mul. lia.
Qed.

Lemma three_way_split (c : Z) (l : list Z) :
  Z.of_nat (List.length (filter (fun k => 2 * k <? c) l))
  + Z.of_nat (List.length (filter (fun k => 2 * k =? c) l))
  + Z.of_nat (List.length (filter (fun k => c <? 2 * k) l))
  = Z.of_nat (List.length l).
Proof.
  induction l as [| k l IH]; [reflexivity |].
  cbn [filter].
  destruct (2 * k <? c) eqn:H1, (2 * k =? c) eqn:H2, (c <? 2 * k) eqn:H3;
    cbn [List.length]; lia.
Qed.

(** Every draw makes the comparator negative, zero or positive. *)
Lemma draws_split (bits : nat) :
  negatives bits + zeros bits + positives bits = 2 ^ Z.of_nat bits.
Proof.
  unfold negatives, zeros, positives. rewrite three_way_split.
  rewrite length_map, length_seq.
  rewrite Nat2Z.inj_pow. reflexivity.
Qed.

Lemma isOrder3 (order : list nat) :
  isOrder 3 order = true -> In order orders3.
Proof.
  destruct order as [| a [| b [| c [| d order]]]]; try discriminate.
  destruct a as [| [| [| a]]], b as [| [| [| b]]], c as [| [| [| c]]];
    try discriminate; intros _; unfold orders3; simpl; tauto.
Qed.

Lemma ways_total (bits : nat) (t : SortRun) :
  settlesOnOrders 3 t = true ->
  forall depth, (height t <= depth)%nat ->
    sum6 (ways bits depth t) = (2 ^ Z.of_nat bits) ^ Z.of_nat depth.
Proof.
  induction t as [order | neg IHn zero IHz pos IHp]; intros Hwf depth Hd.
  - cbn [settlesOnOrders] in Hwf. apply isOrder3 in Hwf.
    unfold sum6, orders3 in *. cbn [map fold_right ways].
    cbn [In] in Hwf.
    destruct Hwf as [<- | [<- | [<- | [<- | [<- | [<- | []]]]]]];
      cbn [ways];
      repeat match goal with
        | |- context [list_eq_dec Nat.eq_dec ?a ?b] =>
            destruct (list_eq_dec Nat.eq_dec a b); try discriminate;
            try congruence
        end; lia.
  - cbn [settlesOnOrders] in Hwf.
    apply andb_true_iff in Hwf. destruct Hwf as [Hwf Hp].
    apply andb_true_iff in Hwf. destruct Hwf as [Hn Hz].
    cbn [height] in Hd. destruct depth as [| depth]; [lia |].
    specialize (IHn Hn depth ltac:(lia)).
    specialize (IHz Hz depth ltac:(lia)).
    specialize (IHp Hp depth ltac:(lia)).
    rewrite Nat2Z.inj_succ, Z.pow_succ_r by lia.
    rewrite <- (draws_split bits) at 1.
    set (T := (2 ^ Z.of_nat bits) ^ Z.of_nat depth) in *.
    replace ((negatives bits + zeros bits + positives bits) * T)
      with (negatives bits * T + zeros bits * T + positives bits * T) by ring.
    rewrite <- IHn at 1. rewrite <- IHz at 1. rewrite <- IHp at 1.
    unfold sum6, orders3. cbn [map fold_right ways].
    ring.
Qed.

(** Three divides the factorial of three and more. *)
Lemma fact_mod3 (n : nat) : (3 <= n)%nat -> Z.of_nat (fact n) mod 3 = 0.
Proof.
  intro Hn. induction Hn as [| n Hn IH]; [reflexivity |].
  change (fact (S n)) with (S n * fact n)%nat.
  rewrite Nat2Z.inj_mul, Z.mul_mod by lia.
  rewrite IH, Z.mul_0_r. reflexivity.
Qed.

(** With three elements or more, no run of any sort gives an order the
    chance it has under a uniformly distributed permutation: the chance
    of a run is a number of draws out of a power of two. *)
Lemma chance_not_uniform (n bits : nat) (t : SortRun) (order : list nat) :
  (3 <= n)%nat ->
  ~ (chance bits t order == uniformChance n)%Q.
Proof.
  intro Hn. unfold chance, uniformChance, Qeq. cbn [Qnum Qden].
  rewrite draws_pow.
  assert (Hpos : 0 < 2 ^ Z.of_nat (bits * height t))
    by (apply Z.pow_pos_nonneg; lia).
  rewrite Z2Pos.id by exact Hpos.
  pose proof (lt_O_fact n) as Hfact.
  replace (Z.pos (Pos.of_nat (fact n))) with (Z.of_nat (fact n))
    by (destruct (fact n); [lia |]; rewrite <- Pos.of_nat_succ; lia).
  intro H. apply (pow2_mod3 (bits * height t)).
  rewrite Z.mul_1_l in H. rewrite <- H.
  rewrite Z.mul_mod, (fact_mod3 Hn), Z.mul_0_r by lia. reflexivity.
Qed.

Lemma count_below (c : Z) (n : nat) :
  0 <= c ->
  Z.of_nat (List.length (filter (fun k => k <? c) (map Z.of_nat (seq 0 n))))
  = Z.min (Z.of_nat n) c.
Proof.
  intro Hc. induction n as [| n IH]; [simpl; lia |].
  rewrite seq_S, map_app, filter_app, length_app, Nat2Z.inj_add, IH.
  cbn [Nat.add map filter].
  destruct (Z.of_nat n <? c) eqn:Hlt; cbn [List.length]; lia.
Qed.

(** With draws of one bit or more, half of them make the comparator
    negative. *)
Lemma negatives_half (bits : nat) :
  (1 <= bits)%nat -> 2 * negatives bits = 2 ^ Z.of_nat bits.
Proof.
  intro Hbits. unfold negatives.
  destruct bits as [| b]; [lia |].
  rewrite Nat2Z.inj_succ, Z.pow_succ_r by lia.
  rewrite (@filter_ext _ _ (fun k => k <? 2 ^ Z.of_nat b)).
  - rewrite count_below by (apply Z.pow_nonneg; lia).
    rewrite Nat2Z.inj_pow, (Nat2Z.inj_succ b), Z.pow_succ_r by lia.
    change (Z.of_nat 2) with 2.
    assert (0 < 2 ^ Z.of_nat b) by (apply Z.pow_pos_nonneg; lia).
    lia.
  - intro k. destruct (k <? 2 ^ Z.of_nat b) eqn:Hk; lia.
Qed.

(** The sort of two elements by one comparison gives both orders the
    chance of one in two. *)
Lemma pairSort_uniform (bits : nat) :
  (1 <= bits)%nat ->
  (chance bits pairSort [0; 1]%nat == uniformChance 2)%Q
  /\ (chance bits pairSort [1; 0]%nat == uniformChance 2)%Q.
Proof.
  intro Hbits. pose proof (negatives_half Hbits) as Hhalf.
  pose proof (draws_split bits) as Hsplit.
  assert (Hpos : 0 < 2 ^ Z.of_nat bits) by (apply Z.pow_pos_nonneg; lia).
  unfold chance, uniformChance, Qeq, pairSort.
  cbn [Qnum Qden height Nat.max ways fact Nat.mul Nat.add Pos.of_nat].
  repeat match goal with
    | |- context [list_eq_dec Nat.eq_dec ?a ?b] =>
        destruct (list_eq_dec Nat.eq_dec a b); try discriminate;
        try congruence
    end.
  change (Z.of_nat 0) with 0. change (Z.of_nat 1) with 1.
  rewrite Z.pow_0_r, Z.pow_1_r, Z2Pos.id by exact Hpos.
  split; lia.
Qed.

(** Claim C9, as the code has it.  The list is reordered by the engine's
    sort under a comparator that answers with a fresh random number less
    one half.  Provided the sort settles on an order of the indices, the
    reordered list is a permutation of the scanned candidates, whatever
    the random numbers.  The order is random, but with three candidates or
    more no sort gives any order the chance it has under a uniformly
    distributed permutation, one in [n!]; with two candidates a sort can:
    one comparison that swaps on a negative answer gives both orders the
    chance of one in two. *)
Theorem shuffle_is_permutation :
  (forall (num : Type) (N : Number num) (random_source : nat -> num)
          (engine : nat -> SortRun)
          (particles : list (Particle (num := num))) (ink : Ink num),
      settlesOnOrders (List.length particles)
        (engine (List.length particles)) = true ->
      exists shuffled ink',
        shuffle random_source engine particles ink = (Normal shuffled, ink')
        /\ Permutation shuffled particles
        /\ List.length shuffled = List.length particles
        /\ ctx ink' = ctx ink /\ svg ink' = svg ink)
  /\ (forall (n bits : nat) (t : SortRun) (order : list nat),
        (3 <= n)%nat -> ~ (chance bits t order == uniformChance n)%Q)
  /\ (forall bits : nat,
        (1 <= bits)%nat ->
        settlesOnOrders 2 pairSort = true
        /\ (chance bits pairSort [0; 1]%nat == uniformChance 2)%Q
        /\ (chance bits pairSort [1; 0]%nat == uniformChance 2)%Q).
Proof.
  split; [| split].
  - intros num N random_source engine particles ink Hwf.
    apply shuffle_permutes. exact Hwf.
  - intros n bits t order Hn. apply chance_not_uniform. exact Hn.
  - intros bits Hbits. split; [reflexivity |].
    apply pairSort_uniform. exact Hbits.
Qed.

End ChanceFacts.

(** ** Concrete runs *)

(** *** On the doubles *)

(** Claim C1 fails as stated: with size 1 the stamp size of a hairline
    stroke is 1, not 0.5. *)
Lemma hairline_size_not_fixed :
  ~ (forall M : MathLib float,
       let settings : BrushSettings.t float :=
         settingsWith 1 0.45 0.7 0.22 0.8 0 PEN NORMAL false in
       (BrushSettings.size settings <=? #1)%js = true ->
       (targetSize
          (strokeGeometry (sampleAt 0 0 0.5 0) (sampleAt 3 4 0.5 16) settings)
        === #0.5)%js = true).
Proof.
  intro H.
  specialize (H (Build_MathLib (fun _ _ => nan) (fun v => v) (fun v => v))).
  vm_compute in H. specialize (H eq_refl). discriminate H.
Qed.

(** Claim C2 fails as stated: the segment does not emit 100 stamps of
    radius 10. *)
Lemma scenario_not_100_stamps :
  ~ (forall M : MathLib float,
       exists ink' : Ink float,
         drawStroke (num := float) (fun _ => #0.3)%js
           (settingsWith 20 0 0 1 1 0 PEN NORMAL false)
           (Some (sampleAt 0 0 0.5 0)) (sampleAt 100 0 0.5 100)
           (Some blankInk)
         = Returns (Some ink')
         /\ List.length (svg ink') = 100%nat
         /\ forallb (fun e => (svg_rx e === #10) && (svg_ry e === #10))%js
              (svg ink') = true).
Proof.
  intro H.
  destruct (H (Build_MathLib (fun _ _ => nan) (fun v => v) (fun v => v)))
    as (ink' & Hrun & Hlen & _).
  vm_compute in Hrun. injection Hrun as <-.
  vm_compute in Hlen. discriminate Hlen.
Qed.

(** Claim C4 fails as stated: in BRUSH style a particle is dropped with the
    THIN weight too.  One tick on a queue of one particle, with a random
    number below 0.1, dequeues the particle and stamps nothing. *)
Lemma thin_brush_particle_dropped :
  let tick := animateText (num := float) (fun _ => #0.05)%js GENERATE
                (settingsWith 10 0.45 0.7 0.22 0.8 0 BRUSH THIN false)
                [mkParticle #10 #10]%js 0 blankInk in
  fst tick = Normal (1%nat, true)
  /\ svg (snd tick) = []
  /\ raster (ctx (snd tick)) = [].
Proof. vm_compute. repeat split. Qed.

(** Claim C7 fails as stated: the coordinates and times below are finite,
    the elapsed time is 1, and the velocity is not finite, since the square
    of the distance overflows. *)
Lemma velocity_overflows :
  ~ (forall M : MathLib float,
       let lastPoint : Point.t float := sampleAt 1e200 0 0.5 0 in
       let currentPoint : Point.t float := sampleAt 0 0 0.5 1 in
       isFinite (Point.x lastPoint) && isFinite (Point.y lastPoint)
       && isFinite (Point.time lastPoint) && isFinite (Point.x currentPoint)
       && isFinite (Point.y currentPoint)
       && isFinite (Point.time currentPoint) = true ->
       isFinite
         (Physics.velocity
            (calculateBrushPhysics lastPoint currentPoint
               (settingsWith 10 0.45 0.7 0.22 0.8 0 PEN NORMAL false)))
       = true).
Proof.
  intro H.
  specialize (H (Build_MathLib (fun _ _ => nan) (fun v => v) (fun v => v))).
  vm_compute in H. specialize (H eq_refl). discriminate H.
Qed.


(** With a negative roundness the canvas raises on the first stamp of an
    eraser stroke: the call does not return, nothing is painted, and the
    composite operation stays at [destination-out]. *)
Lemma negative_roundness_raises :
  forall M : MathLib float,
    match drawStroke (num := float) (fun _ => #0.3)%js
            (settingsWith 10 0.45 0.7 (-0.5) 0.8 0 PEN NORMAL true)
            (Some (sampleAt 0 0 0.5 0)) (sampleAt 3 4 0.5 16)
            (Some blankInk) with
    | Throws (Some ink') =>
        globalCompositeOperation (ctx ink') = destination_out
        /\ raster (ctx ink') = []
        /\ svg ink' = []
    | _ => False
    end.
Proof. intro M. vm_compute. repeat split. Qed.

(** Claim C3 fails as stated for N = 20: the twentieth save evicts the
    blank step, and twenty undos end on the first artwork. *)
Lemma round_trip_of_20_saves_fails :
  layer (undos 20 (saves (repeat (dot (num := float)) 20)
                     (initialHistorySetup (mounted newContext))))
  <> Some (raster (newContext (num := float)), []).
Proof. vm_compute. intro H. discriminate H. Qed.

(** *** The shuffle of three particles *)

(** With draws of two bits, insertion sort leaves three particles in
    their order nine times in sixteen, and reverses them once in
    sixty-four. *)
Lemma insertion_sort_chances :
  (chance 2 insertionSort3 [0; 1; 2]%nat == Qmake 9 16)%Q
  /\ (chance 2 insertionSort3 [2; 1; 0]%nat == Qmake 1 64)%Q.
Proof. split; vm_compute; reflexivity. Qed.

(** Claim C9 fails as stated: with three particles, however the engine
    sorts and however fine the random numbers are, the six orders are not
    equally likely. *)
Lemma shuffle_not_uniform :
  ~ (exists (bits : nat) (t : SortRun),
       settlesOnOrders 3 t = true
       /\ forall order, In order orders3 ->
            (chance bits t order == Qmake 1 6)%Q).
Proof.
  intros (bits & t & _ & H).
  apply (@chance_not_sixth bits t [0; 1; 2]%nat).
  apply H. left. reflexivity.
Qed.

(** *** Runs of the theorems *)

(** Hairline geometry at size 0.6: the stamp size is the size. *)
Lemma hairline_geometry_witness :
  let settings : BrushSettings.t R :=
    settingsWith 0.6 0.45 0.7 0.22 0.8 0 PEN NORMAL false in
  let lastPoint : Point.t R := sampleAt 0 0 0.5 0 in
  let currentPoint : Point.t R := sampleAt 3 4 0.5 16 in
  (BrushSettings.size settings <=? #1)%js = true
  /\ strokeGeometry lastPoint currentPoint settings
     = mkGeometry
         (if (BrushSettings.size settings === #0)%js then #0.5%js
          else BrushSettings.size settings)
         #0%js
         (Math_sqrt
            (Math_pow2 (Point.x currentPoint - Point.x lastPoint)
             + Math_pow2 (Point.y currentPoint - Point.y lastPoint))%js).
Proof.
  cbv zeta.
  assert (H : (BrushSettings.size
                 (settingsWith (num := R) 0.6 0.45 0.7 0.22 0.8 0 PEN NORMAL
                    false) <=? #1)%js = true).
  { cbn [settingsWith BrushSettings.size]. exact_arith.
    apply exact_leb_true. lra. }
  split; [exact H |].
  exact (proj1 (@hairline_geometry R exact exact_MathLib (fun _ => 0%R)
                  exact_lawful _ _ _ H)).
Defined.

(** Two samples with the same timestamp: velocity 0. *)
Lemma velocity_guard_witness :
  let lastPoint : Point.t R := sampleAt 0 0 0.5 5 in
  let currentPoint : Point.t R := sampleAt 3 4 0.5 5 in
  ((Point.time currentPoint - Point.time lastPoint) <=? #0)%js = true
  /\ Physics.velocity
       (calculateBrushPhysics lastPoint currentPoint
          (settingsWith 10 0.45 0.7 0.22 0.8 0 PEN NORMAL false))
     = #0%js.
Proof.
  cbv zeta.
  assert (H : ((Point.time (sampleAt (num := R) 3 4 0.5 5)
                - Point.time (sampleAt (num := R) 0 0 0.5 5)) <=? #0)%js
              = true).
  { cbn [sampleAt Point.time]. exact_arith. apply exact_leb_true. lra. }
  split; [exact H |].
  exact (proj1 (@velocity_guard R exact exact_MathLib exact_lawful _ _ _) H).
Defined.


(** The scenario with every random number 0. *)
Lemma scenario_emits_67_stamps_witness :
  (forall k : nat, (0 <= (fun _ : nat => 0) k < 1)%R)
  /\ exists ink' : Ink R,
       drawStroke (fun _ => 0%R)
         (BrushSettings.mk 20 0 0 "#1a1a1a" 1 85 1 0 0 1.2 0 150 PEN NORMAL
            false)%R
         (Some (Point.mk 0 0 0.5 0)%R) (Point.mk 100 0 0.5 100)%R
         (Some blankInk)
       = Returns (Some ink')
       /\ List.length (svg ink') = 67%nat.
Proof.
  assert (H : forall k : nat, (0 <= (fun _ : nat => 0) k < 1)%R)
    by (intro k; lra).
  split; [exact H |].
  destruct (@scenario_emits_67_stamps exact_MathLib "#1a1a1a" 85 0 1.2 0 150
              PEN NORMAL 0.5 0.5 (fun _ => 0%R) H blankInk)
    as (ink' & Hrun & _ & Hsvg & _).
  exists ink'. split; [exact Hrun |].
  rewrite Hsvg, length_app, length_map, length_seq. reflexivity.
Defined.

(** One eraser move on a blank layer. *)
Lemma eraser_session_raster_only_witness :
  let moves : list (Move (num := R)) :=
    [(settingsWith 10 0.45 0.7 0.22 0.8 0 PEN NORMAL true,
      sampleAt 0 0 0.5 0, sampleAt 3 4 0.5 16)] in
  Forall (fun m => BrushSettings.isEraser (fst (fst m)) = true) moves
  /\ match session (fun _ => 0%R) moves (Some blankInk) with
     | Returns out =>
         exists ink',
           out = Some ink'
           /\ raster (ctx ink') = raster (ctx blankInk) ++ eraserFills moves
           /\ Forall (fun f => fill_op f = destination_out) (eraserFills moves)
           /\ svg ink' = svg blankInk
           /\ svgContent [] (svg ink') = svgContent [] (svg blankInk)
     | Throws _ => False
     | Diverges =>
         exists settings lastPoint currentPoint,
           In (settings, lastPoint, currentPoint) moves
           /\ tripCount (strokeSteps lastPoint currentPoint settings) = None
     end.
Proof.
  cbv zeta.
  assert (H : Forall (fun m : Move (num := R) =>
                        BrushSettings.isEraser (fst (fst m)) = true)
                [(settingsWith 10 0.45 0.7 0.22 0.8 0 PEN NORMAL true,
                  sampleAt 0 0 0.5 0, sampleAt 3 4 0.5 16)]).
  { repeat constructor. }
  split; [exact H |].
  exact (@eraser_session_raster_only R exact exact_MathLib (fun _ => 0%R) _
           blankInk [] H).
Defined.

(** Two saves and two undos. *)
Lemma history_round_trip_witness :
  let works := [dot (num := float); dot] in
  (List.length works <= 19)%nat
  /\ layer (undos (List.length works)
              (saves works (initialHistorySetup (mounted newContext))))
     = Some (raster (newContext (num := float)), []).
Proof.
  cbv zeta.
  assert (H : (List.length [dot (num := float); dot] <= 19)%nat)
    by (simpl; lia).
  split; [exact H |].
  exact (proj1 (@history_round_trip float newContext _ H)).
Defined.

(** Twenty-five saves of a dot. *)
Lemma bounded_history_witness :
  let works := repeat (dot (num := float)) 25 in
  let s := saves works (initialHistorySetup (mounted newContext)) in
  List.length works = 25%nat
  /\ List.length (historyRef s) = 20%nat
  /\ historyStepIndexRef s = 19%Z.
Proof.
  cbv zeta.
  assert (H : List.length (repeat (dot (num := float)) 25) = 25%nat)
    by reflexivity.
  split; [exact H |].
  pose proof (@bounded_history float newContext _ H) as (Hlen & Hidx & _).
  split; [exact Hlen | exact Hidx].
Defined.

(** Three particles under the sample engine: the shuffle is a
    permutation, and the chance of the order that keeps them is not one in
    six; two particles under the sort of one comparison, with draws of one
    bit: the chance of either order is one in two. *)
Lemma shuffle_is_permutation_witness :
  let particles : list (Particle (num := float)) :=
    [mkParticle #1 #1; mkParticle #2 #2; mkParticle #3 #3]%js in
  (settlesOnOrders (List.length particles)
     (insertionEngine (List.length particles)) = true
   /\ exists shuffled ink',
        shuffle (fun _ => #0.7)%js insertionEngine particles blankInk
        = (Normal shuffled, ink')
        /\ Permutation shuffled particles)
  /\ ((3 <= 3)%nat
      /\ ~ (chance 2 insertionSort3 [0; 1; 2]%nat == uniformChance 3)%Q)
  /\ ((1 <= 1)%nat
      /\ (chance 1 pairSort [0; 1]%nat == uniformChance 2)%Q
      /\ (chance 1 pairSort [1; 0]%nat == uniformChance 2)%Q).
Proof.
  cbv zeta. split; [| split].
  2: { split; [apply le_n |].
       exact (proj1 (proj2 shuffle_is_permutation) 3%nat 2%nat insertionSort3
                [0; 1; 2]%nat (le_n 3)). }
  2: { split; [apply le_n |].
       exact (proj2 (proj2 (proj2 shuffle_is_permutation) 1%nat (le_n 1))). }
  assert (H : settlesOnOrders
                (List.length [mkParticle (num := float) #1 #1;
                              mkParticle #2 #2; mkParticle #3 #3]%js)
                (insertionEngine
                   (List.length [mkParticle (num := float) #1 #1;
                                 mkParticle #2 #2; mkParticle #3 #3]%js))
              = true) by reflexivity.
  split; [exact H |].
  destruct (proj1 shuffle_is_permutation float binary64 (fun _ => #0.7)%js
              insertionEngine _ blankInk H)
    as (shuffled & ink' & Hrun & Hperm & _).
  exists shuffled, ink'. split; [exact Hrun | exact Hperm].
Defined.


(** * Further properties *)

(** ** [Math.floor] in exact arithmetic *)

Section FloorFacts.

Local Open Scope R_scope.

Lemma floorZ_spec (v : R) : IZR (floorZ v) <= v < IZR (floorZ v) + 1.
Proof.
  unfold floorZ. rewrite minus_IZR.
  destruct (archimed v) as [H1 H2]. lra.
Qed.

Lemma floorZ_range (v : R) (lo hi : Z) :
  IZR lo <= v < IZR hi -> (lo <= floorZ v < hi)%Z.
Proof.
  intros [Hlo Hhi]. pose proof (floorZ_spec v) as [H1 H2].
  split.
  - apply Z.lt_succ_r. apply lt_IZR. rewrite succ_IZR. lra.
  - apply lt_IZR. lra.
Qed.

End FloorFacts.

(** [Math.floor] of [exact] as the integer part. *)
Ltac exact_floor :=
  change (@Math_floor R exact_Flooring) with (fun v => IZR (floorZ v)) in *;
  cbv beta in *.


(** ** Settings that never make the canvas raise *)

Section ExactSafety.

Context {M : MathLib R}.
Variable random_source : nat -> R.
Local Open Scope R_scope.

Lemma exact_targetSize_nonneg (lastPoint currentPoint : Point.t R)
    (settings : BrushSettings.t R) :
  0 <= BrushSettings.size settings ->
  BrushSettings.taper settings <= 1 ->
  0 <= targetSize (strokeGeometry lastPoint currentPoint settings).
Proof.
  intros Hsize Htaper. unfold strokeGeometry. exact_arith.
  destruct (Exact.ltb (1 * / 1) (BrushSettings.size settings));
    cbn [targetSize].
  - pose proof (exact_pressureInput_range currentPoint
                  (exact_velocity_nonneg lastPoint currentPoint settings))
      as Hp.
    unfold calculateBrushPhysics in *. cbn [Physics.size Physics.velocity] in *.
    exact_arith.
    set (p := pressureInput currentPoint _) in *.
    assert (H1 : (1 - p) * BrushSettings.taper settings <= 1) by nra.
    nra.
  - destruct (Exact.eqb (BrushSettings.size settings) (0 * / 1)); lra.
Qed.

Lemma exact_strokeStepSize_pos (settings : BrushSettings.t R) (ts : R) :
  0 <= BrushSettings.spacing settings ->
  0 <= ts ->
  0.5 <= strokeStepSize settings ts.
Proof.
  intros Hspacing Hts. unfold strokeStepSize. exact_arith.
  pose proof (Rmax_l (5 * / 10) (ts * (5 * / 100))) as Hmax.
  assert (0 <= BrushSettings.spacing settings * ts * (15 * / 10)) by nra.
  lra.
Qed.

Lemma drawStroke_safe :
  forall (settings : BrushSettings.t R) (lastPoint currentPoint : Point.t R)
         (ink : Ink R),
    0 <= BrushSettings.size settings ->
    BrushSettings.taper settings <= 1 ->
    0 <= BrushSettings.roundness settings ->
    0 <= BrushSettings.spacing settings ->
    0.5 <= strokeStepSize settings
             (targetSize (strokeGeometry lastPoint currentPoint settings))
    /\ exists ink',
         drawStroke random_source settings (Some lastPoint) currentPoint
           (Some ink)
         = Returns (Some ink')
         /\ globalCompositeOperation (ctx ink') = source_over
         /\ shadowBlur (ctx ink') = 0.
Proof.
  intros settings lastPoint currentPoint ink Hsize Htaper Hround Hspacing.
  split.
  { apply exact_strokeStepSize_pos; [exact Hspacing |].
    apply exact_targetSize_nonneg; assumption. }
  unfold drawStroke.
  change (tripCount (strokeSteps lastPoint currentPoint settings))
    with (Some (Z.to_nat
                  (Exact.ceilZ (strokeSteps lastPoint currentPoint settings)))).
  cbv iota beta.
  set (rounds := Z.to_nat _).
  destruct (strokeOnto random_source lastPoint currentPoint settings rounds ink)
    as [[[] |] ink'] eqn:Hrun.
  - exists ink'. split; [reflexivity |].
    apply strokeOnto_resets in Hrun. destruct Hrun as [Hop Hblur].
    split; [exact Hop |]. rewrite Hblur. exact_arith. lra.
  - exfalso. apply strokeOnto_raises in Hrun.
    pose proof (exact_targetSize_nonneg lastPoint currentPoint settings
                  Hsize Htaper) as Hts.
    unfold negativeRadius, negativeSplatter in Hrun.
    set (ts := targetSize _) in *. exact_arith.
    rewrite !exact_ltb_false in Hrun by nra. discriminate Hrun.
Qed.

(** X1: in exact arithmetic (real numbers: no rounding, no overflow, no
    NaN), with a size, a roundness and a spacing that are not negative and
    a taper of at most 1, the step between two stamps is at least 0.5, so
    the number of stamps is a quotient by a number above zero, and a call
    of [drawStroke] with a layer and a last point never has the canvas
    raise and never runs on: it returns, the context reset, whatever the
    samples, their pressures and the random numbers. *)
Theorem drawStroke_returns :
  forall (settings : BrushSettings.t R) (lastPoint currentPoint : Point.t R)
         (ink : Ink R),
    0 <= BrushSettings.size settings ->
    BrushSettings.taper settings <= 1 ->
    0 <= BrushSettings.roundness settings ->
    0 <= BrushSettings.spacing settings ->
    0.5 <= strokeStepSize settings
             (targetSize (strokeGeometry lastPoint currentPoint settings))
    /\ exists ink',
         drawStroke random_source settings (Some lastPoint) currentPoint
           (Some ink)
         = Returns (Some ink')
         /\ globalCompositeOperation (ctx ink') = source_over
         /\ shadowBlur (ctx ink') = 0.
Proof.
  intros settings lastPoint currentPoint ink Hsize Htaper Hround Hspacing.
  apply drawStroke_safe; assumption.
Qed.

End ExactSafety.


(** ** The settings generators *)

Section GeneratorFacts.

Variable random_source : nat -> R.
Hypothesis random_range : forall i, (0 <= random_source i < 1)%R.
Local Open Scope R_scope.

(** [Math.floor(Math.random() * n)] is one of 0, ..., n - 1. *)
Lemma random_index (i : nat) (n : Z) :
  (0 < n)%Z ->
  (0 <= floorZ (random_source i * IZR n) < n)%Z.
Proof.
  intro Hn. apply floorZ_range. pose proof (random_range i) as Hr.
  assert (0 < IZR n) by (apply (IZR_lt 0); exact Hn).
  split; nra.
Qed.

Lemma generateRandomSettings_range (k : nat) (current : BrushSettings.t R) :
  let s := fst (generateRandomSettings random_source k current) in
  (exists n : Z, BrushSettings.size s = IZR n /\ (10 <= n <= 59)%Z)
  /\ 0 <= BrushSettings.roughness s < 0.8
  /\ 0.1 <= BrushSettings.taper s < 1
  /\ 0.1 <= BrushSettings.roundness s < 1
  /\ (exists n : Z, BrushSettings.angle s = IZR n /\ (0 <= n <= 179)%Z)
  /\ 0.1 <= BrushSettings.hardness s < 1
  /\ 0 <= BrushSettings.spacing s < 0.2.
Proof.
  cbv zeta. unfold generateRandomSettings. cbn [fst].
  cbn [BrushSettings.size BrushSettings.roughness BrushSettings.taper
       BrushSettings.roundness BrushSettings.angle BrushSettings.hardness
       BrushSettings.spacing].
  exact_arith. exact_floor.
  pose proof (random_range (k + 1)). pose proof (random_range (k + 2)).
  pose proof (random_range (k + 3)). pose proof (random_range (k + 5)).
  pose proof (random_range (k + 6)).
  repeat split; try lra.
  - exists (floorZ (random_source (k + 0) * (50 * / 1)) + 10)%Z.
    rewrite plus_IZR. split; [lra |].
    pose proof (@random_index (k + 0) 50 ltac:(lia)) as H50.
    replace (IZR 50) with (50 * / 1) in H50 by lra. lia.
  - exists (floorZ (random_source (k + 4) * (180 * / 1))).
    split; [reflexivity |].
    pose proof (@random_index (k + 4) 180 ltac:(lia)) as H180.
    replace (IZR 180) with (180 * / 1) in H180 by lra. lia.
Qed.

(** X2: with random numbers in [0, 1), [generateRandomSettings] gives a
    whole size from 10 to 59, a roughness in [0, 0.8), a taper, a roundness
    and a hardness in [0.1, 1), a whole angle from 0 to 179 and a spacing
    in [0, 0.2); it draws seven random numbers and keeps the colour, the
    text settings and the eraser switch. *)
Theorem randomized_settings_range :
  forall (k : nat) (current : BrushSettings.t R),
    let s := fst (generateRandomSettings random_source k current) in
    (exists n : Z, BrushSettings.size s = IZR n /\ (10 <= n <= 59)%Z)
    /\ 0 <= BrushSettings.roughness s < 0.8
    /\ 0.1 <= BrushSettings.taper s < 1
    /\ 0.1 <= BrushSettings.roundness s < 1
    /\ (exists n : Z, BrushSettings.angle s = IZR n /\ (0 <= n <= 179)%Z)
    /\ 0.1 <= BrushSettings.hardness s < 1
    /\ 0 <= BrushSettings.spacing s < 0.2
    /\ snd (generateRandomSettings random_source k current) = (k + 7)%nat
    /\ BrushSettings.color s = BrushSettings.color current
    /\ BrushSettings.letterSpacing s = BrushSettings.letterSpacing current
    /\ BrushSettings.lineHeight s = BrushSettings.lineHeight current
    /\ BrushSettings.slant s = BrushSettings.slant current
    /\ BrushSettings.fontSize s = BrushSettings.fontSize current
    /\ BrushSettings.fontStyle s = BrushSettings.fontStyle current
    /\ BrushSettings.weightOption s = BrushSettings.weightOption current
    /\ BrushSettings.isEraser s = BrushSettings.isEraser current.
Proof.
  intros k current s.
  destruct (generateRandomSettings_range k current)
    as (H1 & H2 & H3 & H4 & H5 & H6 & H7).
  repeat split; try assumption; try apply H2; try apply H3; try apply H4;
    try apply H6; try apply H7.
Qed.

End GeneratorFacts.

(** ** [generateCreativeSettings] *)

(** On doubles the sums round: with the largest draw the sizes and several
    ratios land on the upper ends that exact arithmetic keeps out. *)
Lemma generateCreativeSettings_rounds_up (k : nat) :
  let c style :=
    fst (generateCreativeSettings (num := float) (fun _ => largestDraw) k
           style) in
  PrimFloat.ltb largestDraw 1 = true
  /\ Creative.size (c BRUSH) = 150%float
  /\ Creative.taper (c BRUSH) = 1%float
  /\ Creative.size (c PEN) = 70%float
  /\ Creative.roundness (c PEN) = 1%float
  /\ Creative.hardness (c PEN) = 1%float
  /\ Creative.size (c HAND) = 100%float
  /\ Creative.hardness (c HAND) = 1%float.
Proof. cbv zeta. repeat split; vm_compute; reflexivity. Qed.

Section CreativeFacts.

Variable random_source : nat -> R.
Hypothesis random_range : forall i, (0 <= random_source i < 1)%R.
Local Open Scope R_scope.

(** The ranges of [generateCreativeSettings], style by style. *)
Lemma generateCreativeSettings_range :
  forall (k : nat) (style : FontStyle),
    let c := fst (generateCreativeSettings random_source k style) in
    match style with
    | BRUSH =>
        0.3 <= Creative.roughness c < 0.9 /\ 80 <= Creative.size c < 150
        /\ 0.5 <= Creative.taper c < 1 /\ 0.1 <= Creative.hardness c < 0.7
        /\ 0.1 <= Creative.roundness c < 1
        /\ -0.2 <= Creative.slant c < 0.2
        /\ snd (generateCreativeSettings random_source k style) = (k + 14)%nat
    | PEN =>
        0 <= Creative.roughness c < 0.2 /\ 30 <= Creative.size c < 70
        /\ 0.1 <= Creative.taper c < 1 /\ 0.2 <= Creative.hardness c < 1
        /\ 0.8 <= Creative.roundness c < 1
        /\ -0.2 <= Creative.slant c < 0.2
        /\ snd (generateCreativeSettings random_source k style) = (k + 13)%nat
    | HAND =>
        0 <= Creative.roughness c < 0.5 /\ 50 <= Creative.size c < 100
        /\ 0.1 <= Creative.taper c < 1 /\ 0.2 <= Creative.hardness c < 1
        /\ 0.1 <= Creative.roundness c < 1
        /\ -0.3 <= Creative.slant c < 0.3
        /\ snd (generateCreativeSettings random_source k style) = (k + 12)%nat
    end
    /\ (exists n : Z, Creative.angle c = IZR n /\ (0 <= n <= 179)%Z)
    /\ (exists n : Z, Creative.letterSpacing c = IZR n /\ (-3 <= n <= 11)%Z)
    /\ 1 <= Creative.lineHeight c < 1.8
    /\ 0 <= Creative.spacing c < 0.15.
Proof.
  intros k style. cbv zeta.
  pose proof (random_range (k + 0)). pose proof (random_range (k + 1)).
  pose proof (random_range (k + 2)). pose proof (random_range (k + 4)).
  pose proof (random_range (k + 5)). pose proof (random_range (k + 6)).
  pose proof (random_range (k + 7)). pose proof (random_range (k + 8)).
  pose proof (random_range (k + 9)). pose proof (random_range (k + 10)).
  pose proof (random_range (k + 11)). pose proof (random_range (k + 12)).
  pose proof (random_range (k + 13)).
  assert (Hangle : exists n : Z,
             IZR (floorZ (random_source (k + 3) * (180 * / 1))) = IZR n
             /\ (0 <= n <= 179)%Z).
  { exists (floorZ (random_source (k + 3) * (180 * / 1))).
    split; [reflexivity |].
    pose proof (@random_index random_source random_range (k + 3) 180
                  ltac:(lia)) as H180.
    replace (IZR 180) with (180 * / 1) in H180 by lra. lia. }
  assert (Hletter : exists n : Z,
             IZR (floorZ ((random_source (k + 6) - 2 * / 10) * (15 * / 1)))
             = IZR n /\ (-3 <= n <= 11)%Z).
  { exists (floorZ ((random_source (k + 6) - 2 * / 10) * (15 * / 1))).
    split; [reflexivity |].
    assert (Hr : (-3 <= floorZ ((random_source (k + 6) - 2 * / 10)
                                  * (15 * / 1)) < 12)%Z).
    { apply floorZ_range. split; lra. }
    lia. }
  unfold generateCreativeSettings.
  destruct style; cbn [fst snd Creative.roughness Creative.taper
                       Creative.roundness Creative.angle Creative.hardness
                       Creative.spacing Creative.letterSpacing
                       Creative.lineHeight Creative.slant Creative.size];
    exact_arith; exact_floor;
    repeat match goal with
      | |- _ /\ _ => split
      end;
    try lra; try reflexivity; try exact Hangle; try exact Hletter.
Qed.


(** X3: the ranges of the Magic settings.  In exact arithmetic (real
    numbers: no rounding), with random numbers in [0, 1), the Magic
    settings of a font style lie in the ranges the code gives that style,
    the upper ends left out; the angle and the letter spacing are whole
    numbers, from 0 to 179 and from -3 to 11; the brush style draws 14
    random numbers, the pen style 13, the hand style 12.  On doubles the
    upper ends are reached: with every draw the largest double below 1,
    the brush style gets size 150 and taper 1, the pen style size 70,
    roundness 1 and hardness 1, the hand style size 100 and hardness 1. *)
Theorem creative_settings_range :
  forall (k : nat) (style : FontStyle),
    (let c := fst (generateCreativeSettings random_source k style) in
     match style with
     | BRUSH =>
         0.3 <= Creative.roughness c < 0.9 /\ 80 <= Creative.size c < 150
         /\ 0.5 <= Creative.taper c < 1 /\ 0.1 <= Creative.hardness c < 0.7
         /\ 0.1 <= Creative.roundness c < 1
         /\ -0.2 <= Creative.slant c < 0.2
         /\ snd (generateCreativeSettings random_source k style)
            = (k + 14)%nat
     | PEN =>
         0 <= Creative.roughness c < 0.2 /\ 30 <= Creative.size c < 70
         /\ 0.1 <= Creative.taper c < 1 /\ 0.2 <= Creative.hardness c < 1
         /\ 0.8 <= Creative.roundness c < 1
         /\ -0.2 <= Creative.slant c < 0.2
         /\ snd (generateCreativeSettings random_source k style)
            = (k + 13)%nat
     | HAND =>
         0 <= Creative.roughness c < 0.5 /\ 50 <= Creative.size c < 100
         /\ 0.1 <= Creative.taper c < 1 /\ 0.2 <= Creative.hardness c < 1
         /\ 0.1 <= Creative.roundness c < 1
         /\ -0.3 <= Creative.slant c < 0.3
         /\ snd (generateCreativeSettings random_source k style)
            = (k + 12)%nat
     end
     /\ (exists n : Z, Creative.angle c = IZR n /\ (0 <= n <= 179)%Z)
     /\ (exists n : Z,
           Creative.letterSpacing c = IZR n /\ (-3 <= n <= 11)%Z)
     /\ 1 <= Creative.lineHeight c < 1.8
     /\ 0 <= Creative.spacing c < 0.15)
    /\ (let c64 style :=
          fst (generateCreativeSettings (num := float)
                 (fun _ => largestDraw) k style) in
        PrimFloat.ltb largestDraw 1 = true
        /\ Creative.size (c64 BRUSH) = 150%float
        /\ Creative.taper (c64 BRUSH) = 1%float
        /\ Creative.size (c64 PEN) = 70%float
        /\ Creative.roundness (c64 PEN) = 1%float
        /\ Creative.hardness (c64 PEN) = 1%float
        /\ Creative.size (c64 HAND) = 100%float
        /\ Creative.hardness (c64 HAND) = 1%float).
Proof.
  intros k style. split.
  - apply generateCreativeSettings_range.
  - apply generateCreativeSettings_rounds_up.
Qed.

End CreativeFacts.

(** ** The modes and the presets of [App] *)

Section AppFacts.

Context {num : Type} {N : Number num} {F : Flooring num}.
Variable random_source : nat -> num.
Variable Number_toString : num -> string.

Let step := appStep random_source Number_toString.
Let steps := appSteps random_source Number_toString.
Let Act : Type := AppAction (num := num).

(** After the effects of a render, the settings of DRAW mode are
    remembered. *)
Lemma appStep_remembers (a : App.t num) (act : Act) :
  App.mode (step a act) = DRAW ->
  App.lastDrawSettings (step a act) = App.settings (step a act).
Proof.
  unfold step, appStep, syncLastDrawSettings.
  set (b := match act with SettingsChange s => _ | _ => _ end).
  destruct (App.mode b) eqn:Hmode; cbn [isGENERATE].
  - intros _. reflexivity.
  - rewrite Hmode. discriminate.
Qed.

(** In GENERATE mode nothing but the return to DRAW mode touches the mode
    or the remembered settings. *)
Lemma generate_step_keeps (a : App.t num) (act : Act) :
  App.mode a = GENERATE ->
  entersDraw act = false ->
  App.mode (step a act) = GENERATE
  /\ App.lastDrawSettings (step a act) = App.lastDrawSettings a.
Proof.
  intros Hmode Hact. unfold step, appStep.
  destruct act as [s | p | id | now name | | | text | | [|] |];
    try discriminate Hact;
    unfold syncLastDrawSettings, handleLoadPreset, handleDeletePreset,
      handleSavePreset, handleRandomize, handleReset, handleManualText,
      handleMagicSettings, handleModeChange, handleClearComplete,
      setSettings, setLastDrawSettings, setPresets;
    rewrite ?Hmode; cbn [isGENERATE];
    repeat match goal with
      | |- context [let (_, _) := ?x in _] => destruct x
      end;
    cbn [App.mode App.lastDrawSettings isGENERATE]; rewrite ?Hmode;
    cbn [isGENERATE App.mode App.lastDrawSettings]; auto.
Qed.

Lemma generate_steps_keep (acts : list Act) :
  forall a : App.t num,
    App.mode a = GENERATE ->
    forallb (fun act : Act => negb (entersDraw act)) acts = true ->
    App.mode (steps acts a) = GENERATE
    /\ App.lastDrawSettings (steps acts a) = App.lastDrawSettings a.
Proof.
  induction acts as [| act acts IH]; intros a Hmode Hacts.
  - auto.
  - cbn [forallb] in Hacts.
    apply andb_prop in Hacts. destruct Hacts as [Hact Hacts].
    apply negb_true_iff in Hact.
    destruct (generate_step_keeps a act Hmode Hact) as [Hm Hl].
    destruct (IH (step a act) Hm Hacts) as [Hm' Hl'].
    change (steps (act :: acts) a) with (steps acts (step a act)).
    split; [exact Hm' |]. rewrite Hl'. exact Hl.
Qed.

(** X5: the round trip of the modes.  From a state in DRAW mode whose
    settings are the remembered ones, as every render in DRAW mode leaves
    it: the switch to GENERATE mode, then whatever is done there (the
    sliders, Magic, Randomize, Reset, presets loaded, saved or deleted,
    text typed), then the switch back to DRAW mode give back the settings
    the drawing had. *)
Theorem mode_round_trip :
  forall (a : App.t num) (acts : list Act),
    App.mode a = DRAW ->
    App.lastDrawSettings a = App.settings a ->
    forallb (fun act : Act => negb (entersDraw act)) acts = true ->
    let a' := step (steps acts (step a (ModeChange GENERATE)))
                (ModeChange DRAW) in
    App.mode a' = DRAW
    /\ App.settings a' = App.settings a
    /\ App.lastDrawSettings a' = App.settings a.
Proof.
  intros a acts Hdraw Hrem Hacts a'.
  assert (Hgen : App.mode (step a (ModeChange GENERATE)) = GENERATE
                 /\ App.lastDrawSettings (step a (ModeChange GENERATE))
                    = App.lastDrawSettings a).
  { unfold step, appStep, handleModeChange, syncLastDrawSettings.
    cbn [App.mode isGENERATE App.lastDrawSettings]. auto. }
  destruct Hgen as [Hm Hl].
  destruct (generate_steps_keep acts _ Hm Hacts) as [Hm' Hl'].
  set (b := steps acts (step a (ModeChange GENERATE))) in *.
  assert (Hback : App.mode (step b (ModeChange DRAW)) = DRAW
                  /\ App.settings (step b (ModeChange DRAW))
                     = App.lastDrawSettings b
                  /\ App.lastDrawSettings (step b (ModeChange DRAW))
                     = App.lastDrawSettings b).
  { unfold step, appStep, handleModeChange, syncLastDrawSettings.
    cbn [App.mode isGENERATE App.settings App.lastDrawSettings
         setLastDrawSettings]. auto. }
  destruct Hback as (Hmb & Hsb & Hlb).
  split; [exact Hmb |]. unfold a'. rewrite Hsb, Hlb, Hl', Hl.
  split; exact Hrem.
Qed.

(** What the actions do to the list of presets. *)
Lemma step_presets (a : App.t num) (act : Act) :
  App.presets (step a act)
  = match act with
    | DeletePreset id =>
        filter (fun p => negb (String.eqb (Preset.id p) id)) (App.presets a)
    | SavePreset now name =>
        Preset.mk (Number_toString now) name (App.settings a)
        :: App.presets a
    | _ => App.presets a
    end.
Proof.
  unfold step, appStep.
  destruct act as [s | p | id | now name | | | text | | [|] |];
    unfold syncLastDrawSettings, handleLoadPreset, handleDeletePreset,
      handleSavePreset, handleRandomize, handleReset, handleManualText,
      handleMagicSettings, handleModeChange, handleClearComplete,
      setSettings, setLastDrawSettings, setPresets;
    repeat match goal with
      | |- context [let (_, _) := ?x in _] => destruct x
      | |- context [if ?b then _ else _] => destruct b
      end;
    reflexivity.
Qed.

Lemma steps_keep_preset (p : Preset.t num) (acts : list Act) :
  forall a : App.t num,
    In p (App.presets a) ->
    forallb (fun act : Act => negb (deletes (Preset.id p) act)) acts = true ->
    In p (App.presets (steps acts a)).
Proof.
  induction acts as [| act acts IH]; intros a Hin Hacts.
  - exact Hin.
  - cbn [forallb] in Hacts.
    apply andb_prop in Hacts. destruct Hacts as [Hact Hacts].
    change (steps (act :: acts) a) with (steps acts (step a act)).
    apply IH; [| exact Hacts].
    rewrite step_presets.
    destruct act; try exact Hin.
    + apply filter_In. split; [exact Hin |].
      cbn [deletes] in Hact. rewrite String.eqb_sym. exact Hact.
    + right. exact Hin.
Qed.

(** X6: a preset that was saved stays in the list, whatever is done, as
    long as no preset with its id is deleted; loading it brings back the
    settings it was saved from, in DRAW mode also as the settings to
    return to from GENERATE mode; and deleting its id leaves no preset
    with that id. *)
Theorem saved_preset_restores :
  forall (a : App.t num) (now : num) (name : string)
         (acts : list Act),
    let p := Preset.mk (Number_toString now) name (App.settings a) in
    forallb (fun act : Act => negb (deletes (Preset.id p) act)) acts = true ->
    let b := steps acts (step a (SavePreset now name)) in
    In p (App.presets b)
    /\ App.settings (step b (LoadPreset p)) = App.settings a
    /\ (App.mode b = DRAW ->
        App.lastDrawSettings (step b (LoadPreset p)) = App.settings a)
    /\ (forall q, In q (App.presets (step b (DeletePreset (Preset.id p)))) ->
                  Preset.id q <> Preset.id p).
Proof.
  intros a now name acts p Hacts b.
  split; [| split; [| split]]; cycle 3.
  - intros q Hq. rewrite step_presets in Hq. apply filter_In in Hq.
    destruct Hq as [_ Hq]. apply negb_true_iff in Hq.
    apply String.eqb_neq. exact Hq.
  - apply steps_keep_preset; [| exact Hacts].
    rewrite step_presets. left. reflexivity.
  - clearbody b.
    unfold step, appStep, handleLoadPreset, syncLastDrawSettings,
      setSettings, setLastDrawSettings.
    destruct (App.mode b) eqn:Hmode;
      cbn [isGENERATE App.mode App.settings App.lastDrawSettings
           Preset.settings p];
      rewrite ?Hmode; cbn [isGENERATE App.settings App.lastDrawSettings];
      reflexivity.
  - clearbody b. intro Hmode.
    unfold step, appStep, handleLoadPreset, syncLastDrawSettings,
      setSettings, setLastDrawSettings.
    rewrite Hmode.
    cbn [isGENERATE App.mode App.settings App.lastDrawSettings
         Preset.settings p].
    reflexivity.
Qed.

End AppFacts.

(** ** Sessions in exact arithmetic *)

Section ExactSession.

Context {M : MathLib R}.
Variable random_source : nat -> R.
Variable clock_source : nat -> R.
Local Open Scope R_scope.

Lemma drawEvents_returns (p : Props.t R) (events : list (Contact.t R)) :
  safeSettings (Props.settings p) ->
  forall c : CalligraphyCanvas.t R,
  exists c', drawEvents random_source clock_source p events c = Returns c'.
Proof.
  intros (Hsize & Htaper & Hround & Hspacing).
  induction events as [| ev rest IH]; intro c; cbn [drawEvents].
  - eauto.
  - unfold Date_now. cbv zeta.
    set (c1 := CalligraphyCanvas.mk _ _ _ _ _ _ _ _ _ _ _ _).
    cbn [CalligraphyCanvas.lastPointRef c1].
    destruct (CalligraphyCanvas.lastPointRef c) as [lp |]; [| apply IH].
    destruct (drawingInk c1) as [ink |] eqn:Hink.
    + match goal with
      | |- context [drawStroke _ _ _ ?q _] =>
          destruct (@drawStroke_safe M random_source (Props.settings p) lp q
                      ink Hsize Htaper Hround Hspacing)
            as (_ & ink' & Hrun & _)
      end.
      rewrite Hrun. apply IH.
    + cbn [drawStroke]. apply IH.
Qed.

(** X14: in exact arithmetic (real numbers: no rounding, no overflow, no
    NaN), with settings whose size, roundness and spacing are not negative
    and whose taper is at most 1, a pointer move always returns: the canvas
    does not raise and no stamping loop runs on, whatever the pointers, the
    coalesced events and the random numbers. *)
Theorem pointer_move_returns :
  forall (p : Props.t R) (e : PointerEvent.t R) (c : CalligraphyCanvas.t R),
    safeSettings (Props.settings p) ->
    exists c' v,
      handlePointerMove random_source clock_source p e c = Returns (c', v).
Proof.
  intros p e c Hsafe. unfold handlePointerMove. cbv zeta.
  repeat match goal with
    | |- context [drawEvents _ _ _ ?evs ?c1] =>
        let H := fresh "Hrun" in
        destruct (@drawEvents_returns p evs Hsafe c1) as [? H]; rewrite H
    | |- context [match ?x with _ => _ end] => destruct x
    end;
    eauto.
Qed.

(** X15: in exact arithmetic, the pinch gesture keeps the scale of the
    view between 0.5 and 5: a pointer move leaves the view state as it is
    or sets a scale in that range, and leaves the drawing layer and the
    history alone when it does. *)
Theorem pinch_scale_bounded :
  forall (p : Props.t R) (e : PointerEvent.t R) (c : CalligraphyCanvas.t R),
    match handlePointerMove random_source clock_source p e c with
    | Returns (c', v) | Throws (c', v) =>
        v = Props.viewState p
        \/ (0.5 <= ViewState.scale v <= 5
            /\ CalligraphyCanvas.studio c' = CalligraphyCanvas.studio c)
    | Diverges => True
    end.
Proof.
  intros p e c. unfold handlePointerMove. cbv zeta.
  destruct (CalligraphyCanvas.isGesturingRef (withPointers _ c)) eqn:Hg;
    match goal with
    | |- context [Map_values ?m] =>
        destruct (Map_values m) as [| p0 [| p1 [| p2 rest]]]
    end;
    try solve
      [ repeat match goal with
          | |- context [drawEvents ?a ?b ?q ?evs ?c1] =>
              destruct (drawEvents a b q evs c1)
          | |- context [match Props.mode ?q with _ => _ end] =>
              destruct (Props.mode q)
          | |- context [match CalligraphyCanvas.isDrawingRef ?c1 with
                        | _ => _ end] =>
              destruct (CalligraphyCanvas.isDrawingRef c1)
          end;
        solve [exact I | left; reflexivity] ].
  exact_arith.
  destruct (Exact.ltb _ _); [| left; reflexivity].
  destruct (CalligraphyCanvas.lastCenterRef _); [| left; reflexivity].
  right. cbn [ViewState.scale]. split; [| reflexivity].
  set (x := ViewState.scale (Props.viewState p) * _).
  unfold Rmin, Rmax.
  destruct (Rle_dec (5 * / 10) x), (Rle_dec _ (50 * / 10)); lra.
Qed.

(** X16: in exact arithmetic, [getCanvasPos] maps the rectangle of the
    canvas on the page onto the canvas in proportion: the point a fraction
    [u] across and [v] down the rectangle goes to the fraction [u] of the
    width and [v] of the height; with no canvas, or a rectangle without
    width or height, every point goes to the origin. *)
Theorem getCanvasPos_proportional :
  forall (b : CanvasBox.t R) (u v : R),
    (CanvasBox.rectWidth b <> 0 -> CanvasBox.rectHeight b <> 0 ->
     getCanvasPos (Some b)
       (CanvasBox.left b + u * CanvasBox.rectWidth b)
       (CanvasBox.top b + v * CanvasBox.rectHeight b)
     = XY.mk (u * CanvasBox.width b) (v * CanvasBox.height b))
    /\ (CanvasBox.rectWidth b = 0 \/ CanvasBox.rectHeight b = 0 ->
        forall x y, getCanvasPos (Some b) x y = XY.mk 0 0)
    /\ (forall x y, getCanvasPos (None (A := CanvasBox.t R)) x y = XY.mk 0 0).
Proof.
  intros b u v. unfold getCanvasPos. exact_arith.
  split; [| split].
  - intros Hw Hh. unfold Exact.eqb.
    destruct (Req_dec_T (CanvasBox.rectWidth b) (0 * / 1)); [lra |].
    destruct (Req_dec_T (CanvasBox.rectHeight b) (0 * / 1)); [lra |].
    cbn [orb]. f_equal; field; assumption.
  - intros Hzero x y. unfold Exact.eqb.
    destruct (Req_dec_T (CanvasBox.rectWidth b) (0 * / 1)) as [| Hw];
      [cbn [orb]; f_equal; lra |].
    destruct (Req_dec_T (CanvasBox.rectHeight b) (0 * / 1)) as [| Hh];
      [cbn [orb]; f_equal; lra |].
    exfalso. destruct Hzero; lra.
  - intros x y. f_equal; lra.
Qed.

End ExactSession.

(** ** The settings the application reaches *)

Section SafeSettings.

Variable random_source : nat -> R.
Hypothesis random_range : forall i, (0 <= random_source i < 1)%R.
Variable Number_toString : R -> string.
Local Open Scope R_scope.

Lemma factory_defaults_safe : safeSettings (FACTORY_DEFAULTS (num := R)).
Proof.
  unfold safeSettings, FACTORY_DEFAULTS. cbn. exact_arith. lra.
Qed.



End SafeSettings.

(** ** Undo, redo and Clear together *)

Section HistoryMoves.

Context {num : Type}.

Lemma performUndo_moves (s : Studio (num := num)) :
  drawingCanvas s <> None -> indexValid s ->
  performUndo s = s
  \/ (historyStepIndexRef (performUndo s) = historyStepIndexRef s - 1
      /\ showsIndex (performUndo s))%Z.
Proof.
  intros Hc [Hidx Hcap]. unfold performUndo.
  destruct (historyStepIndexRef s >? 0)%Z eqn:Hpos; [right | left; reflexivity].
  apply Z.gtb_lt in Hpos.
  destruct (drawingCanvas s) as [c |] eqn:Hcanvas; [| congruence].
  destruct (@item_valid _ (historyRef s) (historyStepIndexRef s - 1)%Z
              ltac:(lia)) as [st Hst].
  destruct (@restore_spec _ (historyStepIndexRef s - 1)%Z s c st Hcanvas Hst)
    as (Hlayer & _ & Hhist & Hi).
  split; [exact Hi |]. exists st. rewrite Hhist, Hi. auto.
Qed.

Lemma performRedo_moves (s : Studio (num := num)) :
  drawingCanvas s <> None -> indexValid s ->
  performRedo s = s
  \/ (historyStepIndexRef (performRedo s) = historyStepIndexRef s + 1
      /\ showsIndex (performRedo s))%Z.
Proof.
  intros Hc [Hidx Hcap]. unfold performRedo.
  destruct (historyStepIndexRef s <? Z.of_nat (List.length (historyRef s)) - 1)%Z
    eqn:Hlt; [right | left; reflexivity].
  apply Z.ltb_lt in Hlt.
  destruct (drawingCanvas s) as [c |] eqn:Hcanvas; [| congruence].
  destruct (@item_valid _ (historyRef s) (historyStepIndexRef s + 1)%Z
              ltac:(lia)) as [st Hst].
  destruct (@restore_spec _ (historyStepIndexRef s + 1)%Z s c st Hcanvas Hst)
    as (Hlayer & _ & Hhist & Hi).
  split; [exact Hi |]. exists st. rewrite Hhist, Hi. auto.
Qed.

(** One undo or redo: the history stays, the index stays valid, and the
    layer is left as it is or shows the step of the index. *)
Lemma move_keeps (s s0 : Studio (num := num)) (a : Action (num := num)) :
  isMove a = true ->
  drawingCanvas s <> None -> indexValid s ->
  historyRef s = historyRef s0 ->
  s = s0 \/ showsIndex s ->
  drawingCanvas (act s a) <> None /\ indexValid (act s a)
  /\ historyRef (act s a) = historyRef s0
  /\ (act s a = s0 \/ showsIndex (act s a)).
Proof.
  intros Hmove Hc Hv Hh Hs.
  destruct (@act_valid _ s a Hc Hv) as [Hc' Hv'].
  split; [exact Hc' |]. split; [exact Hv' |].
  destruct a as [w | |]; [discriminate Hmove | |]; cbn [act] in *.
  - split; [rewrite <- Hh; apply performUndo_frame |].
    destruct (performUndo_moves Hc Hv) as [Heq | [_ Hshow]].
    + rewrite Heq. exact Hs.
    + right. exact Hshow.
  - split; [rewrite <- Hh; apply performRedo_frame |].
    destruct (performRedo_moves Hc Hv) as [Heq | [_ Hshow]].
    + rewrite Heq. exact Hs.
    + right. exact Hshow.
Qed.

(** X7: undo and redo, in any number and order, never change the history
    nor take the index out of it; and once one of them has moved the
    index, the layer and its vector log are exactly the step of the
    index. *)
Theorem undo_redo_walk :
  forall (s : Studio (num := num)) (actions : list (Action (num := num))),
    drawingCanvas s <> None ->
    indexValid s ->
    forallb (@isMove num) actions = true ->
    let s' := fold_left act actions s in
    historyRef s' = historyRef s
    /\ indexValid s'
    /\ (s' = s \/ showsIndex s').
Proof.
  intros s actions Hc Hv Hmoves.
  assert (Hgen : forall t : Studio (num := num),
             drawingCanvas t <> None -> indexValid t ->
             historyRef t = historyRef s -> t = s \/ showsIndex t ->
             let t' := fold_left act actions t in
             historyRef t' = historyRef s /\ indexValid t'
             /\ (t' = s \/ showsIndex t')).
  { induction actions as [| a actions IH]; intros t Htc Htv Hth Hts.
    - cbn. auto.
    - cbn [forallb] in Hmoves. apply andb_prop in Hmoves.
      destruct Hmoves as [Ha Hrest].
      destruct (move_keeps (s := t) (s0 := s) a Ha Htc Htv Hth Hts)
        as (H1 & H2 & H3 & H4).
      cbn [fold_left]. apply IH; assumption. }
  apply Hgen; auto.
Qed.

(** X8: with the layer showing the step of the index, an undo followed by
    a redo, and a redo followed by an undo, give back the layer, its
    vector log and the index, whenever the first of the two moves. *)
Theorem undo_redo_inverse :
  forall s : Studio (num := num),
    drawingCanvas s <> None ->
    indexValid s ->
    showsIndex s ->
    (0 < historyStepIndexRef s ->
     layer (performRedo (performUndo s)) = layer s
     /\ historyStepIndexRef (performRedo (performUndo s))
        = historyStepIndexRef s)%Z
    /\ (historyStepIndexRef s < Z.of_nat (List.length (historyRef s)) - 1 ->
        layer (performUndo (performRedo s)) = layer s
        /\ historyStepIndexRef (performUndo (performRedo s))
           = historyStepIndexRef s)%Z.
Proof.
  intros s Hc Hv (st & Hst & Hlayer).
  pose proof (@act_valid _ s (Undo (num := num)) Hc Hv) as [Hcu Hvu].
  pose proof (@act_valid _ s (Redo (num := num)) Hc Hv) as [Hcr Hvr].
  cbn [act] in *.
  pose proof (performUndo_frame s) as (Hhu & Hiu & _).
  pose proof (performRedo_frame s) as (Hhr & Hir & _).
  split; intro Hmove.
  - apply Z.gtb_lt in Hmove. rewrite Hmove in Hiu.
    apply Z.gtb_lt in Hmove.
    destruct (performRedo_moves Hcu Hvu) as [Heq | [Hi (st' & Hst' & Hl')]].
    + exfalso. revert Heq. unfold performRedo at 1.
      destruct Hv as [Hidx _].
      replace (historyStepIndexRef (performUndo s) <?
               Z.of_nat (List.length (historyRef (performUndo s))) - 1)%Z
        with true by (symmetry; apply Z.ltb_lt; rewrite Hhu, Hiu; lia).
      intro Heq. apply (f_equal (@historyStepIndexRef num)) in Heq.
      destruct (drawingCanvas (performUndo s)) eqn:Hd; [| congruence].
      destruct (@item_valid _ (historyRef (performUndo s))
                  (historyStepIndexRef (performUndo s) + 1)%Z
                  ltac:(rewrite Hhu, Hiu; lia)) as [st2 Hst2].
      destruct (@restore_spec _ _ _ _ _ Hd Hst2) as (_ & _ & _ & Hi2).
      rewrite Hi2 in Heq. lia.
    + pose proof (performRedo_frame (performUndo s)) as (Hh2 & _ & _).
      rewrite Hi, Hiu. split; [| lia].
      rewrite Hl'. rewrite Hh2, Hhu, Hi, Hiu in Hst'.
      replace (historyStepIndexRef s - 1 + 1)%Z
        with (historyStepIndexRef s) in Hst' by lia.
      rewrite Hst in Hst'. injection Hst' as <-. symmetry. exact Hlayer.
  - apply Z.ltb_lt in Hmove. rewrite Hmove in Hir.
    apply Z.ltb_lt in Hmove.
    destruct (performUndo_moves Hcr Hvr) as [Heq | [Hi (st' & Hst' & Hl')]].
    + exfalso. revert Heq. unfold performUndo at 1.
      destruct Hv as [Hidx _].
      replace (historyStepIndexRef (performRedo s) >? 0)%Z
        with true by (symmetry; apply Z.gtb_lt; rewrite Hir; lia).
      intro Heq. apply (f_equal (@historyStepIndexRef num)) in Heq.
      destruct (drawingCanvas (performRedo s)) eqn:Hd; [| congruence].
      destruct (@item_valid _ (historyRef (performRedo s))
                  (historyStepIndexRef (performRedo s) - 1)%Z
                  ltac:(rewrite Hhr, Hir; lia)) as [st2 Hst2].
      destruct (@restore_spec _ _ _ _ _ Hd Hst2) as (_ & _ & _ & Hi2).
      rewrite Hi2 in Heq. lia.
    + pose proof (performUndo_frame (performRedo s)) as (Hh2 & _ & _).
      rewrite Hi, Hir. split; [| lia].
      rewrite Hl'. rewrite Hh2, Hhr, Hi, Hir in Hst'.
      replace (historyStepIndexRef s + 1 - 1)%Z
        with (historyStepIndexRef s) in Hst' by lia.
      rewrite Hst in Hst'. injection Hst' as <-. symmetry. exact Hlayer.
Qed.

(** X9: a save after undos drops the steps that were undone: the history
    is the steps up to the index followed by the new step, the index is on
    the new step, and a redo does nothing. *)
Theorem save_discards_redo :
  forall (s : Studio (num := num)) (n : nat) (w : Artwork (num := num)),
    drawingCanvas s <> None ->
    indexValid s ->
    (0 < n)%nat ->
    (Z.of_nat n <= historyStepIndexRef s)%Z ->
    let s' := act (undos n s) (Save w) in
    historyRef s'
    = firstn (Z.to_nat (historyStepIndexRef s - Z.of_nat n + 1)) (historyRef s)
      ++ [mkStep (fst w) (snd w)]
    /\ historyStepIndexRef s' = (historyStepIndexRef s - Z.of_nat n + 1)%Z
    /\ layer s' = Some w
    /\ performRedo s' = s'.
Proof.
  intros s n w Hc Hv Hn Hle s'.
  destruct (@undos_spec _ s Hc Hv n Hle) as (Hh & Hi & Hcu & _).
  assert (Hvu : indexValid (undos n s)).
  { destruct Hv as [Hidx Hcap]. split; rewrite Hh, ?Hi; lia. }
  destruct (paint_frame w (undos n s)) as (Hph & Hpi & Hps & Hpc).
  destruct (Hpc Hcu) as (c & Hc' & Hraster).
  assert (Hvp : indexValid (paint w (undos n s))).
  { destruct Hvu as [Hidx Hcap]. split; rewrite Hph, ?Hpi; lia. }
  pose proof (@saveHistory_spec _ (paint w (undos n s)) c Hc' Hvp) as Hsave.
  cbv zeta in Hsave. destruct Hsave as (Hsc & Hss & Hsh & Hlatest & Hvs).
  change (saveHistory (paint w (undos n s))) with s' in *.
  rewrite Hph, Hpi, Hh, Hi, Hps, Hraster in Hsh.
  set (kept := firstn _ (historyRef s)) in *.
  assert (Hlen : (Z.of_nat (List.length (kept ++ [mkStep (fst w) (snd w)]))
                  <= MAX_HISTORY)%Z).
  { rewrite length_app. cbn [List.length]. unfold kept.
    rewrite length_firstn. destruct Hv as [Hidx Hcap].
    unfold MAX_HISTORY in *. lia. }
  replace (Z.of_nat (List.length (kept ++ [mkStep (fst w) (snd w)]))
           >? MAX_HISTORY)%Z with false in Hsh
    by (symmetry; rewrite Z.gtb_ltb; apply Z.ltb_ge; exact Hlen).
  split; [exact Hsh |].
  assert (Hidx' : historyStepIndexRef s'
                  = (historyStepIndexRef s - Z.of_nat n + 1)%Z).
  { unfold atLatest in Hlatest. rewrite Hlatest, Hsh, length_app.
    cbn [List.length]. unfold kept. rewrite length_firstn.
    destruct Hv as [Hidx Hcap]. lia. }
  split; [exact Hidx' |]. split.
  - unfold layer. rewrite Hsc, Hss, Hps, Hraster. destruct w; reflexivity.
  - unfold performRedo. unfold atLatest in Hlatest. rewrite Hlatest.
    rewrite Z.ltb_irrefl. reflexivity.
Qed.

End HistoryMoves.

Section ClearFacts.

Context {num : Type}.

Lemma nth_error_tail {A} (l : list A) (n : nat) :
  nth_error (tl l) n = nth_error l (S n).
Proof. destruct l; [destruct n |]; reflexivity. Qed.

(** A save, then an undo: the layer shows the step the index was on
    before the save; a redo then shows what was saved. *)
Lemma save_then_undo (s : Studio (num := num)) (d : Context2D num)
    (st : HistoryStep (num := num)) :
  drawingCanvas s = Some d ->
  indexValid s ->
  item (historyRef s) (historyStepIndexRef s) = Some st ->
  let undone := performUndo (saveHistory s) in
  layer (saveHistory s) = Some (raster d, drawingSvgRef s)
  /\ layer undone = Some (imageData st, svgPaths st)
  /\ layer (performRedo undone) = Some (raster d, drawingSvgRef s).
Proof.
  intros Hd Hv Hst undone.
  pose proof (@saveHistory_spec _ s d Hd Hv) as Hsave.
  cbv zeta in Hsave. destruct Hsave as (Hsc & Hss & Hsh & Hlatest & Hvs).
  set (step := mkStep (raster d) (drawingSvgRef s)) in *.
  set (kept := firstn (Z.to_nat (historyStepIndexRef s + 1)) (historyRef s))
    in *.
  set (pushed := kept ++ [step]) in *.
  assert (Hkept : List.length kept = Z.to_nat (historyStepIndexRef s + 1)).
  { unfold kept. rewrite length_firstn. destruct Hv as [Hidx Hcap]. lia. }
  assert (Hkept_item : forall i, (0 <= i <= historyStepIndexRef s)%Z ->
                                 item kept i = item (historyRef s) i).
  { intros i Hi. unfold item.
    replace (i <? 0)%Z with false by (symmetry; apply Z.ltb_ge; lia).
    unfold kept. rewrite nth_error_firstn.
    replace (Z.to_nat i <? Z.to_nat (historyStepIndexRef s + 1))%nat
      with true by (symmetry; apply Nat.ltb_lt; lia).
    reflexivity. }
  set (s1 := saveHistory s) in *.
  assert (Hc1 : drawingCanvas s1 <> None) by (rewrite Hsc; discriminate).
  assert (Hlayer1 : layer s1 = Some (raster d, drawingSvgRef s)).
  { unfold layer. rewrite Hsc, Hss. reflexivity. }
  assert (Hlen1 : (2 <= List.length (historyRef s1))%nat
                  /\ item (historyRef s1) (historyStepIndexRef s1 - 1)
                     = Some st
                  /\ item (historyRef s1) (historyStepIndexRef s1)
                     = Some step).
  { unfold atLatest in Hlatest. rewrite Hlatest, Hsh.
    assert (Hpl : List.length pushed = S (List.length kept)).
    { unfold pushed. rewrite length_app. cbn. lia. }
    destruct Hv as [Hidx Hcap].
    destruct (Z.of_nat (List.length pushed) >? MAX_HISTORY)%Z eqn:Hfull.
    - apply Z.gtb_lt in Hfull. unfold MAX_HISTORY in *.
      assert (Hk20 : List.length kept = 20%nat) by lia.
      assert (Hi19 : historyStepIndexRef s = 19%Z) by lia.
      assert (Htl : List.length (tl pushed) = 20%nat).
      { destruct pushed; cbn in *; lia. }
      rewrite Htl. split; [lia |].
      assert (Hst19 : nth_error (historyRef s) 19 = Some st).
      { rewrite Hi19 in Hst. exact Hst. }
      assert (Hk19 : nth_error kept 19 = nth_error (historyRef s) 19).
      { apply (Hkept_item 19%Z). lia. }
      change (item (tl pushed) (Z.of_nat 20 - 1 - 1))
        with (nth_error (tl pushed) 18).
      change (item (tl pushed) (Z.of_nat 20 - 1))
        with (nth_error (tl pushed) 19).
      rewrite !nth_error_tail. unfold pushed. split.
      + rewrite nth_error_app1 by lia. rewrite Hk19. exact Hst19.
      + rewrite nth_error_app2 by lia. rewrite Hk20. reflexivity.
    - rewrite Z.gtb_ltb in Hfull. apply Z.ltb_ge in Hfull.
      rewrite Hpl. split; [lia |]. unfold item.
      replace (Z.of_nat (S (List.length kept)) - 1 - 1 <? 0)%Z with false
        by (symmetry; apply Z.ltb_ge; lia).
      replace (Z.of_nat (S (List.length kept)) - 1 <? 0)%Z with false
        by (symmetry; apply Z.ltb_ge; lia).
      unfold pushed. split.
      + rewrite nth_error_app1 by lia.
        pose proof (Hkept_item (historyStepIndexRef s) ltac:(lia)) as Hk.
        unfold item in Hk.
        replace (historyStepIndexRef s <? 0)%Z with false in Hk
          by (symmetry; apply Z.ltb_ge; lia).
        replace (Z.to_nat (Z.of_nat (S (List.length kept)) - 1 - 1))
          with (Z.to_nat (historyStepIndexRef s)) by lia.
        rewrite Hk. unfold item in Hst.
        replace (historyStepIndexRef s <? 0)%Z with false in Hst
          by (symmetry; apply Z.ltb_ge; lia).
        exact Hst.
      + rewrite nth_error_app2 by lia.
        replace (Z.to_nat (Z.of_nat (S (List.length kept)) - 1)
                 - List.length kept)%nat with 0%nat by lia.
        reflexivity. }
  destruct Hlen1 as (Hlen & Hbelow & Hat).
  assert (Hpos : (historyStepIndexRef s1 >? 0)%Z = true).
  { apply Z.gtb_lt. unfold atLatest in Hlatest. lia. }
  destruct (drawingCanvas s1) as [d1 |] eqn:Hd1; [| congruence].
  destruct (@restore_spec _ (historyStepIndexRef s1 - 1)%Z s1 d1 st Hd1 Hbelow)
    as (Hl2 & Hc2 & Hh2 & Hi2).
  assert (Hundo : undone = restore (historyStepIndexRef s1 - 1) s1).
  { unfold undone, performUndo. rewrite Hpos. reflexivity. }
  split; [exact Hlayer1 |]. split; [rewrite Hundo; exact Hl2 |].
  rewrite Hundo. unfold performRedo. rewrite Hh2, Hi2.
  replace (historyStepIndexRef s1 - 1 <?
           Z.of_nat (List.length (historyRef s1)) - 1)%Z with true
    by (symmetry; apply Z.ltb_lt; unfold atLatest in Hlatest; lia).
  destruct (drawingCanvas (restore (historyStepIndexRef s1 - 1) s1))
    as [d2 |] eqn:Hd2; [| congruence].
  replace (historyStepIndexRef s1 - 1 + 1)%Z with (historyStepIndexRef s1)
    by lia.
  assert (Hat' : item (historyRef (restore (historyStepIndexRef s1 - 1) s1))
                   (historyStepIndexRef s1) = Some step)
    by (rewrite Hh2; exact Hat).
  destruct (@restore_spec _ (historyStepIndexRef s1) _ d2 _ Hd2 Hat')
    as (Hl3 & _).
  exact Hl3.
Qed.

(** X10: Clear can be undone.  With the drawing canvas there and the
    index on a step of the history, Clear empties both layers and their
    logs and cancels the text animation; an undo then brings back the
    step the index was on, and a redo empties the drawing layer again. *)
Theorem clear_is_undoable :
  forall (c : CalligraphyCanvas.t num) (st : HistoryStep (num := num)),
    drawingCanvas (CalligraphyCanvas.studio c) <> None ->
    indexValid (CalligraphyCanvas.studio c) ->
    item (historyRef (CalligraphyCanvas.studio c))
      (historyStepIndexRef (CalligraphyCanvas.studio c)) = Some st ->
    let cleared := clearEffect c in
    let undone := performUndo (CalligraphyCanvas.studio cleared) in
    layer (CalligraphyCanvas.studio cleared) = Some ([], [])
    /\ CalligraphyCanvas.textSvgRef cleared
       = match CalligraphyCanvas.textCanvas c with
         | Some _ => []
         | None => CalligraphyCanvas.textSvgRef c
         end
    /\ match CalligraphyCanvas.textCanvas cleared with
       | Some t => raster t = []
       | None => CalligraphyCanvas.textCanvas c = None
       end
    /\ CalligraphyCanvas.pendingFrame cleared = None
    /\ layer undone = Some (imageData st, svgPaths st)
    /\ layer (performRedo undone) = Some ([], []).
Proof.
  intros c st Hc Hv Hst cleared undone.
  destruct (drawingCanvas (CalligraphyCanvas.studio c)) as [d |] eqn:Hd;
    [| congruence].
  set (s0 := CalligraphyCanvas.studio c) in *.
  set (blank := mkStudio (Some (clearRect d)) [] (historyRef s0)
                  (historyStepIndexRef s0)).
  assert (Hstudio : CalligraphyCanvas.studio cleared = saveHistory blank).
  { unfold cleared, clearEffect.
    destruct (CalligraphyCanvas.textCanvas c); cbn; fold s0; rewrite Hd;
      reflexivity. }
  assert (Htext : CalligraphyCanvas.textSvgRef cleared
                  = match CalligraphyCanvas.textCanvas c with
                    | Some _ => []
                    | None => CalligraphyCanvas.textSvgRef c
                    end
                  /\ match CalligraphyCanvas.textCanvas cleared with
                     | Some t => raster t = []
                     | None => CalligraphyCanvas.textCanvas c = None
                     end
                  /\ CalligraphyCanvas.pendingFrame cleared = None).
  { unfold cleared, clearEffect.
    destruct (CalligraphyCanvas.textCanvas c) eqn:Ht; cbn; fold s0;
      rewrite Hd; cbn; rewrite ?Ht; auto. }
  destruct Htext as (Ht1 & Ht2 & Ht3).
  assert (Hvb : indexValid blank) by exact Hv.
  destruct (@save_then_undo blank (clearRect d) st eq_refl Hvb Hst)
    as (H1 & H2 & H3).
  unfold undone. rewrite Hstudio.
  repeat split; assumption.
Qed.

End ClearFacts.

(** ** The pointer handlers *)

Section PointerFacts.

Context {num : Type} {N : Number num} {M : MathLib num}.
Context {F : Flooring num} {Ix : Indexing num}.
Variable random_source : nat -> num.
Variable clock_source : nat -> num.
Variable engine : nat -> SortRun.


Lemma sameSession_refl (c : CalligraphyCanvas.t num) : sameSession c c.
Proof. unfold sameSession. repeat split; auto. Qed.

Lemma sameSession_trans (c1 c2 c3 : CalligraphyCanvas.t num) :
  sameSession c1 c2 -> sameSession c2 c3 -> sameSession c1 c3.
Proof.
  unfold sameSession.
  intros (A1 & A2 & A3 & A4 & A5 & A6 & A7 & A8 & A9)
         (B1 & B2 & B3 & B4 & B5 & B6 & B7 & B8 & B9).
  repeat split; try congruence. auto.
Qed.

Lemma withDrawing_same (drawing : option (Ink num))
    (c : CalligraphyCanvas.t num) :
  sameSession c (withDrawing drawing c).
Proof.
  destruct drawing as [ink |]; [| apply sameSession_refl].
  unfold sameSession, withDrawing. cbn. repeat split; auto. discriminate.
Qed.

Lemma drawEvents_same (p : Props.t num) (events : list (Contact.t num)) :
  forall c : CalligraphyCanvas.t num,
    match drawEvents random_source clock_source p events c with
    | Returns c' | Throws c' => sameSession c c'
    | Diverges => True
    end.
Proof.
  induction events as [| ev rest IH]; intro c; cbn [drawEvents].
  - apply sameSession_refl.
  - unfold Date_now. cbv zeta.
    set (c1 := CalligraphyCanvas.mk _ _ _ _ _ _ _ _ _ _ _ _).
    assert (H1 : sameSession c c1)
      by (unfold sameSession, c1; cbn; repeat split; auto).
    cbn [CalligraphyCanvas.lastPointRef c1].
    destruct (CalligraphyCanvas.lastPointRef c) as [lp |].
    + destruct (drawStroke _ _ _ _ _) as [drawing | drawing |].
      * set (c2 := withStroke _ _ _).
        assert (H2 : sameSession c1 c2).
        { destruct drawing as [ink |];
            unfold sameSession, c2, withStroke, withDrawing; cbn;
            repeat split; auto; discriminate. }
        specialize (IH c2).
        destruct (drawEvents _ _ _ _ c2); auto;
          eapply sameSession_trans; eauto;
          eapply sameSession_trans; eauto.
      * eapply sameSession_trans; [exact H1 | apply withDrawing_same].
      * exact I.
    + set (c2 := withStroke _ _ _).
      assert (H2 : sameSession c1 c2)
        by (unfold sameSession, c2, withStroke; cbn; repeat split; auto).
      specialize (IH c2).
      destruct (drawEvents _ _ _ _ c2); auto;
        eapply sameSession_trans; eauto;
        eapply sameSession_trans; eauto.
Qed.

(** The session never ends on a raise: the page goes on. *)
Lemma handleAll_app (l1 l2 : list (Event (num := num))) :
  forall c : CalligraphyCanvas.t num,
    handleAll random_source clock_source engine (l1 ++ l2) c
    = match handleAll random_source clock_source engine l1 c with
      | Returns c' | Throws c' =>
          handleAll random_source clock_source engine l2 c'
      | Diverges => Diverges
      end.
Proof.
  induction l1 as [| ev l1 IH]; intro c.
  - reflexivity.
  - cbn [app]. cbn [handleAll].
    destruct (handle _ _ _ ev c); auto.
Qed.

Lemma handleAll_no_throw (l : list (Event (num := num))) :
  forall c c' : CalligraphyCanvas.t num,
    handleAll random_source clock_source engine l c <> Throws c'.
Proof.
  induction l as [| ev l IH]; intros c c';
    cbn [handleAll].
  - discriminate.
  - destruct (handle _ _ _ ev c); try apply IH. discriminate.
Qed.

(** A move while no stroke is drawn. *)
Lemma move_idle (p : Props.t num) (e : PointerEvent.t num)
    (c : CalligraphyCanvas.t num) :
  CalligraphyCanvas.isDrawingRef c = false ->
  exists c' v,
    handlePointerMove random_source clock_source p e c = Returns (c', v)
    /\ CalligraphyCanvas.studio c' = CalligraphyCanvas.studio c
    /\ CalligraphyCanvas.textCanvas c' = CalligraphyCanvas.textCanvas c
    /\ CalligraphyCanvas.textSvgRef c' = CalligraphyCanvas.textSvgRef c
    /\ CalligraphyCanvas.randoms c' = CalligraphyCanvas.randoms c
    /\ CalligraphyCanvas.isDrawingRef c' = false.
Proof.
  intro Hidle. unfold handlePointerMove. cbv zeta.
  cbn [withPointers CalligraphyCanvas.isGesturingRef
       CalligraphyCanvas.activePointers CalligraphyCanvas.isDrawingRef
       CalligraphyCanvas.lastDistRef CalligraphyCanvas.lastCenterRef].
  rewrite Hidle.
  repeat match goal with
    | |- context [match ?x with _ => _ end] => destruct x
    end;
    eexists; eexists; (split; [reflexivity |]); cbn; auto.
Qed.

(** An up while no stroke is drawn. *)
Lemma up_idle (e : PointerEvent.t num) (c : CalligraphyCanvas.t num) :
  CalligraphyCanvas.isDrawingRef c = false ->
  CalligraphyCanvas.studio (handlePointerUp e c) = CalligraphyCanvas.studio c
  /\ CalligraphyCanvas.textCanvas (handlePointerUp e c)
     = CalligraphyCanvas.textCanvas c
  /\ CalligraphyCanvas.textSvgRef (handlePointerUp e c)
     = CalligraphyCanvas.textSvgRef c
  /\ CalligraphyCanvas.randoms (handlePointerUp e c)
     = CalligraphyCanvas.randoms c
  /\ CalligraphyCanvas.isDrawingRef (handlePointerUp e c) = false.
Proof.
  intro Hidle. unfold handlePointerUp. cbv zeta.
  cbn [withPointers CalligraphyCanvas.activePointers].
  destruct (_ <? 2)%nat;
    cbn [withGesture withPointers CalligraphyCanvas.isDrawingRef];
    rewrite Hidle, andb_false_r; cbn; auto.
Qed.

Lemma idle_session (events : list (Event (num := num))) :
  forall c : CalligraphyCanvas.t num,
    forallb (@isMoveOrUp num) events = true ->
    CalligraphyCanvas.isDrawingRef c = false ->
    exists c',
      handleAll random_source clock_source engine events c = Returns c'
      /\ CalligraphyCanvas.studio c' = CalligraphyCanvas.studio c
      /\ CalligraphyCanvas.textCanvas c' = CalligraphyCanvas.textCanvas c
      /\ CalligraphyCanvas.textSvgRef c' = CalligraphyCanvas.textSvgRef c
      /\ CalligraphyCanvas.randoms c' = CalligraphyCanvas.randoms c
      /\ CalligraphyCanvas.isDrawingRef c' = false.
Proof.
  induction events as [| ev events IH]; intros c Hevents Hidle.
  - exists c. repeat split; auto.
  - cbn [forallb] in Hevents. apply andb_prop in Hevents.
    destruct Hevents as [Hev Hevents].
    cbn [handleAll].
    destruct ev as [p e | p e | e | | | | p t f |]; try discriminate Hev;
      cbn [handle].
    + destruct (move_idle p e c Hidle) as (c1 & v & Hrun & H1 & H2 & H3 & H4 & H5).
      rewrite Hrun.
      destruct (IH c1 Hevents H5) as (c' & Hrun' & G1 & G2 & G3 & G4 & G5).
      exists c'. split; [exact Hrun' |]. repeat split; congruence.
    + destruct (up_idle e c Hidle) as (H1 & H2 & H3 & H4 & H5).
      destruct (IH _ Hevents H5) as (c' & Hrun' & G1 & G2 & G3 & G4 & G5).
      exists c'. split; [exact Hrun' |]. repeat split; congruence.
Qed.

(** X11: pointer moves and ups while no stroke is being drawn never touch
    the layers, their logs or the history, and draw no random number; and
    the pointer down that makes two active pointers ends the stroke that
    was being drawn without saving it, so that no move or up that follows
    saves or paints. *)
Theorem idle_pointers_never_paint :
  forall (c : CalligraphyCanvas.t num) (events : list (Event (num := num))),
    forallb (@isMoveOrUp num) events = true ->
    (CalligraphyCanvas.isDrawingRef c = false ->
     exists c',
       handleAll random_source clock_source engine events c = Returns c'
       /\ CalligraphyCanvas.studio c' = CalligraphyCanvas.studio c
       /\ CalligraphyCanvas.textCanvas c' = CalligraphyCanvas.textCanvas c
       /\ CalligraphyCanvas.textSvgRef c' = CalligraphyCanvas.textSvgRef c
       /\ CalligraphyCanvas.randoms c' = CalligraphyCanvas.randoms c
       /\ CalligraphyCanvas.isDrawingRef c' = false)
    /\ (forall (p : Props.t num) (e : PointerEvent.t num),
          List.length (Map_set (PointerEvent.pointerId e) e
                         (CalligraphyCanvas.activePointers c)) = 2%nat ->
          exists c',
            handleAll random_source clock_source engine
              (PointerDown p e :: events) c = Returns c'
            /\ CalligraphyCanvas.studio c' = CalligraphyCanvas.studio c
            /\ CalligraphyCanvas.textCanvas c' = CalligraphyCanvas.textCanvas c
            /\ CalligraphyCanvas.textSvgRef c' = CalligraphyCanvas.textSvgRef c
            /\ CalligraphyCanvas.randoms c' = CalligraphyCanvas.randoms c
            /\ CalligraphyCanvas.isDrawingRef c' = false
            /\ CalligraphyCanvas.lastPointRef
                 (handlePointerDown clock_source p e c) = None).
Proof.
  intros c events Hevents. split.
  - intro Hidle. apply idle_session; assumption.
  - intros p e Htwo.
    set (c1 := handlePointerDown clock_source p e c).
    assert (H1 : CalligraphyCanvas.studio c1 = CalligraphyCanvas.studio c
                 /\ CalligraphyCanvas.textCanvas c1
                    = CalligraphyCanvas.textCanvas c
                 /\ CalligraphyCanvas.textSvgRef c1
                    = CalligraphyCanvas.textSvgRef c
                 /\ CalligraphyCanvas.randoms c1 = CalligraphyCanvas.randoms c
                 /\ CalligraphyCanvas.isDrawingRef c1 = false
                 /\ CalligraphyCanvas.lastPointRef c1 = None).
    { unfold c1, handlePointerDown. cbv zeta.
      cbn [withPointers CalligraphyCanvas.activePointers].
      unfold Map_values.
      destruct (Map_set _ e _) as [| kv0 [| kv1 [| kv2 rest]]];
        try discriminate Htwo.
      cbn. repeat split; reflexivity. }
    destruct H1 as (A1 & A2 & A3 & A4 & A5 & A6).
    destruct (idle_session events c1 Hevents A5)
      as (c' & Hrun & G1 & G2 & G3 & G4 & G5).
    exists c'. cbn [handleAll handle].
    fold c1. split; [exact Hrun |]. repeat split; congruence.
Qed.

(** A move of the one pointer of a stroke. *)
Lemma move_drawing (p : Props.t num) (e e0 : PointerEvent.t num)
    (c : CalligraphyCanvas.t num) :
  CalligraphyCanvas.activePointers c = [(PointerEvent.pointerId e, e0)] ->
  CalligraphyCanvas.isDrawingRef c = true ->
  match handle random_source clock_source engine (PointerMove p e) c with
  | Returns c' | Throws c' =>
      CalligraphyCanvas.activePointers c' = [(PointerEvent.pointerId e, e)]
      /\ CalligraphyCanvas.isDrawingRef c' = true
      /\ historyRef (CalligraphyCanvas.studio c')
         = historyRef (CalligraphyCanvas.studio c)
      /\ historyStepIndexRef (CalligraphyCanvas.studio c')
         = historyStepIndexRef (CalligraphyCanvas.studio c)
      /\ (drawingCanvas (CalligraphyCanvas.studio c) <> None ->
          drawingCanvas (CalligraphyCanvas.studio c') <> None)
  | Diverges => True
  end.
Proof.
  intros Hone Hdrawing. cbn [handle].
  unfold handlePointerMove. cbv zeta.
  cbn [withPointers CalligraphyCanvas.isGesturingRef
       CalligraphyCanvas.activePointers CalligraphyCanvas.isDrawingRef].
  rewrite Hone. cbn [Map_set]. rewrite Z.eqb_refl. cbn [Map_values map snd].
  rewrite Hdrawing.
  set (c1 := withPointers _ c).
  assert (H1 : CalligraphyCanvas.activePointers c1
               = [(PointerEvent.pointerId e, e)]
               /\ CalligraphyCanvas.isDrawingRef c1 = true
               /\ historyRef (CalligraphyCanvas.studio c1)
                  = historyRef (CalligraphyCanvas.studio c)
               /\ historyStepIndexRef (CalligraphyCanvas.studio c1)
                  = historyStepIndexRef (CalligraphyCanvas.studio c)
               /\ CalligraphyCanvas.studio c1 = CalligraphyCanvas.studio c).
  { unfold c1, withPointers. cbn. auto. }
  destruct H1 as (A1 & A2 & A3 & A4 & A5).
  assert (Hkeep : forall events,
             match drawEvents random_source clock_source p events c1 with
             | Returns c' | Throws c' =>
                 CalligraphyCanvas.activePointers c'
                 = [(PointerEvent.pointerId e, e)]
                 /\ CalligraphyCanvas.isDrawingRef c' = true
                 /\ historyRef (CalligraphyCanvas.studio c')
                    = historyRef (CalligraphyCanvas.studio c)
                 /\ historyStepIndexRef (CalligraphyCanvas.studio c')
                    = historyStepIndexRef (CalligraphyCanvas.studio c)
                 /\ (drawingCanvas (CalligraphyCanvas.studio c) <> None ->
                     drawingCanvas (CalligraphyCanvas.studio c') <> None)
             | Diverges => True
             end).
  { intro events. pose proof (drawEvents_same p events c1) as Hsame.
    destruct (drawEvents _ _ _ _ c1); auto;
      destruct Hsame as (B1 & B2 & _ & B4 & B5 & B6 & _);
      rewrite A5 in B6;
      (split; [congruence |]); (split; [congruence |]);
      (split; [congruence |]); (split; [congruence |]); exact B6. }
  destruct (CalligraphyCanvas.isGesturingRef c), (Props.mode p);
    try (repeat split; try assumption; rewrite A5; auto);
    match goal with
    | |- context [drawEvents _ _ _ ?evs c1] =>
        specialize (Hkeep evs);
        destruct (drawEvents random_source clock_source p evs c1); auto
    end.
Qed.

Lemma stroke_moves (id : Z) (moves : list (Props.t num * PointerEvent.t num)) :
  forall (c : CalligraphyCanvas.t num) (e0 : PointerEvent.t num),
    forallb (fun pe => (PointerEvent.pointerId (snd pe) =? id)%Z) moves = true ->
    CalligraphyCanvas.activePointers c = [(id, e0)] ->
    CalligraphyCanvas.isDrawingRef c = true ->
    match handleAll random_source clock_source engine (pointerMoves moves) c
    with
    | Returns c' =>
        (exists e1, CalligraphyCanvas.activePointers c' = [(id, e1)])
        /\ CalligraphyCanvas.isDrawingRef c' = true
        /\ historyRef (CalligraphyCanvas.studio c')
           = historyRef (CalligraphyCanvas.studio c)
        /\ historyStepIndexRef (CalligraphyCanvas.studio c')
           = historyStepIndexRef (CalligraphyCanvas.studio c)
        /\ (drawingCanvas (CalligraphyCanvas.studio c) <> None ->
            drawingCanvas (CalligraphyCanvas.studio c') <> None)
    | Throws _ => False
    | Diverges => True
    end.
Proof.
  induction moves as [| [p e] moves IH]; intros c e0 Hids Hone Hdrawing.
  - cbn. repeat split; eauto.
  - cbn [forallb snd] in Hids. apply andb_prop in Hids.
    destruct Hids as [Hid Hids]. apply Z.eqb_eq in Hid. subst id.
    pose proof (@move_drawing p e e0 c Hone Hdrawing) as Hmove.
    cbn [pointerMoves map fst snd handleAll].
    destruct (handle _ _ _ (PointerMove p e) c) as [c1 | c1 |];
      [| | exact I];
      destruct Hmove as (A1 & A2 & A3 & A4 & A5);
      specialize (@IH c1 e Hids A1 A2);
      fold (pointerMoves moves);
      destruct (handleAll _ _ _ (pointerMoves moves) c1); auto;
      destruct IH as (B1 & B2 & B3 & B4 & B5);
      (split; [exact B1 |]); (split; [exact B2 |]);
      (split; [congruence |]); (split; [congruence |]); auto.
Qed.

(** The run of one stroke. *)
Lemma stroke_run :
  forall (c0 : CalligraphyCanvas.t num) (p : Props.t num)
         (e eUp : PointerEvent.t num)
         (moves : list (Props.t num * PointerEvent.t num)),
    CalligraphyCanvas.activePointers c0 = [] ->
    Props.mode p = DRAW ->
    forallb (fun pe => (PointerEvent.pointerId (snd pe)
                        =? PointerEvent.pointerId e)%Z) moves = true ->
    PointerEvent.pointerId eUp = PointerEvent.pointerId e ->
    match handleAll random_source clock_source engine
            (PointerDown p e :: pointerMoves moves ++ [PointerUp eUp]) c0
    with
    | Returns cF =>
        exists cM,
          handleAll random_source clock_source engine
            (PointerDown p e :: pointerMoves moves) c0 = Returns cM
          /\ historyRef (CalligraphyCanvas.studio cM)
             = historyRef (CalligraphyCanvas.studio c0)
          /\ historyStepIndexRef (CalligraphyCanvas.studio cM)
             = historyStepIndexRef (CalligraphyCanvas.studio c0)
          /\ (drawingCanvas (CalligraphyCanvas.studio c0) <> None ->
              drawingCanvas (CalligraphyCanvas.studio cM) <> None)
          /\ CalligraphyCanvas.studio cF
             = saveHistory (CalligraphyCanvas.studio cM)
          /\ CalligraphyCanvas.isDrawingRef cF = false
          /\ CalligraphyCanvas.lastPointRef cF = None
          /\ CalligraphyCanvas.activePointers cF = []
    | Throws _ => False
    | Diverges => True
    end.
Proof.
  intros c0 p e eUp moves Hnone Hdraw Hids Hup.
  set (c1 := handlePointerDown clock_source p e c0).
  assert (H1 : CalligraphyCanvas.activePointers c1
               = [(PointerEvent.pointerId e, e)]
               /\ CalligraphyCanvas.isDrawingRef c1 = true
               /\ CalligraphyCanvas.studio c1 = CalligraphyCanvas.studio c0).
  { unfold c1, handlePointerDown. cbv zeta.
    cbn [withPointers CalligraphyCanvas.activePointers].
    rewrite Hnone. cbn [Map_set Map_values map snd]. rewrite Hdraw.
    cbn. auto. }
  destruct H1 as (A1 & A2 & A3).
  pose proof (@stroke_moves _ moves c1 _ Hids A1 A2) as Hmoves.
  change (PointerDown p e :: pointerMoves moves ++ [PointerUp eUp])
    with ((PointerDown p e :: pointerMoves moves) ++ [PointerUp eUp]).
  rewrite handleAll_app.
  assert (Hdown : handleAll random_source clock_source engine
                    (PointerDown p e :: pointerMoves moves) c0
                  = handleAll random_source clock_source engine
                      (pointerMoves moves) c1) by reflexivity.
  rewrite Hdown.
  destruct (handleAll random_source clock_source engine (pointerMoves moves)
              c1) as [cM | cM |];
    [| contradiction | exact I].
  destruct Hmoves as ((e1 & B1) & B2 & B3 & B4 & B5).
  cbn [handleAll handle].
  exists cM. split; [reflexivity |].
  rewrite A3 in B3, B4, B5. split; [exact B3 |]. split; [exact B4 |].
  split; [exact B5 |].
  unfold handlePointerUp. cbv zeta.
  cbn [withPointers CalligraphyCanvas.activePointers].
  rewrite B1, Hup. unfold Map_delete. cbn [filter fst]. rewrite Z.eqb_refl.
  cbn [negb List.length Nat.ltb Nat.leb Nat.eqb andb].
  unfold withGesture, withPointers.
  cbn [CalligraphyCanvas.isDrawingRef].
  rewrite B2. cbn. repeat split; reflexivity.
Qed.


(** X12: one stroke, one step.  With no pointer active, a pointer down in
    DRAW mode, then moves of that pointer (whatever their coalesced
    events, and whether or not the canvas raised during some of them),
    then its up: unless a stamping loop runs on for ever, the session
    returns with the history as one [saveHistory] leaves it, called once,
    at the end, on the history the stroke started from; and the stroke is
    over. *)
Theorem one_stroke_one_step :
  forall (c0 : CalligraphyCanvas.t num) (p : Props.t num)
         (e eUp : PointerEvent.t num)
         (moves : list (Props.t num * PointerEvent.t num)),
    CalligraphyCanvas.activePointers c0 = [] ->
    Props.mode p = DRAW ->
    forallb (fun pe => (PointerEvent.pointerId (snd pe)
                        =? PointerEvent.pointerId e)%Z) moves = true ->
    PointerEvent.pointerId eUp = PointerEvent.pointerId e ->
    match handleAll random_source clock_source engine
            (PointerDown p e :: pointerMoves moves ++ [PointerUp eUp]) c0
    with
    | Returns cF =>
        exists cM,
          handleAll random_source clock_source engine
            (PointerDown p e :: pointerMoves moves) c0 = Returns cM
          /\ historyRef (CalligraphyCanvas.studio cM)
             = historyRef (CalligraphyCanvas.studio c0)
          /\ historyStepIndexRef (CalligraphyCanvas.studio cM)
             = historyStepIndexRef (CalligraphyCanvas.studio c0)
          /\ (drawingCanvas (CalligraphyCanvas.studio c0) <> None ->
              drawingCanvas (CalligraphyCanvas.studio cM) <> None)
          /\ CalligraphyCanvas.studio cF
             = saveHistory (CalligraphyCanvas.studio cM)
          /\ CalligraphyCanvas.isDrawingRef cF = false
          /\ CalligraphyCanvas.lastPointRef cF = None
          /\ CalligraphyCanvas.activePointers cF = []
    | Throws _ => False
    | Diverges => True
    end.
Proof.
  intros c0 p e eUp moves Hnone Hdraw Hids Hup.
  apply stroke_run; assumption.
Qed.

End PointerFacts.

(** ** A stroke and its undo *)

Section StrokeUndo.

Context {num : Type} {N : Number num} {M : MathLib num}.
Context {F : Flooring num} {Ix : Indexing num}.
Variable random_source : nat -> num.
Variable clock_source : nat -> num.
Variable engine : nat -> SortRun.

(** X13: Undo takes back the stroke.  With the drawing canvas there, no
    pointer active and the index on a step of the history: after a stroke
    (down, moves and up of one pointer in DRAW mode), Undo brings the
    layer and its log back to the step the index was on when the stroke
    began, and Redo then shows the layer as the stroke left it. *)
Theorem undo_takes_back_the_stroke :
  forall (c0 : CalligraphyCanvas.t num) (p : Props.t num)
         (e eUp : PointerEvent.t num)
         (moves : list (Props.t num * PointerEvent.t num))
         (st : HistoryStep (num := num)),
    CalligraphyCanvas.activePointers c0 = [] ->
    Props.mode p = DRAW ->
    forallb (fun pe => (PointerEvent.pointerId (snd pe)
                        =? PointerEvent.pointerId e)%Z) moves = true ->
    PointerEvent.pointerId eUp = PointerEvent.pointerId e ->
    drawingCanvas (CalligraphyCanvas.studio c0) <> None ->
    indexValid (CalligraphyCanvas.studio c0) ->
    item (historyRef (CalligraphyCanvas.studio c0))
      (historyStepIndexRef (CalligraphyCanvas.studio c0)) = Some st ->
    let stroke := PointerDown p e :: pointerMoves moves ++ [PointerUp eUp] in
    match handleAll random_source clock_source engine stroke c0 with
    | Returns cF =>
        exists cU cR,
          handleAll random_source clock_source engine [UndoPressed] cF
          = Returns cU
          /\ layer (CalligraphyCanvas.studio cU)
             = Some (imageData st, svgPaths st)
          /\ handleAll random_source clock_source engine [RedoPressed] cU
             = Returns cR
          /\ layer (CalligraphyCanvas.studio cR)
             = layer (CalligraphyCanvas.studio cF)
    | Throws _ => False
    | Diverges => True
    end.
Proof.
  intros c0 p e eUp moves st Hnone Hdraw Hids Hup Hcanvas Hvalid Hst stroke.
  pose proof (@stroke_run _ _ _ _ _ random_source clock_source engine c0 p e eUp
                moves Hnone Hdraw Hids Hup) as Hrun.
  fold stroke in Hrun.
  destruct (handleAll random_source clock_source engine stroke c0)
    as [cF | cF |]; [| exact Hrun | exact I].
  destruct Hrun as (cM & _ & Hh & Hi & Hc & Hs & _).
  specialize (Hc Hcanvas).
  destruct (drawingCanvas (CalligraphyCanvas.studio cM)) as [d |] eqn:Hd;
    [| congruence].
  assert (Hv : indexValid (CalligraphyCanvas.studio cM)).
  { unfold indexValid in *. rewrite Hh, Hi. exact Hvalid. }
  assert (Hst' : item (historyRef (CalligraphyCanvas.studio cM))
                   (historyStepIndexRef (CalligraphyCanvas.studio cM))
                 = Some st) by (rewrite Hh, Hi; exact Hst).
  destruct (@save_then_undo _ (CalligraphyCanvas.studio cM) d st Hd Hv Hst')
    as (H1 & H2 & H3).
  eexists. eexists. cbn [handleAll handle].
  split; [reflexivity |]. cbn [withStudio CalligraphyCanvas.studio].
  rewrite Hs. split; [exact H2 |]. split; [reflexivity |].
  cbn [withStudio CalligraphyCanvas.studio]. rewrite H3, H1. reflexivity.
Qed.

End StrokeUndo.

(** ** The scan of the text buffer *)

Section StrideFacts.

Lemma strides_below (step : option nat) (bound : nat) (xs : list nat) :
  strides step bound = Some xs ->
  (List.length xs <= bound)%nat /\ forall x, In x xs -> (x < bound)%nat.
Proof.
  unfold strides. destruct step as [[| k] |].
  - destruct (bound =? 0)%nat; [| discriminate].
    intro H. injection H as <-. cbn. split; [lia | tauto].
  - intro H. injection H as <-.
    assert (Hdiv : ((bound + S k - 1) / S k <= bound)%nat).
    { destruct bound as [| bound'].
      - rewrite Nat.div_small by lia. lia.
      - apply Nat.Div0.div_le_upper_bound. nia. }
    split.
    + rewrite length_map, length_seq. exact Hdiv.
    + intros x Hx. apply in_map_iff in Hx. destruct Hx as (i & <- & Hi).
      apply in_seq in Hi.
      set (q := ((bound + S k - 1) / S k)%nat) in *.
      assert (Hmul : (S k * q <= bound + S k - 1)%nat)
        by (apply Nat.Div0.mul_div_le).
      change (fst (Nat.divmod (bound + S k - 1) k 0 k)) with q in Hi.
      assert (Hi' : (S k * S i <= S k * q)%nat)
        by (apply Nat.mul_le_mono_l; lia).
      lia.
  - intro H. injection H as <-.
    destruct (bound =? 0)%nat eqn:Hb.
    + cbn. split; [lia | tauto].
    + apply Nat.eqb_neq in Hb. cbn. split; [lia |].
      intros x [<- | []]. lia.
Qed.

Lemma strides_ends (k : nat) (bound : nat) :
  (1 <= k)%nat -> strides (Some k) bound <> None.
Proof. intro Hk. unfold strides. destruct k; [lia | discriminate]. Qed.

Lemma strides_none_ends (bound : nat) : strides None bound <> None.
Proof. discriminate. Qed.

Lemma flat_map_length_le {A B} (f : A -> list B) (l : list A) (m : nat) :
  (forall a, In a l -> (List.length (f a) <= m)%nat) ->
  (List.length (flat_map f l) <= List.length l * m)%nat.
Proof.
  induction l as [| a l IH]; intro H; cbn [flat_map List.length].
  - lia.
  - rewrite length_app.
    pose proof (H a (or_introl eq_refl)).
    assert (List.length (flat_map f l) <= List.length l * m)%nat
      by (apply IH; intros b Hb; apply H; right; exact Hb).
    lia.
Qed.

End StrideFacts.

Section ScanFacts.

Context {num : Type} {N : Number num}.
Context {F : Flooring num} {Ix : Indexing num}.
Local Open Scope js_scope.

(** X17: the particles of the scan.  When the scan ends, each particle it
    found is a pixel of the buffer, column [x] below the width and row [y]
    below the height, whose alpha is above 50, at the place
    [(x / dpr, y / dpr)]; and there are at most as many particles as the
    buffer has pixels. *)
Theorem scan_finds_opaque_pixels :
  forall (dpr : num) (settings : BrushSettings.t num) (b : Buffer.t)
         (found : list (Particle (num := num))),
    scanBuffer dpr settings b = Some found ->
    (List.length found <= Buffer.height b * Buffer.width b)%nat
    /\ forall p, In p found ->
         exists x y,
           (x < Buffer.width b)%nat /\ (y < Buffer.height b)%nat
           /\ opaque b x y = true
           /\ p = mkParticle (of_nat x / dpr) (of_nat y / dpr).
Proof.
  intros dpr settings b found. unfold scanBuffer. cbv zeta.
  destruct (strides _ (Buffer.height b)) as [ys |] eqn:Hys; [| discriminate].
  destruct (strides _ (Buffer.width b)) as [xs |] eqn:Hxs; [| discriminate].
  intro H. injection H as <-.
  apply strides_below in Hys. apply strides_below in Hxs.
  destruct Hys as [Hyl Hy]. destruct Hxs as [Hxl Hx].
  split.
  - etransitivity.
    + apply flat_map_length_le with (m := Buffer.width b).
      intros y _. etransitivity.
      * apply flat_map_length_le with (m := 1%nat).
        intros x _. destruct (opaque b x y); cbn; lia.
      * lia.
    + nia.
  - intros p Hp. apply in_flat_map in Hp. destruct Hp as (y & Hyin & Hp).
    apply in_flat_map in Hp. destruct Hp as (x & Hxin & Hp).
    destruct (opaque b x y) eqn:Hop; [| contradiction].
    destruct Hp as [<- | []].
    exists x, y. repeat split; auto.
Qed.

End ScanFacts.

Section ScanEnds.

Lemma floorZ_IZR (z : Z) : floorZ (IZR z) = z.
Proof.
  assert (H : (z <= floorZ (IZR z) < z + 1)%Z).
  { apply floorZ_range. rewrite plus_IZR. lra. }
  lia.
Qed.

Lemma exact_step_index (dpr : R) (settings : BrushSettings.t R) :
  exists k, toIndex (effectiveStep dpr settings) = Some k /\ (1 <= k)%nat.
Proof.
  unfold effectiveStep. exact_arith. exact_floor.
  set (z := floorZ _).
  assert (Hmax : Rmax (1 * / 1) (IZR z) = IZR (Z.max 1 z)).
  { unfold Rmax. destruct (Rle_dec (1 * / 1) (IZR z)) as [Hle | Hgt].
    - assert (1 <= z)%Z by (apply le_IZR; lra).
      rewrite Z.max_r by lia. reflexivity.
    - assert (z < 1)%Z by (apply lt_IZR; lra).
      rewrite Z.max_l by lia. lra. }
  rewrite Hmax. exists (Z.to_nat (Z.max 1 z)).
  split; [| lia].
  change (@toIndex R exact_Indexing) with indexR. unfold indexR.
  rewrite floorZ_IZR.
  destruct (Req_dec_T (IZR (Z.max 1 z)) (IZR (Z.max 1 z))); [| congruence].
  destruct (Rle_dec 0 (IZR (Z.max 1 z))) as [| Hneg]; [reflexivity |].
  exfalso. apply Hneg. apply (IZR_le 0). lia.
Qed.

Lemma index64_zero (v : float) :
  index64 v = Some 0%nat -> exists s, Prim2SF v = S754_zero s.
Proof.
  unfold index64. destruct (Prim2SF v) as [s | s | | [|] m e]; try discriminate.
  - eauto.
  - destruct (0 <=? e)%Z eqn:He.
    + apply Z.leb_le in He. intro H. exfalso.
      assert (H' : Z.to_nat (Zpos m * 2 ^ e) = 0%nat) by congruence.
      assert (0 < 2 ^ e)%Z by (apply Z.pow_pos_nonneg; lia).
      assert (Hpos : (0 < Zpos m * 2 ^ e)%Z) by (apply Z.mul_pos_pos; lia).
      clear H. lia.
    + apply Z.leb_gt in He.
      destruct (Zpos m mod 2 ^ (- e) =? 0)%Z eqn:Hmod; [| discriminate].
      apply Z.eqb_eq in Hmod. intro H. exfalso.
      assert (H' : Z.to_nat (Zpos m / 2 ^ (- e)) = 0%nat) by congruence.
      clear H.
      assert (Hd : (0 < 2 ^ (- e))%Z) by (apply Z.pow_pos_nonneg; lia).
      pose proof (Z.div_mod (Zpos m) (2 ^ (- e)) ltac:(lia)) as Hdm.
      rewrite Hmod, Z.add_0_r in Hdm.
      assert (Hq : (0 <= Zpos m / 2 ^ (- e))%Z)
        by (apply Z.div_pos; lia).
      assert (Hnz : (Zpos m / 2 ^ (- e) <> 0)%Z).
      { intro Hz. rewrite Hz, Z.mul_0_r in Hdm. discriminate Hdm. }
      lia.
Qed.

Lemma double_step_index (dpr : float) (settings : BrushSettings.t float) :
  toIndex (effectiveStep dpr settings) <> Some 0%nat.
Proof.
  unfold effectiveStep.
  change (@toIndex float binary64_Indexing) with index64.
  change (@Math_max float binary64) with Binary64.max.
  set (v := Math_floor _).
  change (@lit float binary64 1) with 1%float.
  unfold Binary64.max.
  destruct (PrimFloat.ltb 1 v) eqn:Hlt.
  - intro H. apply index64_zero in H. destruct H as [s Hs].
    rewrite FloatAxioms.ltb_spec, Hs in Hlt. destruct s; discriminate Hlt.
  - destruct (PrimFloat.ltb v 1); [vm_compute; discriminate |].
    destruct (PrimFloat.eqb 1 v); vm_compute; discriminate.
Qed.

Lemma exact_scan_ends (dpr : R) (settings : BrushSettings.t R)
    (b : Buffer.t) :
  exists found, scanBuffer dpr settings b = Some found.
Proof.
  unfold scanBuffer. cbv zeta.
  destruct (exact_step_index dpr settings) as (k & -> & Hk).
  destruct k as [| k]; [lia |]. cbn [strides]. eauto.
Qed.

(** X18: the scan always ends.  On doubles and in exact arithmetic alike,
    whatever the device pixel ratio, the settings and the buffer, the step
    of the two loops is a whole number from 1 on, or NaN or Infinity, so
    that the loops end and the scan gives its particles. *)
Theorem scan_always_ends :
  (forall (dpr : float) (settings : BrushSettings.t float) (b : Buffer.t),
     scanBuffer dpr settings b <> None)
  /\ (forall (dpr : R) (settings : BrushSettings.t R) (b : Buffer.t),
        scanBuffer dpr settings b <> None).
Proof.
  split; intros dpr settings b.
  - unfold scanBuffer. cbv zeta.
    pose proof (double_step_index dpr settings) as Hstep.
    destruct (toIndex (effectiveStep dpr settings)) as [[| k] |];
      [congruence | |]; cbn [strides]; discriminate.
  - destruct (exact_scan_ends dpr settings b) as [found ->]. discriminate.
Qed.

End ScanEnds.

(** ** The text animation *)

Section TextFacts.

Variable random_source : nat -> R.
Hypothesis random_range : forall i, (0 <= random_source i < 1)%R.
Local Open Scope R_scope.

(** In exact arithmetic a particle that is not dropped is stamped: the
    canvas does not raise, and the layer and the log get one ellipse
    each. *)
Lemma exact_stampParticle (mode : AppMode) (settings : BrushSettings.t R)
    (p : Particle (num := R)) (ink : Ink R) :
  exists ink',
    stampParticle random_source mode settings p ink = (Normal tt, ink')
    /\ List.length (svg ink') = S (List.length (svg ink))
    /\ List.length (raster (ctx ink')) = S (List.length (raster (ctx ink)))
    /\ shadowBlur (ctx ink') = shadowBlur (ctx ink).
Proof.
  unfold stampParticle. cbv zeta. rewrite !bind_random.
  rewrite drawAndRecordEllipse_run.
  cbn [ctx svg randoms].
  pose proof (random_range (S (S (randoms ink)))) as Hr3.
  set (r3 := random_source (S (S (randoms ink)))) in *.
  assert (Hsize : 0 <= particleSize settings).
  { unfold particleSize.
    destruct (BrushSettings.weightOption settings); exact_arith; lra. }
  assert (Hround : 0 <= textRoundness mode settings).
  { unfold textRoundness.
    destruct (isGENERATE mode), (isBRUSH (BrushSettings.fontStyle settings)),
      (isPEN (BrushSettings.fontStyle settings)); exact_arith; lra. }
  unfold finiteEllipse. exact_arith. cbn [andb].
  set (size := particleSize settings) in *.
  set (roundness := textRoundness mode settings) in *.
  match goal with
  | |- context [Exact.ltb ?rx (0 * / 1) || Exact.ltb ?ry (0 * / 1)] =>
      assert (Hrx : 0 <= rx) by nra;
      assert (Hry : 0 <= ry) by nra;
      rewrite (@exact_ltb_false rx (0 * / 1)) by lra;
      rewrite (@exact_ltb_false ry (0 * / 1)) by lra
  end.
  cbn [orb]. eexists. split; [reflexivity |].
  cbn [svg ctx fillPath raster shadowBlur set_fillStyle set_globalAlpha].
  rewrite !length_app. cbn [List.length]. repeat split; lia.
Qed.

(** One round of the batch loop: at most one ellipse more, exactly one
    where no particle is dropped. *)
Lemma exact_animateParticle (mode : AppMode) (settings : BrushSettings.t R)
    (p : Particle (num := R)) (ink : Ink R) :
  exists ink' n,
    animateParticle random_source mode settings p ink = (Normal tt, ink')
    /\ List.length (svg ink') = (List.length (svg ink) + n)%nat
    /\ List.length (raster (ctx ink'))
       = (List.length (raster (ctx ink)) + n)%nat
    /\ (n <= 1)%nat
    /\ (isGENERATE mode && isBRUSH (BrushSettings.fontStyle settings) = false
        -> n = 1%nat)
    /\ shadowBlur (ctx ink') = shadowBlur (ctx ink).
Proof.
  rewrite animateParticle_eq, dropTest_run.
  destruct (isGENERATE mode && isBRUSH (BrushSettings.fontStyle settings));
    cbn [fst snd].
  - destruct (random_source (randoms ink) <? _)%js.
    + eexists. exists 0%nat. split; [reflexivity |]. cbn [svg ctx].
      repeat split; try lia; discriminate.
    + match goal with
      | |- context [stampParticle _ _ _ _ ?k] =>
          destruct (exact_stampParticle mode settings p k)
            as (ink' & Hrun & H1 & H2 & H3)
      end.
      exists ink', 1%nat. cbn [svg ctx] in *.
      repeat split; try assumption; lia.
  - destruct (exact_stampParticle mode settings p ink)
      as (ink' & Hrun & H1 & H2 & H3).
    exists ink', 1%nat. repeat split; try assumption; lia.
Qed.

Lemma exact_animateBatch (mode : AppMode) (settings : BrushSettings.t R)
    (particles : list (Particle (num := R))) (batch : nat) :
  forall (particleIndex : nat) (ink : Ink R),
    (particleIndex <= List.length particles)%nat ->
    let reached := Nat.min (particleIndex + batch) (List.length particles) in
    exists ink' n,
      animateBatch random_source batch mode settings particles particleIndex
        ink = (Normal reached, ink')
      /\ List.length (svg ink') = (List.length (svg ink) + n)%nat
      /\ List.length (raster (ctx ink'))
         = (List.length (raster (ctx ink)) + n)%nat
      /\ (n <= reached - particleIndex)%nat
      /\ (isGENERATE mode && isBRUSH (BrushSettings.fontStyle settings)
          = false -> n = (reached - particleIndex)%nat)
      /\ shadowBlur (ctx ink') = shadowBlur (ctx ink).
Proof.
  induction batch as [| batch IH]; intros particleIndex ink Hle; cbv zeta.
  - exists ink, 0%nat. cbn [animateBatch]. unfold ret.
    replace (Nat.min (particleIndex + 0) (List.length particles))
      with particleIndex by lia.
    repeat split; lia.
  - cbn [animateBatch].
    destruct (nth_error particles particleIndex) as [p |] eqn:Hp.
    + assert (Hlt : (particleIndex < List.length particles)%nat).
      { apply nth_error_Some. congruence. }
      destruct (exact_animateParticle mode settings p ink)
        as (ink1 & n1 & Hrun1 & A1 & A2 & A3 & A4 & A5).
      erewrite bind_normal by exact Hrun1.
      destruct (IH (S particleIndex) ink1 ltac:(lia))
        as (ink2 & n2 & Hrun2 & B1 & B2 & B3 & B4 & B5).
      exists ink2, (n1 + n2)%nat.
      replace (Nat.min (particleIndex + S batch) (List.length particles))
        with (Nat.min (S particleIndex + batch) (List.length particles))
        by lia.
      split; [exact Hrun2 |].
      split; [lia |]. split; [lia |]. split; [lia |].
      split; [| congruence].
      intro Hoff. rewrite (A4 Hoff), (B4 Hoff). lia.
    + apply nth_error_None in Hp.
      exists ink, 0%nat. unfold ret.
      replace (Nat.min (particleIndex + S batch) (List.length particles))
        with particleIndex by lia.
      repeat split; lia.
Qed.

(** One animation frame on a pending animation. *)
Lemma exact_frame (c : CalligraphyCanvas.t R) (a : Animation.t R)
    (t : Context2D R) :
  CalligraphyCanvas.pendingFrame c = Some a ->
  CalligraphyCanvas.textCanvas c = Some t ->
  (Animation.particleIndex a <= List.length (Animation.particles a))%nat ->
  let total := List.length (Animation.particles a) in
  let reached := Nat.min (Animation.particleIndex a + batchSize) total in
  exists c' t' n,
    animationFrame random_source c = Returns c'
    /\ CalligraphyCanvas.studio c' = CalligraphyCanvas.studio c
    /\ CalligraphyCanvas.textCanvas c' = Some t'
    /\ List.length (CalligraphyCanvas.textSvgRef c')
       = (List.length (CalligraphyCanvas.textSvgRef c) + n)%nat
    /\ List.length (raster t') = (List.length (raster t) + n)%nat
    /\ (n <= reached - Animation.particleIndex a)%nat
    /\ (isGENERATE (Animation.mode a)
        && isBRUSH (BrushSettings.fontStyle (Animation.settings a)) = false
        -> n = (reached - Animation.particleIndex a)%nat)
    /\ CalligraphyCanvas.pendingFrame c'
       = if (total <=? Animation.particleIndex a)%nat then None
         else Some (Animation.mk (Animation.mode a) (Animation.settings a)
                      (Animation.particles a) reached).
Proof.
  intros Hpending Htext Hle total reached.
  unfold animationFrame. rewrite Hpending, Htext. unfold animateText.
  fold total.
  destruct (total <=? Animation.particleIndex a)%nat eqn:Hdone.
  - unfold ret. eexists. exists t, 0%nat.
    split; [reflexivity |]. apply Nat.leb_le in Hdone. cbn.
    repeat split; try reflexivity; try (intros; unfold reached; lia).
  - rewrite !bind_onContext.
    match goal with
    | |- context [bind (animateBatch _ _ _ _ _ _) _ ?k] =>
        destruct (@exact_animateBatch (Animation.mode a)
                    (Animation.settings a) (Animation.particles a) batchSize
                    (Animation.particleIndex a) k Hle)
          as (ink' & n & Hrun & A1 & A2 & A3 & A4 & A5)
    end.
    erewrite bind_normal by exact Hrun.
    rewrite bind_onContext. unfold ret.
    eexists. eexists. exists n.
    split; [reflexivity |]. fold total in A3, A4. fold reached in A3, A4.
    cbn in A1, A2 |- *. repeat split; try assumption.
Qed.

Lemma frames_S (clock_source : nat -> R) (engine : nat -> SortRun)
    {M : MathLib R} (k : nat) (c : CalligraphyCanvas.t R) :
  handleAll random_source clock_source engine (repeat AnimationFrame (S k)) c
  = match animationFrame random_source c with
    | Returns c' | Throws c' =>
        handleAll random_source clock_source engine
          (repeat AnimationFrame k) c'
    | Diverges => Diverges
    end.
Proof. reflexivity. Qed.

(** With no animation pending, frames do nothing. *)
Lemma frames_idle (clock_source : nat -> R) (engine : nat -> SortRun)
    {M : MathLib R} (k : nat) (c : CalligraphyCanvas.t R) :
  CalligraphyCanvas.pendingFrame c = None ->
  handleAll random_source clock_source engine (repeat AnimationFrame k) c
  = Returns c.
Proof.
  intro Hnone. induction k as [| k IH]; [reflexivity |].
  rewrite frames_S. unfold animationFrame. rewrite Hnone.
  exact IH.
Qed.

Lemma frames_complete (clock_source : nat -> R) (engine : nat -> SortRun)
    {M : MathLib R} (k : nat) :
  forall (c : CalligraphyCanvas.t R) (a : Animation.t R) (t : Context2D R),
    CalligraphyCanvas.pendingFrame c = Some a ->
    CalligraphyCanvas.textCanvas c = Some t ->
    (Animation.particleIndex a <= List.length (Animation.particles a))%nat ->
    (List.length (Animation.particles a)
     <= Animation.particleIndex a + k * batchSize)%nat ->
    let left := (List.length (Animation.particles a)
                 - Animation.particleIndex a)%nat in
    exists c' t' n,
      handleAll random_source clock_source engine
        (repeat AnimationFrame (S k)) c = Returns c'
      /\ CalligraphyCanvas.studio c' = CalligraphyCanvas.studio c
      /\ CalligraphyCanvas.textCanvas c' = Some t'
      /\ List.length (CalligraphyCanvas.textSvgRef c')
         = (List.length (CalligraphyCanvas.textSvgRef c) + n)%nat
      /\ List.length (raster t') = (List.length (raster t) + n)%nat
      /\ (n <= left)%nat
      /\ (isGENERATE (Animation.mode a)
          && isBRUSH (BrushSettings.fontStyle (Animation.settings a)) = false
          -> n = left)
      /\ CalligraphyCanvas.pendingFrame c' = None.
Proof.
  induction k as [| k IH]; intros c a t Hpending Htext Hle Henough left;
    destruct (exact_frame c Hpending Htext Hle)
      as (c1 & t1 & n1 & Hrun & A1 & A2 & A3 & A4 & A5 & A6 & A7);
    rewrite frames_S, Hrun.
  - replace (List.length (Animation.particles a) <=? Animation.particleIndex a)%nat
      with true in A7 by (symmetry; apply Nat.leb_le; lia).
    exists c1, t1, n1. split; [reflexivity |].
    repeat split; try assumption; try lia;
      try (intro Hoff; rewrite (A6 Hoff); unfold left; lia).
  - destruct (List.length (Animation.particles a)
              <=? Animation.particleIndex a)%nat eqn:Hdone.
    + apply Nat.leb_le in Hdone.
      rewrite (@frames_idle clock_source engine M (S k) c1 A7).
      exists c1, t1, n1. split; [reflexivity |].
      repeat split; try assumption; try lia;
        try (intro Hoff; rewrite (A6 Hoff); unfold left; lia).
    + apply Nat.leb_gt in Hdone.
      set (reached := Nat.min (Animation.particleIndex a + batchSize)
                        (List.length (Animation.particles a))) in *.
      destruct (IH c1 _ t1 A7 A2) as (c2 & t2 & n2 & Hrun2 & B1 & B2 & B3
                                      & B4 & B5 & B6 & B7).
      { cbn [Animation.particleIndex Animation.particles]. lia. }
      { cbn [Animation.particleIndex Animation.particles].
        unfold reached, batchSize in *. lia. }
      cbn [Animation.particleIndex Animation.particles Animation.mode
           Animation.settings] in *.
      exists c2, t2, (n1 + n2)%nat.
      split; [exact Hrun2 |].
      split; [congruence |]. split; [exact B2 |].
      split; [lia |]. split; [lia |].
      split; [unfold left, reached in *; lia |].
      split; [| exact B7].
      intro Hoff. rewrite (A6 Hoff), (B6 Hoff).
      unfold left, reached in *. lia.
Qed.

(** X19: the text animation ends.  In exact arithmetic, with random
    numbers in [0, 1) and a sort that settles on an order: when a text is
    rendered in GENERATE mode, the scan of the buffer ends with some [n]
    particles, and one frame more than it takes batches of 1000 to go
    through them leaves no frame requested; no frame raises; the text
    layer and its log hold the same number of ellipses, at most [n], and
    exactly [n] unless the font style is BRUSH; the drawing layer and the
    history are not touched. *)
Theorem text_animation_completes :
  forall (clock_source : nat -> R) (engine : nat -> SortRun) (M : MathLib R)
         (p : Props.t R) (text : string) (b : Buffer.t)
         (c : CalligraphyCanvas.t R) (t : Context2D R),
    Props.mode p = GENERATE ->
    text <> EmptyString ->
    CalligraphyCanvas.textCanvas c = Some t ->
    Buffer.width b <> 0%nat ->
    Buffer.height b <> 0%nat ->
    (forall n, settlesOnOrders n (engine n) = true) ->
    exists found,
      scanBuffer (pixelRatio (Props.devicePixelRatio p)) (Props.settings p) b
      = Some found
      /\ forall k,
           (List.length found <= k * batchSize)%nat ->
           exists c' t' n,
             handleAll random_source clock_source engine
               (TextUpdate p text (Some b) :: repeat AnimationFrame (S k)) c
             = Returns c'
             /\ CalligraphyCanvas.pendingFrame c' = None
             /\ CalligraphyCanvas.studio c' = CalligraphyCanvas.studio c
             /\ CalligraphyCanvas.textCanvas c' = Some t'
             /\ List.length (CalligraphyCanvas.textSvgRef c') = n
             /\ List.length (raster t') = n
             /\ (n <= List.length found)%nat
             /\ (BrushSettings.fontStyle (Props.settings p) <> BRUSH ->
                 n = List.length found).
Proof.
  intros clock_source engine M p text b c t Hmode Htext Hcanvas Hw Hh Hsort.
  destruct (exact_scan_ends (pixelRatio (Props.devicePixelRatio p))
              (Props.settings p) b) as [found Hscan].
  exists found. split; [exact Hscan |]. intros k Hk.
  assert (Hrender :
            exists c1 a t1,
              handle random_source clock_source engine
                (TextUpdate p text (Some b)) c = Returns c1
              /\ CalligraphyCanvas.pendingFrame c1 = Some a
              /\ CalligraphyCanvas.textCanvas c1 = Some t1
              /\ raster t1 = []
              /\ CalligraphyCanvas.textSvgRef c1 = []
              /\ CalligraphyCanvas.studio c1 = CalligraphyCanvas.studio c
              /\ Animation.particleIndex a = 0%nat
              /\ List.length (Animation.particles a) = List.length found
              /\ Animation.mode a = Props.mode p
              /\ Animation.settings a = Props.settings p).
  { cbn [handle]. unfold textUpdateEffect.
    rewrite Hmode. apply String.eqb_neq in Htext. rewrite Htext.
    cbn [isGENERATE negb andb].
    unfold renderGenerativeText. rewrite Hcanvas. cbv zeta.
    apply Nat.eqb_neq in Hw. apply Nat.eqb_neq in Hh. rewrite Hw, Hh.
    cbn [orb]. rewrite Hscan. unfold shuffle.
    match goal with
    | |- context [bind (runSort _ _) _ ?ink] =>
        destruct (@runSort_settles _ _ random_source _ _
                    (Hsort (List.length found)) ink)
          as (order & ink' & Hrun & Horder & Hctx & Hsvg);
        erewrite bind_normal by exact Hrun
    end.
    unfold ret.
    assert (Hlen : List.length (reorder found order) = List.length found).
    { apply Permutation_length, reorder_Permutation, isOrder_Permutation.
      exact Horder. }
    cbn [textInk ctx svg withText CalligraphyCanvas.textSvgRef] in Hctx, Hsvg.
    eexists. eexists. eexists. split; [reflexivity |].
    cbn. rewrite Hctx, Hsvg. cbn. repeat split; auto. }
  destruct Hrender as (c1 & a & t1 & Hrun1 & A1 & A2 & A3 & A4 & A5 & A6 & A7
                       & A8 & A9).
  destruct (@frames_complete clock_source engine M k c1 a t1 A1 A2)
    as (c2 & t2 & n & Hrun2 & B1 & B2 & B3 & B4 & B5 & B6 & B7).
  - rewrite A6. lia.
  - rewrite A6, A7. lia.
  - exists c2, t2, n.
    rewrite A6, A7, Nat.sub_0_r in B5, B6. rewrite A8, A9 in B6.
    rewrite A4 in B3. rewrite A3 in B4. cbn [List.length Nat.add] in B3, B4.
    split.
    { change (TextUpdate p text (Some b) :: repeat AnimationFrame (S k))
        with ([TextUpdate p text (Some b)] ++ repeat AnimationFrame (S k)).
      cbn [handleAll app].
      rewrite Hrun1. exact Hrun2. }
    split; [exact B7 |]. split; [congruence |]. split; [exact B2 |].
    split; [exact B3 |]. split; [exact B4 |]. split; [exact B5 |].
    intro Hstyle. apply B6. rewrite Hmode.
    destruct (BrushSettings.fontStyle (Props.settings p));
      try reflexivity.
    congruence.
Qed.

End TextFacts.

Section StampFacts.

Context {num : Type} {N : Number num}.
Variable random_source : nat -> num.

Lemma stampParticle_reads (mode : AppMode) (s1 s2 : BrushSettings.t num) :
  BrushSettings.fontStyle s1 = BrushSettings.fontStyle s2 ->
  BrushSettings.weightOption s1 = BrushSettings.weightOption s2 ->
  BrushSettings.color s1 = BrushSettings.color s2 ->
  forall p,
    animateParticle random_source mode s1 p
    = animateParticle random_source mode s2 p.
Proof.
  intros Hf Hw Hc p.
  unfold animateParticle, dropTest, stampParticle, textRoughness,
    textRoundness, particleSize.
  rewrite Hf, Hw, Hc. reflexivity.
Qed.

Lemma animateBatch_reads (mode : AppMode) (s1 s2 : BrushSettings.t num)
    (particles : list (Particle (num := num))) :
  BrushSettings.fontStyle s1 = BrushSettings.fontStyle s2 ->
  BrushSettings.weightOption s1 = BrushSettings.weightOption s2 ->
  BrushSettings.color s1 = BrushSettings.color s2 ->
  forall batch particleIndex,
    animateBatch random_source batch mode s1 particles particleIndex
    = animateBatch random_source batch mode s2 particles particleIndex.
Proof.
  intros Hf Hw Hc. induction batch as [| batch IH]; intro particleIndex.
  - reflexivity.
  - cbn [animateBatch].
    destruct (nth_error particles particleIndex) as [p |]; [| reflexivity].
    rewrite (stampParticle_reads mode s1 s2 Hf Hw Hc p).
    rewrite (IH (S particleIndex)). reflexivity.
Qed.

(** X20: the text animation reads three settings only, the font style,
    the weight option and the colour: settings that agree on them stamp
    the same particles in the same way; so the brush parameters that Magic
    and Randomize draw (size, roughness, taper, roundness, angle,
    hardness, spacing) leave the stamping as it is. *)
Theorem text_stamping_reads_three_settings :
  forall (mode : AppMode) (s1 s2 : BrushSettings.t num)
         (particles : list (Particle (num := num))) (particleIndex : nat),
    BrushSettings.fontStyle s1 = BrushSettings.fontStyle s2 ->
    BrushSettings.weightOption s1 = BrushSettings.weightOption s2 ->
    BrushSettings.color s1 = BrushSettings.color s2 ->
    animateText random_source mode s1 particles particleIndex
    = animateText random_source mode s2 particles particleIndex.
Proof.
  intros mode s1 s2 particles particleIndex Hf Hw Hc.
  unfold animateText.
  rewrite (animateBatch_reads mode s1 s2 particles Hf Hw Hc).
  rewrite Hw, Hc. reflexivity.
Qed.

End StampFacts.

(** ** Concrete runs of the further properties *)

Lemma isOrder_seq (n : nat) : isOrder n (seq 0 n) = true.
Proof.
  unfold isOrder. rewrite length_seq, Nat.eqb_refl. cbn [andb].
  apply forallb_forall. intros i Hi. apply existsb_exists.
  exists i. split; [exact Hi | apply Nat.eqb_refl].
Qed.

(** The factory brush between two samples. *)
Lemma drawStroke_returns_witness :
  let settings : BrushSettings.t R :=
    settingsWith 10 0.45 0.7 0.22 0.8 0 PEN NORMAL false in
  (0 <= BrushSettings.size settings)%R
  /\ (BrushSettings.taper settings <= 1)%R
  /\ (0 <= BrushSettings.roundness settings)%R
  /\ (0 <= BrushSettings.spacing settings)%R
  /\ (0.5 <= strokeStepSize settings
               (targetSize
                  (strokeGeometry (sampleAt 0 0 0.5 0) (sampleAt 3 4 0.5 16)
                     settings)))%R
  /\ exists ink',
       drawStroke (fun _ => 0%R) settings (Some (sampleAt 0 0 0.5 0))
         (sampleAt 3 4 0.5 16) (Some blankInk)
       = Returns (Some ink')
       /\ globalCompositeOperation (ctx ink') = source_over
       /\ shadowBlur (ctx ink') = 0%R.
Proof.
  cbv zeta.
  set (settings := settingsWith (num := R) 10 0.45 0.7 0.22 0.8 0 PEN NORMAL
                     false).
  assert (H1 : (0 <= BrushSettings.size settings)%R)
    by (unfold settings; cbn [settingsWith BrushSettings.size];
        exact_arith; lra).
  assert (H2 : (BrushSettings.taper settings <= 1)%R)
    by (unfold settings; cbn [settingsWith BrushSettings.taper];
        exact_arith; lra).
  assert (H3 : (0 <= BrushSettings.roundness settings)%R)
    by (unfold settings; cbn [settingsWith BrushSettings.roundness];
        exact_arith; lra).
  assert (H4 : (0 <= BrushSettings.spacing settings)%R)
    by (unfold settings; cbn [settingsWith BrushSettings.spacing];
        exact_arith; lra).
  split; [exact H1 |]. split; [exact H2 |]. split; [exact H3 |].
  split; [exact H4 |].
  exact (@drawStroke_returns exact_MathLib (fun _ => 0%R) settings
           (sampleAt 0 0 0.5 0) (sampleAt 3 4 0.5 16) blankInk H1 H2 H3 H4).
Defined.

(** Randomize with every random number 0. *)
Lemma randomized_settings_range_witness :
  (forall i : nat, (0 <= (fun _ : nat => 0) i < 1)%R)
  /\ exists n : Z,
       BrushSettings.size
         (fst (generateRandomSettings (fun _ => 0%R) 0 FACTORY_DEFAULTS))
       = IZR n
       /\ (10 <= n <= 59)%Z.
Proof.
  assert (H : forall i : nat, (0 <= (fun _ : nat => 0) i < 1)%R)
    by (intro i; lra).
  split; [exact H |].
  exact (proj1 (@randomized_settings_range (fun _ => 0%R) H 0%nat
                  FACTORY_DEFAULTS)).
Defined.

(** Magic in the brush style with every random number 0. *)
Lemma creative_settings_range_witness :
  (forall i : nat, (0 <= (fun _ : nat => 0) i < 1)%R)
  /\ (80 <= Creative.size
               (fst (generateCreativeSettings (fun _ => 0%R) 0 BRUSH))
      < 150)%R.
Proof.
  assert (H : forall i : nat, (0 <= (fun _ : nat => 0) i < 1)%R)
    by (intro i; lra).
  split; [exact H |].
  exact (proj1 (proj2 (proj1 (proj1 (@creative_settings_range (fun _ => 0%R)
                                       H 0%nat BRUSH))))).
Defined.


(** Magic, Randomize and a new size in GENERATE mode. *)
Lemma mode_round_trip_witness :
  let step := appStep (num := float) (fun _ => 0.5%float)
                (fun _ => "0"%string) in
  let acts : list (AppAction (num := float)) :=
    [Magic; Randomize;
     SettingsChange (settingsWith 60 0.45 0.7 0.22 0.8 0 PEN NORMAL false)] in
  App.mode (initialApp (num := float)) = DRAW
  /\ App.lastDrawSettings (initialApp (num := float))
     = App.settings initialApp
  /\ forallb (fun act => negb (entersDraw act)) acts = true
  /\ App.settings
       (step (appSteps (fun _ => 0.5%float) (fun _ => "0"%string) acts
                (step initialApp (ModeChange GENERATE)))
          (ModeChange DRAW))
     = FACTORY_DEFAULTS.
Proof.
  cbv zeta.
  set (acts := [Magic (num := float); Randomize;
                SettingsChange (settingsWith 60 0.45 0.7 0.22 0.8 0 PEN
                                  NORMAL false)]).
  assert (H1 : App.mode (initialApp (num := float)) = DRAW) by reflexivity.
  assert (H2 : App.lastDrawSettings (initialApp (num := float))
               = App.settings initialApp) by reflexivity.
  assert (H3 : forallb (fun act : AppAction (num := float) =>
                          negb (entersDraw act)) acts = true)
    by reflexivity.
  split; [exact H1 |]. split; [exact H2 |]. split; [exact H3 |].
  exact (proj1 (proj2 (@mode_round_trip float binary64 binary64_Flooring
                         (fun _ => 0.5%float) (fun _ => "0"%string)
                         initialApp acts H1 H2 H3))).
Defined.

(** A preset saved from the factory brush, kept through Randomize and the
    deletion of another preset. *)
Lemma saved_preset_restores_witness :
  let step := appStep (num := float) (fun _ => 0.5%float)
                (fun _ => "1700000000000"%string) in
  let p := Preset.mk "1700000000000" "mine" (FACTORY_DEFAULTS (num := float)) in
  let acts : list (AppAction (num := float)) :=
    [Randomize; DeletePreset "1600000000000"] in
  let b := appSteps (fun _ => 0.5%float) (fun _ => "1700000000000"%string)
             acts (step initialApp (SavePreset 0%float "mine")) in
  forallb (fun act => negb (deletes (Preset.id p) act)) acts = true
  /\ In p (App.presets b)
  /\ App.settings (step b (LoadPreset p)) = FACTORY_DEFAULTS.
Proof.
  cbv zeta.
  set (acts := [Randomize (num := float); DeletePreset "1600000000000"]).
  assert (H : forallb
                (fun act : AppAction (num := float) =>
                   negb (deletes
                           (Preset.id
                              (Preset.mk "1700000000000" "mine"
                                 (App.settings (initialApp (num := float)))))
                           act)) acts = true)
    by reflexivity.
  split; [exact H |].
  pose proof (@saved_preset_restores float binary64 binary64_Flooring
                (fun _ => 0.5%float) (fun _ => "1700000000000"%string)
                initialApp 0%float "mine" acts H) as (H1 & H2 & _).
  split; [exact H1 | exact H2].
Defined.

(** The history after one save of a dot. *)
Lemma one_save_state :
  let s := saves [dot (num := float)] (initialHistorySetup (mounted newContext)) in
  drawingCanvas s <> None /\ indexValid s.
Proof.
  cbv zeta.
  destruct (@initial_state float newContext) as (Hc & _ & _ & _ & Hv & Hl).
  assert (Hc' : drawingCanvas (initialHistorySetup (mounted (num := float)
                                 newContext)) <> None)
    by (rewrite Hc; discriminate).
  destruct (@saves_spec float [dot] _ Hc' Hv Hl) as (H1 & H2 & _).
  split; assumption.
Qed.

(** Undo, redo, undo after one save. *)
Lemma undo_redo_walk_witness :
  let s := saves [dot (num := float)] (initialHistorySetup (mounted newContext)) in
  let actions : list (Action (num := float)) := [Undo; Redo; Undo] in
  drawingCanvas s <> None
  /\ indexValid s
  /\ forallb (@isMove float) actions = true
  /\ historyRef (fold_left act actions s) = historyRef s.
Proof.
  cbv zeta.
  destruct one_save_state as [H1 H2].
  assert (H3 : forallb (@isMove float) [Undo; Redo; Undo] = true)
    by reflexivity.
  split; [exact H1 |]. split; [exact H2 |]. split; [exact H3 |].
  exact (proj1 (@undo_redo_walk float _ _ H1 H2 H3)).
Defined.

(** An undo and a redo after one save. *)
Lemma undo_redo_inverse_witness :
  let s := saves [dot (num := float)] (initialHistorySetup (mounted newContext)) in
  drawingCanvas s <> None
  /\ indexValid s
  /\ showsIndex s
  /\ (0 < historyStepIndexRef s)%Z
  /\ layer (performRedo (performUndo s)) = layer s.
Proof.
  cbv zeta.
  destruct one_save_state as [H1 H2].
  set (s := saves [dot (num := float)]
              (initialHistorySetup (mounted newContext))) in *.
  assert (H3 : showsIndex s).
  { exists (mkStep (fst (dot (num := float))) (snd (dot (num := float)))).
    split; reflexivity. }
  assert (H4 : (0 < historyStepIndexRef s)%Z) by reflexivity.
  split; [exact H1 |]. split; [exact H2 |]. split; [exact H3 |].
  split; [exact H4 |].
  exact (proj1 (proj1 (@undo_redo_inverse float s H1 H2 H3) H4)).
Defined.

(** One undo, then a save, after one save. *)
Lemma save_discards_redo_witness :
  let s := saves [dot (num := float)] (initialHistorySetup (mounted newContext)) in
  let s' := act (undos 1 s) (Save dot) in
  drawingCanvas s <> None
  /\ indexValid s
  /\ (0 < 1)%nat
  /\ (Z.of_nat 1 <= historyStepIndexRef s)%Z
  /\ performRedo s' = s'.
Proof.
  cbv zeta.
  destruct one_save_state as [H1 H2].
  set (s := saves [dot (num := float)]
              (initialHistorySetup (mounted newContext))) in *.
  assert (H3 : (0 < 1)%nat) by lia.
  assert (H4 : (Z.of_nat 1 <= historyStepIndexRef s)%Z).
  { replace (historyStepIndexRef s) with 1%Z by reflexivity. simpl. lia. }
  split; [exact H1 |]. split; [exact H2 |]. split; [exact H3 |].
  split; [exact H4 |].
  exact (proj2 (proj2 (proj2 (@save_discards_redo float s 1%nat dot H1 H2 H3
                                H4)))).
Defined.

(** The canvases as they are mounted. *)
Lemma mounted_state :
  let c := mountedCanvas (num := R) newContext newContext in
  drawingCanvas (CalligraphyCanvas.studio c) <> None
  /\ indexValid (CalligraphyCanvas.studio c)
  /\ item (historyRef (CalligraphyCanvas.studio c))
       (historyStepIndexRef (CalligraphyCanvas.studio c))
     = Some (mkStep (raster (newContext (num := R))) []).
Proof.
  cbv zeta. unfold mountedCanvas. cbn [CalligraphyCanvas.studio].
  destruct (@initial_state R newContext) as (Hc & Hh & Hi & _ & Hv & _).
  split; [rewrite Hc; discriminate |]. split; [exact Hv |].
  rewrite Hh, Hi. reflexivity.
Qed.

(** Clear on the canvases as they are mounted. *)
Lemma clear_is_undoable_witness :
  let c := mountedCanvas (num := R) newContext newContext in
  let st := mkStep (raster (newContext (num := R))) [] in
  drawingCanvas (CalligraphyCanvas.studio c) <> None
  /\ indexValid (CalligraphyCanvas.studio c)
  /\ item (historyRef (CalligraphyCanvas.studio c))
       (historyStepIndexRef (CalligraphyCanvas.studio c)) = Some st
  /\ layer (performUndo (CalligraphyCanvas.studio (clearEffect c)))
     = Some (imageData st, svgPaths st).
Proof.
  cbv zeta.
  destruct mounted_state as (H1 & H2 & H3).
  split; [exact H1 |]. split; [exact H2 |]. split; [exact H3 |].
  exact (proj1 (proj2 (proj2 (proj2 (proj2
           (@clear_is_undoable R _ _ H1 H2 H3)))))).
Defined.

(** A move and an up with no stroke begun. *)
Lemma idle_pointers_never_paint_witness :
  let c := mountedCanvas (num := R) newContext newContext in
  let p := sampleProps DRAW FACTORY_DEFAULTS in
  let events : list (Event (num := R)) :=
    [PointerMove p (samplePointer 1 10 10 0.5);
     PointerUp (samplePointer 1 10 10 0.5)] in
  forallb (@isMoveOrUp R) events = true
  /\ CalligraphyCanvas.isDrawingRef c = false
  /\ exists c',
       handleAll (fun _ => 0%R) (fun _ => 0%R) identityEngine events c
       = Returns c'
       /\ CalligraphyCanvas.studio c' = CalligraphyCanvas.studio c.
Proof.
  cbv zeta.
  set (c := mountedCanvas (num := R) newContext newContext).
  set (events := [PointerMove (sampleProps DRAW FACTORY_DEFAULTS)
                    (samplePointer 1 10 10 0.5);
                  PointerUp (samplePointer (num := R) 1 10 10 0.5)]).
  assert (H1 : forallb (@isMoveOrUp R) events = true) by reflexivity.
  assert (H2 : CalligraphyCanvas.isDrawingRef c = false) by reflexivity.
  split; [exact H1 |]. split; [exact H2 |].
  destruct (proj1 (@idle_pointers_never_paint R exact exact_MathLib
                     exact_Flooring exact_Indexing (fun _ => 0%R)
                     (fun _ => 0%R) identityEngine c events H1) H2)
    as (c' & Hrun & Hstudio & _).
  exists c'. split; [exact Hrun | exact Hstudio].
Defined.

(** A stroke of one move on the canvases as they are mounted. *)
Lemma one_stroke_one_step_witness :
  let c0 := mountedCanvas (num := R) newContext newContext in
  let p := sampleProps DRAW FACTORY_DEFAULTS in
  let e := samplePointer (num := R) 1 10 10 0.5 in
  let moves := [(p, samplePointer (num := R) 1 13 14 0.5)] in
  CalligraphyCanvas.activePointers c0 = []
  /\ Props.mode p = DRAW
  /\ forallb (fun pe => (PointerEvent.pointerId (snd pe)
                         =? PointerEvent.pointerId e)%Z) moves = true
  /\ PointerEvent.pointerId e = PointerEvent.pointerId e
  /\ forall c',
       handleAll (fun _ => 0%R) (fun _ => 0%R) identityEngine
         (PointerDown p e :: pointerMoves moves ++ [PointerUp e]) c0
       <> Throws c'.
Proof.
  cbv zeta.
  set (c0 := mountedCanvas (num := R) newContext newContext).
  set (p := sampleProps (num := R) DRAW FACTORY_DEFAULTS).
  set (e := samplePointer (num := R) 1 10 10 0.5).
  set (moves := [(p, samplePointer (num := R) 1 13 14 0.5)]).
  assert (H1 : CalligraphyCanvas.activePointers c0 = []) by reflexivity.
  assert (H2 : Props.mode p = DRAW) by reflexivity.
  assert (H3 : forallb (fun pe : Props.t R * PointerEvent.t R =>
                          (PointerEvent.pointerId (snd pe)
                           =? PointerEvent.pointerId e)%Z) moves = true)
    by reflexivity.
  assert (H4 : PointerEvent.pointerId e = PointerEvent.pointerId e)
    by reflexivity.
  split; [exact H1 |]. split; [exact H2 |]. split; [exact H3 |].
  split; [exact H4 |].
  intros c' Hrun.
  pose proof (@one_stroke_one_step R exact exact_MathLib exact_Flooring
                exact_Indexing (fun _ => 0%R) (fun _ => 0%R) identityEngine
                c0 p e e moves H1 H2 H3 H4) as Hstroke.
  rewrite Hrun in Hstroke. exact Hstroke.
Defined.

(** The same stroke, then Undo. *)
Lemma undo_takes_back_the_stroke_witness :
  let c0 := mountedCanvas (num := R) newContext newContext in
  let p := sampleProps DRAW FACTORY_DEFAULTS in
  let e := samplePointer (num := R) 1 10 10 0.5 in
  let moves := [(p, samplePointer (num := R) 1 13 14 0.5)] in
  let st := mkStep (raster (newContext (num := R))) [] in
  CalligraphyCanvas.activePointers c0 = []
  /\ Props.mode p = DRAW
  /\ forallb (fun pe => (PointerEvent.pointerId (snd pe)
                         =? PointerEvent.pointerId e)%Z) moves = true
  /\ PointerEvent.pointerId e = PointerEvent.pointerId e
  /\ drawingCanvas (CalligraphyCanvas.studio c0) <> None
  /\ indexValid (CalligraphyCanvas.studio c0)
  /\ item (historyRef (CalligraphyCanvas.studio c0))
       (historyStepIndexRef (CalligraphyCanvas.studio c0)) = Some st
  /\ forall cF,
       handleAll (fun _ => 0%R) (fun _ => 0%R) identityEngine
         (PointerDown p e :: pointerMoves moves ++ [PointerUp e]) c0
       = Returns cF ->
       layer (performUndo (CalligraphyCanvas.studio cF))
       = Some (imageData st, svgPaths st).
Proof.
  cbv zeta.
  destruct mounted_state as (H5 & H6 & H7).
  set (c0 := mountedCanvas (num := R) newContext newContext) in *.
  set (p := sampleProps (num := R) DRAW FACTORY_DEFAULTS).
  set (e := samplePointer (num := R) 1 10 10 0.5).
  set (moves := [(p, samplePointer (num := R) 1 13 14 0.5)]).
  assert (H1 : CalligraphyCanvas.activePointers c0 = []) by reflexivity.
  assert (H2 : Props.mode p = DRAW) by reflexivity.
  assert (H3 : forallb (fun pe : Props.t R * PointerEvent.t R =>
                          (PointerEvent.pointerId (snd pe)
                           =? PointerEvent.pointerId e)%Z) moves = true)
    by reflexivity.
  assert (H4 : PointerEvent.pointerId e = PointerEvent.pointerId e)
    by reflexivity.
  split; [exact H1 |]. split; [exact H2 |]. split; [exact H3 |].
  split; [exact H4 |]. split; [exact H5 |]. split; [exact H6 |].
  split; [exact H7 |].
  intros cF Hrun.
  pose proof (@undo_takes_back_the_stroke R exact exact_MathLib exact_Flooring
                exact_Indexing (fun _ => 0%R) (fun _ => 0%R) identityEngine
                c0 p e e moves _ H1 H2 H3 H4 H5 H6 H7) as Hundo.
  cbv zeta in Hundo. rewrite Hrun in Hundo.
  destruct Hundo as (cU & cR & HU & Hlayer & _).
  cbn [handleAll handle] in HU. injection HU as <-.
  exact Hlayer.
Defined.

(** A move with the factory brush. *)
Lemma pointer_move_returns_witness :
  let p := sampleProps (num := R) DRAW FACTORY_DEFAULTS in
  safeSettings (Props.settings p)
  /\ exists c' v,
       handlePointerMove (fun _ => 0%R) (fun _ => 0%R) p
         (samplePointer 1 13 14 0.5)
         (mountedCanvas newContext newContext)
       = Returns (c', v).
Proof.
  cbv zeta.
  assert (H : safeSettings
                (Props.settings (sampleProps (num := R) DRAW
                                   FACTORY_DEFAULTS)))
    by exact factory_defaults_safe.
  split; [exact H |].
  exact (@pointer_move_returns exact_MathLib (fun _ => 0%R) (fun _ => 0%R) _
           (samplePointer 1 13 14 0.5)
           (mountedCanvas newContext newContext) H).
Defined.

(** The sample buffer scanned for a thin text at a pixel ratio of 1. *)
Lemma scan_finds_opaque_pixels_witness :
  let settings : BrushSettings.t float :=
    settingsWith 10 0.45 0.7 0.22 0.8 0 PEN THIN false in
  let found : list (Particle (num := float)) :=
    [mkParticle 0 0; mkParticle 1 1]%float in
  scanBuffer 1%float settings sampleBuffer = Some found
  /\ (List.length found
      <= Buffer.height sampleBuffer * Buffer.width sampleBuffer)%nat.
Proof.
  cbv zeta.
  assert (H : scanBuffer 1%float
                (settingsWith 10 0.45 0.7 0.22 0.8 0 PEN THIN false)
                sampleBuffer
              = Some [mkParticle 0 0; mkParticle 1 1]%float)
    by (vm_compute; reflexivity).
  split; [exact H |].
  exact (proj1 (@scan_finds_opaque_pixels float binary64 binary64_Flooring
                  binary64_Indexing _ _ _ _ H)).
Defined.

(** The sample buffer rendered as text, with every random number 0. *)
Lemma text_animation_completes_witness :
  let p := sampleProps (num := R) GENERATE FACTORY_DEFAULTS in
  let c := mountedCanvas (num := R) newContext newContext in
  (forall i : nat, (0 <= (fun _ : nat => 0) i < 1)%R)
  /\ Props.mode p = GENERATE
  /\ "a"%string <> EmptyString
  /\ CalligraphyCanvas.textCanvas c = Some newContext
  /\ Buffer.width sampleBuffer <> 0%nat
  /\ Buffer.height sampleBuffer <> 0%nat
  /\ (forall n, settlesOnOrders n (identityEngine n) = true)
  /\ exists found,
       scanBuffer (pixelRatio (Props.devicePixelRatio p)) (Props.settings p)
         sampleBuffer = Some found.
Proof.
  cbv zeta.
  set (p := sampleProps (num := R) GENERATE FACTORY_DEFAULTS).
  set (c := mountedCanvas (num := R) newContext newContext).
  assert (H0 : forall i : nat, (0 <= (fun _ : nat => 0) i < 1)%R)
    by (intro i; lra).
  assert (H1 : Props.mode p = GENERATE) by reflexivity.
  assert (H2 : "a"%string <> EmptyString) by discriminate.
  assert (H3 : CalligraphyCanvas.textCanvas c = Some newContext)
    by reflexivity.
  assert (H4 : Buffer.width sampleBuffer <> 0%nat) by discriminate.
  assert (H5 : Buffer.height sampleBuffer <> 0%nat) by discriminate.
  assert (H6 : forall n, settlesOnOrders n (identityEngine n) = true)
    by (intro n; apply isOrder_seq).
  split; [exact H0 |]. split; [exact H1 |]. split; [exact H2 |].
  split; [exact H3 |]. split; [exact H4 |]. split; [exact H5 |].
  split; [exact H6 |].
  destruct (@text_animation_completes (fun _ => 0%R) H0 (fun _ => 0%R)
              identityEngine exact_MathLib p "a" sampleBuffer c newContext
              H1 H2 H3 H4 H5 H6) as (found & Hscan & _).
  exists found. exact Hscan.
Defined.

(** The factory brush and a wider one stamp a text alike. *)
Lemma text_stamping_reads_three_settings_witness :
  let s1 : BrushSettings.t float := FACTORY_DEFAULTS in
  let s2 : BrushSettings.t float :=
    settingsWith 60 0.1 0.9 0.5 0.3 0.1 PEN NORMAL false in
  BrushSettings.fontStyle s1 = BrushSettings.fontStyle s2
  /\ BrushSettings.weightOption s1 = BrushSettings.weightOption s2
  /\ BrushSettings.color s1 = BrushSettings.color s2
  /\ animateText (fun _ => 0.5%float) GENERATE s1 [mkParticle 3 4]%float 0
     = animateText (fun _ => 0.5%float) GENERATE s2 [mkParticle 3 4]%float 0.
Proof.
  cbv zeta.
  assert (H1 : BrushSettings.fontStyle (FACTORY_DEFAULTS (num := float))
               = BrushSettings.fontStyle
                   (settingsWith (num := float) 60 0.1 0.9 0.5 0.3 0.1 PEN
                      NORMAL false)) by reflexivity.
  assert (H2 : BrushSettings.weightOption (FACTORY_DEFAULTS (num := float))
               = BrushSettings.weightOption
                   (settingsWith (num := float) 60 0.1 0.9 0.5 0.3 0.1 PEN
                      NORMAL false)) by reflexivity.
  assert (H3 : BrushSettings.color (FACTORY_DEFAULTS (num := float))
               = BrushSettings.color
                   (settingsWith (num := float) 60 0.1 0.9 0.5 0.3 0.1 PEN
                      NORMAL false)) by reflexivity.
  split; [exact H1 |]. split; [exact H2 |]. split; [exact H3 |].
  exact (@text_stamping_reads_three_settings float binary64
           (fun _ => 0.5%float) GENERATE _ _ [mkParticle 3 4]%float 0%nat
           H1 H2 H3).
Defined.
